(** * AgentMedicalExperiment: answer extraction, fan-out, arbitration, statistics

    A shallow embedding of the answer-aggregation pipeline of the repository
    (src/orchestrator.py, src/extract_final_answer.py, src/logger.py,
    src/prompts.py, src/models.py, src/image_utils.py) and the properties
    of it that the specification states, followed by properties of the run
    loop, the running statistics and the reports.

    Modelling conventions.
    - Python text is a [string] of bytes.  Letter case is ASCII case: [lower]
      maps A-Z to a-z and leaves every other byte alone, so the accented
      letter of the Spanish word for option is the two bytes of its UTF-8
      encoding.  White space is what [str.isspace] accepts below code 128.
    - A Python dict is an association list with unique keys in insertion
      order ([dict_get], [dict_set]).
    - Code that can raise returns a [result]: [Ok v] or [Raise e].
    - The content of a provider's message, and so the raw text of a reply,
      is an [option string]: a text or Python's [None].
    - Durations and file sizes in megabytes are rationals. *)

From Stdlib Require Import String Ascii List ZArith QArith Lia Bool Permutation Sorted.
From stdpp Require Import base tactics option list.

Import ListNotations.
Local Open Scope list_scope.
Local Open Scope string_scope.

(** ** Python built-ins *)

Module Py.

(** Exceptions, with the text that [str(e)] gives. *)
Inductive exn : Type :=
| TypeError (msg : string)
| AttributeError (msg : string)
| ValueError (msg : string)
| IndexError (msg : string)
| KeyError (msg : string)
| Exception (msg : string).

Definition str_of_exn (e : exn) : string :=
  match e with
  | TypeError m | AttributeError m | ValueError m | IndexError m
  | Exception m => m
  | KeyError k => "'" ++ k ++ "'"
  end.

Inductive result (A : Type) : Type :=
| Ok (a : A)
| Raise (e : exn).
Arguments Ok {A} a.
Arguments Raise {A} e.

#[export] Instance result_bind : MBind result := fun A B k r =>
  match r with
  | Ok a => k a
  | Raise e => Raise e
  end.

#[export] Instance result_fmap : FMap result := fun A B f r =>
  match r with
  | Ok a => Ok (f a)
  | Raise e => Raise e
  end.

(** The double quote, which a string literal of this file cannot hold. *)
Definition dquote : ascii := ascii_of_nat 34.

(** [dq s] is [s] with every apostrophe turned into a double quote; the
    concrete replies below are written with it. *)
Fixpoint dq (s : string) : string :=
  match s with
  | EmptyString => EmptyString
  | String c s' => String (if Ascii.eqb c "'" then dquote else c) (dq s')
  end.

Definition is_upper (c : ascii) : bool :=
  let n := nat_of_ascii c in (65 <=? n)%nat && (n <=? 90)%nat.

Definition lower_char (c : ascii) : ascii :=
  if is_upper c then ascii_of_nat (nat_of_ascii c + 32) else c.

(** [str.lower] *)
Fixpoint lower (s : string) : string :=
  match s with
  | EmptyString => EmptyString
  | String c s' => String (lower_char c) (lower s')
  end.

(** [str.isspace] on one character: tab, line feed, vertical tab, form
    feed, carriage return, the four separators 28-31, and space. *)
Definition is_space (c : ascii) : bool :=
  let n := nat_of_ascii c in
  ((9 <=? n)%nat && (n <=? 13)%nat) || ((28 <=? n)%nat && (n <=? 32)%nat).

Fixpoint lstrip (s : string) : string :=
  match s with
  | EmptyString => EmptyString
  | String c s' => if is_space c then lstrip s' else s
  end.

Fixpoint rstrip (s : string) : string :=
  match s with
  | EmptyString => EmptyString
  | String c s' =>
      match rstrip s' with
      | EmptyString => if is_space c then EmptyString else String c EmptyString
      | r => String c r
      end
  end.

(** [str.strip] *)
Definition strip (s : string) : string := rstrip (lstrip s).

(** [s.startswith(p)] *)
Fixpoint startswith (s p : string) : bool :=
  match p, s with
  | EmptyString, _ => true
  | String a p', String b s' => Ascii.eqb a b && startswith s' p'
  | String _ _, EmptyString => false
  end.

(** [p in s] for two strings *)
Fixpoint contains (s p : string) : bool :=
  startswith s p ||
  match s with
  | EmptyString => false
  | String _ s' => contains s' p
  end.

(** [c in s] for one character [c] *)
Fixpoint char_in (c : ascii) (s : string) : bool :=
  match s with
  | EmptyString => false
  | String a s' => Ascii.eqb a c || char_in c s'
  end.

(** [str.replace old new] for a non-empty [old]: occurrences are taken
    left to right and do not overlap.  [skip] counts the characters of
    an occurrence still to be passed over. *)
Fixpoint replace_from (old new : string) (skip : nat) (s : string) : string :=
  match s with
  | EmptyString => EmptyString
  | String c s' =>
      match skip with
      | S n => replace_from old new n s'
      | O =>
          if startswith s old
          then new ++ replace_from old new (String.length old - 1) s'
          else String c (replace_from old new 0 s')
      end
  end.

(** With an empty [old] Python puts [new] before every character and at
    the end. *)
Fixpoint intersperse (new s : string) : string :=
  match s with
  | EmptyString => new
  | String c s' => new ++ String c (intersperse new s')
  end.

Definition replace (s old new : string) : string :=
  match old with
  | EmptyString => intersperse new s
  | _ => replace_from old new 0 s
  end.

(** [s.replace(old, new)] where [new] is a text or [None]: the argument is
    checked before anything is searched. *)
Definition replace_value (s old : string) (new : option string) : result string :=
  match new with
  | Some new => Ok (replace s old new)
  | None => Raise (TypeError "replace() argument 2 must be str, not None")
  end.

(** A dict: keys are unique, order is insertion order. *)
Definition dict (V : Type) : Type := list (string * V).

Fixpoint dict_get {V} (d : dict V) (k : string) : option V :=
  match d with
  | [] => None
  | (k', v) :: d' => if String.eqb k' k then Some v else dict_get d' k
  end.

(** [d[k] = v] *)
Fixpoint dict_set {V} (d : dict V) (k : string) (v : V) : dict V :=
  match d with
  | [] => [(k, v)]
  | (k', v') :: d' =>
      if String.eqb k' k then (k', v) :: d' else (k', v') :: dict_set d' k v
  end.

Definition dict_keys {V} (d : dict V) : list string := map fst d.
Definition dict_values {V} (d : dict V) : list V := map snd d.

End Py.

Import Py.

(** ** [json.loads]

    The decoder of the standard library, as far as the extractor can observe
    it: which texts decode, and to what.  [None] stands for
    [json.JSONDecodeError].  A number keeps its literal, since no code here
    computes with one.  The interpreter's limits (recursion depth, digits of
    an integer) are not modelled. *)

Module Json.

#[local] Unset Elimination Schemes.
Inductive json : Type :=
| JNull
| JBool (b : bool)
| JInt (literal : string)
| JFloat (literal : string)
| JString (s : string)
| JArray (items : list json)
| JObject (members : dict json).
#[local] Set Elimination Schemes.

Inductive scan (A : Type) : Type :=
| Scanned (a : A) (rest : string)
| Invalid
| Exhausted.
Arguments Scanned {A} a rest.
Arguments Invalid {A}.
Arguments Exhausted {A}.

Definition is_ws (c : ascii) : bool :=
  let n := nat_of_ascii c in
  (n =? 32)%nat || (n =? 9)%nat || (n =? 10)%nat || (n =? 13)%nat.

Fixpoint skip_ws (s : string) : string :=
  match s with
  | EmptyString => EmptyString
  | String c s' => if is_ws c then skip_ws s' else s
  end.

Definition is_digit (c : ascii) : bool :=
  let n := nat_of_ascii c in (48 <=? n)%nat && (n <=? 57)%nat.

Definition hex_value (c : ascii) : option N :=
  let n := N_of_ascii c in
  if (48 <=? n)%N && (n <=? 57)%N then Some (n - 48)%N
  else if (97 <=? n)%N && (n <=? 102)%N then Some (n - 87)%N
  else if (65 <=? n)%N && (n <=? 70)%N then Some (n - 55)%N
  else None.

Definition hex4 (a b c d : ascii) : option N :=
  match hex_value a, hex_value b, hex_value c, hex_value d with
  | Some x, Some y, Some z, Some w => Some (((x * 16 + y) * 16 + z) * 16 + w)%N
  | _, _, _, _ => None
  end.

(** The bytes of a code point in UTF-8 (a lone surrogate gets the three
    bytes its number would have). *)
Definition utf8 (n : N) : string :=
  let b (k : N) := ascii_of_N k in
  if (n <? 128)%N then String (b n) EmptyString
  else if (n <? 2048)%N then
    String (b (192 + n / 64)%N) (String (b (128 + n mod 64)%N) EmptyString)
  else if (n <? 65536)%N then
    String (b (224 + n / 4096)%N)
      (String (b (128 + (n / 64) mod 64)%N)
         (String (b (128 + n mod 64)%N) EmptyString))
  else
    String (b (240 + n / 262144)%N)
      (String (b (128 + (n / 4096) mod 64)%N)
         (String (b (128 + (n / 64) mod 64)%N)
            (String (b (128 + n mod 64)%N) EmptyString))).

Definition is_high_surrogate (n : N) : bool := (55296 <=? n)%N && (n <=? 56319)%N.
Definition is_low_surrogate (n : N) : bool := (56320 <=? n)%N && (n <=? 57343)%N.

Definition simple_escape (e : ascii) : option ascii :=
  if Ascii.eqb e dquote then Some dquote
  else if Ascii.eqb e "\" then Some "\"%char
  else if Ascii.eqb e "/" then Some "/"%char
  else if Ascii.eqb e "b" then Some (ascii_of_nat 8)
  else if Ascii.eqb e "f" then Some (ascii_of_nat 12)
  else if Ascii.eqb e "n" then Some (ascii_of_nat 10)
  else if Ascii.eqb e "r" then Some (ascii_of_nat 13)
  else if Ascii.eqb e "t" then Some (ascii_of_nat 9)
  else None.

(** The low half of a surrogate pair, when the six characters after a
    high half are a second escape that holds one. *)
Definition low_escape (hi : N) (b1 b2 l1 l2 l3 l4 : ascii) : option N :=
  if is_high_surrogate hi && Ascii.eqb b1 "\" && Ascii.eqb b2 "u" then
    match hex4 l1 l2 l3 l4 with
    | Some lo => if is_low_surrogate lo then Some lo else None
    | None => None
    end
  else None.

Definition prepend (p : string) (o : option (string * string)) : option (string * string) :=
  match o with
  | Some (body, rest) => Some (p ++ body, rest)
  | None => None
  end.

(** The body of a string, from after its opening quote; strict mode: a
    control character ends the decoding with an error. *)
Fixpoint scanstring (s : string) : option (string * string) :=
  match s with
  | EmptyString => None
  | String c s' =>
      if Ascii.eqb c dquote then Some (EmptyString, s')
      else if (nat_of_ascii c <? 32)%nat then None
      else if Ascii.eqb c "\" then
        match s' with
        | EmptyString => None
        | String e r =>
            if Ascii.eqb e "u" then
              match r with
              | String h1 (String h2 (String h3 (String h4 r1))) =>
                  match hex4 h1 h2 h3 h4 with
                  | None => None
                  | Some hi =>
                      match r1 with
                      | String b1 (String b2 (String l1 (String l2 (String l3 (String l4 r2))))) =>
                          match low_escape hi b1 b2 l1 l2 l3 l4 with
                          | Some lo =>
                              prepend (utf8 (65536 + (hi - 55296) * 1024 + (lo - 56320))%N)
                                      (scanstring r2)
                          | None => prepend (utf8 hi) (scanstring r1)
                          end
                      | _ => prepend (utf8 hi) (scanstring r1)
                      end
                  end
              | _ => None
              end
            else
              match simple_escape e with
              | Some x => prepend (String x EmptyString) (scanstring r)
              | None => None
              end
        end
      else prepend (String c EmptyString) (scanstring s')
  end.

(** The longest run of digits at the head of [s], and what follows. *)
Fixpoint span_digits (s : string) : string * string :=
  match s with
  | String c s' =>
      if is_digit c then let '(d, r) := span_digits s' in (String c d, r)
      else (EmptyString, s)
  | EmptyString => (EmptyString, EmptyString)
  end.

(** The integer part: a lone zero, or a non-zero digit and more digits. *)
Definition int_part (s : string) : option (string * string) :=
  match s with
  | String c s' =>
      if Ascii.eqb c "0" then Some ("0", s')
      else if is_digit c then let '(d, r) := span_digits s' in Some (String c d, r)
      else None
  | EmptyString => None
  end.

Definition frac_part (s : string) : string * string :=
  match s with
  | String c s' =>
      if Ascii.eqb c "." then
        match span_digits s' with
        | (EmptyString, _) => (EmptyString, s)
        | (d, r) => (String c d, r)
        end
      else (EmptyString, s)
  | EmptyString => (EmptyString, s)
  end.

Definition exp_part (s : string) : string * string :=
  match s with
  | String e s' =>
      if Ascii.eqb e "e" || Ascii.eqb e "E" then
        let '(sign, s'') :=
          match s' with
          | String g t =>
              if Ascii.eqb g "+" || Ascii.eqb g "-"
              then (String g EmptyString, t) else (EmptyString, s')
          | EmptyString => (EmptyString, s')
          end in
        match span_digits s'' with
        | (EmptyString, _) => (EmptyString, s)
        | (d, r) => (String e (sign ++ d), r)
        end
      else (EmptyString, s)
  | EmptyString => (EmptyString, s)
  end.

Definition match_number (s : string) : option (json * string) :=
  let '(sign, s1) :=
    match s with
    | String c t => if Ascii.eqb c "-" then ("-", t) else (EmptyString, s)
    | EmptyString => (EmptyString, s)
    end in
  match int_part s1 with
  | None => None
  | Some (i, s2) =>
      let '(f, s3) := frac_part s2 in
      let '(e, s4) := exp_part s3 in
      match f, e with
      | EmptyString, EmptyString => Some (JInt (sign ++ i), s4)
      | _, _ => Some (JFloat (sign ++ i ++ f ++ e), s4)
      end
  end.

(** [s] without the prefix [p], when it starts with it. *)
Fixpoint drop_prefix (p s : string) : option string :=
  match p, s with
  | EmptyString, _ => Some s
  | String a p', String b s' => if Ascii.eqb a b then drop_prefix p' s' else None
  | String _ _, EmptyString => None
  end.

Definition keyword (s : string) : option (json * string) :=
  match drop_prefix "null" s with
  | Some r => Some (JNull, r)
  | None =>
  match drop_prefix "true" s with
  | Some r => Some (JBool true, r)
  | None =>
  match drop_prefix "false" s with
  | Some r => Some (JBool false, r)
  | None =>
  match drop_prefix "NaN" s with
  | Some r => Some (JFloat "NaN", r)
  | None =>
  match drop_prefix "Infinity" s with
  | Some r => Some (JFloat "Infinity", r)
  | None =>
  match drop_prefix "-Infinity" s with
  | Some r => Some (JFloat "-Infinity", r)
  | None => None
  end end end end end end.

Definition of_option {A} (o : option (A * string)) : scan A :=
  match o with
  | Some (a, r) => Scanned a r
  | None => Invalid
  end.

(** One value at the head of [s].  [scan_members] reads the members of an
    object from its first key on, [scan_items] the items of an array from
    its first item on. *)
Fixpoint scan_once (fuel : nat) (s : string) : scan json :=
  match fuel with
  | O => Exhausted
  | S fuel' =>
      match s with
      | EmptyString => Invalid
      | String c s' =>
          if Ascii.eqb c dquote then
            match scanstring s' with
            | Some (body, r) => Scanned (JString body) r
            | None => Invalid
            end
          else if Ascii.eqb c "{" then
            match drop_prefix "}" (skip_ws s') with
            | Some r => Scanned (JObject []) r
            | None => scan_members fuel' [] (skip_ws s')
            end
          else if Ascii.eqb c "[" then
            match drop_prefix "]" (skip_ws s') with
            | Some r => Scanned (JArray []) r
            | None => scan_items fuel' [] (skip_ws s')
            end
          else
            match keyword s with
            | Some (v, r) => Scanned v r
            | None => of_option (match_number s)
            end
      end
  end
with scan_members (fuel : nat) (acc : dict json) (s : string) : scan json :=
  match fuel with
  | O => Exhausted
  | S fuel' =>
      match s with
      | String c s' =>
          if Ascii.eqb c dquote then
            match scanstring s' with
            | None => Invalid
            | Some (key, r1) =>
                match drop_prefix ":" (skip_ws r1) with
                | Some r2 =>
                    match scan_once fuel' (skip_ws r2) with
                    | Scanned v r3 =>
                        match drop_prefix "}" (skip_ws r3), drop_prefix "," (skip_ws r3) with
                        | Some r4, _ => Scanned (JObject (dict_set acc key v)) r4
                        | None, Some r4 =>
                            scan_members fuel' (dict_set acc key v) (skip_ws r4)
                        | None, None => Invalid
                        end
                    | Invalid => Invalid
                    | Exhausted => Exhausted
                    end
                | None => Invalid
                end
            end
          else Invalid
      | EmptyString => Invalid
      end
  end
with scan_items (fuel : nat) (acc : list json) (s : string) : scan json :=
  match fuel with
  | O => Exhausted
  | S fuel' =>
      match scan_once fuel' s with
      | Scanned v r1 =>
          match drop_prefix "]" (skip_ws r1), drop_prefix "," (skip_ws r1) with
          | Some r2, _ => Scanned (JArray (acc ++ [v])%list) r2
          | None, Some r2 => scan_items fuel' (acc ++ [v])%list (skip_ws r2)
          | None, None => Invalid
          end
      | Invalid => Invalid
      | Exhausted => Exhausted
      end
  end.

(** [json.loads]: white space, one value, white space, end of text.  Two
    units of fuel for every character are enough ([loads_scan_total]). *)
Definition loads_scan (s : string) : scan json :=
  match scan_once (S (2 * String.length s)) (skip_ws s) with
  | Scanned v r =>
      match skip_ws r with
      | EmptyString => Scanned v EmptyString
      | _ => Invalid
      end
  | Invalid => Invalid
  | Exhausted => Exhausted
  end.

Definition loads (s : string) : option json :=
  match loads_scan s with
  | Scanned v _ => Some v
  | _ => None
  end.

End Json.

Import Json.

(** ** [re.search]

    A backtracking matcher for the constructs the program's patterns use,
    with Python's order of preference: alternatives left to right, greedy
    repetition longest first, lazy repetition shortest first.  Repetition
    is over one character class, which is all the patterns need.  A pattern
    has one group; [search] returns what [group(1)] of the leftmost match
    holds. *)

Module Re.

Inductive regex : Type :=
| Eps
| Chr (c : ascii)
| Class (p : ascii -> bool)
| Seq (r1 r2 : regex)
| Alt (r1 r2 : regex)
| Opt (r : regex)
| Star (p : ascii -> bool)
| LazyStar (p : ascii -> bool)
| Group (r : regex)
| Bol
| Eol.

Definition orelse {A} (x y : option A) : option A :=
  match x with
  | Some _ => x
  | None => y
  end.

(** [go r i s cap k]: match [r] at offset [i], where [s] is the rest of
    the subject, then go on with [k]; [cap] is the text of the group so
    far. *)
Fixpoint go {A} (r : regex) (i : nat) (s : string) (cap : string)
         (k : nat -> string -> string -> option A) : option A :=
  match r with
  | Eps => k i s cap
  | Chr c =>
      match s with
      | String a s' => if Ascii.eqb a c then k (S i) s' cap else None
      | EmptyString => None
      end
  | Class p =>
      match s with
      | String a s' => if p a then k (S i) s' cap else None
      | EmptyString => None
      end
  | Seq r1 r2 => go r1 i s cap (fun i' s' cap' => go r2 i' s' cap' k)
  | Alt r1 r2 => orelse (go r1 i s cap k) (go r2 i s cap k)
  | Opt r' => orelse (go r' i s cap k) (k i s cap)
  | Star p =>
      (fix star (i : nat) (s : string) : option A :=
         match s with
         | String a s' =>
             if p a then orelse (star (S i) s') (k i s cap) else k i s cap
         | EmptyString => k i s cap
         end) i s
  | LazyStar p =>
      (fix lazy (i : nat) (s : string) : option A :=
         orelse (k i s cap)
                match s with
                | String a s' => if p a then lazy (S i) s' else None
                | EmptyString => None
                end) i s
  | Group r' =>
      go r' i s cap (fun i' s' _ => k i' s' (String.substring 0 (i' - i) s))
  | Bol => if (i =? 0)%nat then k i s cap else None
  | Eol =>
      match s with
      | EmptyString => k i s cap
      | String a EmptyString =>
          if Ascii.eqb a (ascii_of_nat 10) then k i s cap else None
      | _ => None
      end
  end.

(** [match_at r i s]: the group of a match of [r] that starts at [i]. *)
Definition match_at (r : regex) (i : nat) (s : string) : option string :=
  go r i s EmptyString (fun _ _ cap => Some cap).

Fixpoint search_from (r : regex) (i : nat) (s : string) : option string :=
  orelse (match_at r i s)
         match s with
         | String _ s' => search_from r (S i) s'
         | EmptyString => None
         end.

(** [re.search(r, s)], as the text of its group. *)
Definition search (r : regex) (s : string) : option string := search_from r 0 s.

(** Building blocks of the program's patterns. *)
Fixpoint lit (s : string) : regex :=
  match s with
  | EmptyString => Eps
  | String c s' => Seq (Chr c) (lit s')
  end.

Definition seq (rs : list regex) : regex := fold_right Seq Eps rs.

Fixpoint alt (rs : list regex) : regex :=
  match rs with
  | [] => Class (fun _ => false)
  | [r] => r
  | r :: rs' => Alt r (alt rs')
  end.

Definition is_quote (c : ascii) : bool := Ascii.eqb c dquote || Ascii.eqb c "'".
Definition is_a_to_d (c : ascii) : bool :=
  let n := nat_of_ascii c in (97 <=? n)%nat && (n <=? 100)%nat.
Definition not_newline (c : ascii) : bool := negb (Ascii.eqb c (ascii_of_nat 10)).

Definition spaces : regex := Star is_space.       (* \s* *)
Definition spaces1 : regex := Seq (Class is_space) (Star is_space).  (* \s+ *)
Definition quote : regex := Class is_quote.
Definition letter : regex := Group (Class is_a_to_d).   (* ([a-d]) *)

End Re.

Import Re.

(** ** src/orchestrator.py: the answer extractor *)

(** What [key in data] and [data[key]] do on a decoded value; the messages
    are those of CPython 3.11. *)
Definition type_name (data : json) : string :=
  match data with
  | JNull => "NoneType"
  | JBool _ => "bool"
  | JInt _ => "int"
  | JFloat _ => "float"
  | JString _ => "str"
  | JArray _ => "list"
  | JObject _ => "dict"
  end.

Definition is_str (v : json) (s : string) : bool :=
  match v with
  | JString s' => String.eqb s' s
  | _ => false
  end.

Definition py_in (key : string) (data : json) : result bool :=
  match data with
  | JObject d => Ok (match dict_get d key with Some _ => true | None => false end)
  | JArray l => Ok (existsb (fun v => is_str v key) l)
  | JString s => Ok (contains s key)
  | _ => Raise (TypeError ("argument of type '" ++ type_name data ++ "' is not iterable"))
  end.

Definition getitem (data : json) (key : string) : result json :=
  match data with
  | JObject d =>
      match dict_get d key with
      | Some v => Ok v
      | None => Raise (KeyError key)
      end
  | JArray _ => Raise (TypeError "list indices must be integers or slices, not str")
  | JString _ => Raise (TypeError "string indices must be integers, not 'str'")
  | _ => Raise (TypeError ("'" ++ type_name data ++ "' object is not subscriptable"))
  end.

(** [for key in keys: if key in data: x = data[key]; break], from the
    initial value [x0] of [x]. *)
Fixpoint first_key (keys : list string) (data : json) (x0 : json) : result json :=
  match keys with
  | [] => Ok x0
  | key :: keys' =>
      present ← py_in key data;
      if present : bool then getitem data key else first_key keys' data x0
  end.

Definition answer_keys : list string :=
  ["respuesta"; "Respuesta"; "response"; "Response"; "answer"; "Answer"].

Definition justification_keys : list string :=
  ["justificacion"; "Justificacion"; "justification"; "Justification";
   "reasoning"; "Reasoning"].

Definition fence : string := "```".
Definition json_fence : string := "```json".

(** Lines 69-73: the reply without its code-fence markers. *)
Definition clean_response (response : string) : string :=
  if contains response json_fence then
    strip (replace (replace response json_fence "") fence "")
  else if contains response fence then
    strip (replace response fence "")
  else response.

(** A label, a colon, then the letter, quoted or not. *)
Definition labelled (labels : list string) : regex :=
  seq [alt (map lit labels); Chr ":"; spaces; Opt quote; letter; Opt quote].

(** A quoted label, a colon, then the quoted letter. *)
Definition quoted (labels : list string) : regex :=
  seq [quote; alt (map lit labels); quote; Chr ":"; spaces; quote; letter; quote].

(** A phrase, white space, then the letter, quoted or not. *)
Definition phrase (phrases : list string) : regex :=
  seq [alt (map lit phrases); spaces1; Opt quote; letter; Opt quote].

Definition patterns : list regex :=
  [ labelled ["respuesta"; "answer"];
    labelled ["opción"; "option"];
    labelled ["alternativa"; "alternative"];
    quoted ["respuesta"; "answer"];
    quoted ["opción"; "option"];
    phrase ["la respuesta correcta es"; "the correct answer is"];
    phrase ["elijo"; "i choose"] ].

Definition justification_pattern : regex :=
  seq [alt (map lit ["justificacion"; "justification"; "reasoning"]);
       Chr ":"; spaces; Opt quote; Group (LazyStar not_newline); Opt quote;
       alt [Chr "}"; Chr (ascii_of_nat 10); Eol]].

(** The first of [ps] that matches [s], as its group. *)
Fixpoint first_match (ps : list regex) (s : string) : option string :=
  match ps with
  | [] => None
  | p :: ps' =>
      match search p s with
      | Some g => Some g
      | None => first_match ps' s
      end
  end.

(** [for char in s: if char in 'abcd': return char] *)
Fixpoint first_abcd (s : string) : option ascii :=
  match s with
  | EmptyString => None
  | String c s' => if char_in c "abcd" then Some c else first_abcd s'
  end.

(** Lines 110-140: the patterns over the lower-cased reply, then the scan
    for the first letter. *)
Definition parse_text (response : string) : string * json :=
  let response_lower := lower response in
  match first_match patterns response_lower with
  | Some g =>
      let justification :=
        match search justification_pattern response_lower with
        | Some j => strip j
        | None => ""
        end in
      (g, JString justification)
  | None =>
      match first_abcd response_lower with
      | Some c => (String c "", JString "")
      | None => ("", JString "")
      end
  end.

(** Lines 99-104: a non-empty string answer is trimmed and lower-cased, and
    cut to its first character when that is one of the four letters. *)
Definition normalise (answer : string) : string :=
  let answer := lower (strip answer) in
  match answer with
  | String c (String _ _) => if char_in c "abcd" then String c "" else answer
  | _ => answer
  end.

(** [ModelEnsemble._parse_response].  The justification is whatever the
    reply holds under its key, a string or not. *)
Definition _parse_response (response : string) : result (string * json) :=
  if String.eqb response "" || startswith response "Error:" then
    Ok ("", JString "")
  else
    match loads (clean_response response) with
    | Some data =>
        answer ← first_key answer_keys data (JString "");
        justification ← first_key justification_keys data (JString "");
        match answer with
        | JString (String c a) => Ok (normalise (String c a), justification)
        | _ => Ok (parse_text response)
        end
    | None => Ok (parse_text response)
    end.

(** [_parse_response] on what a reply dict holds under its raw text, a text
    or [None]: [None] is not a reply at line 65, as the empty text is
    not. *)
Definition _parse_response_value (response : option string) : result (string * json) :=
  match response with
  | None => Ok ("", JString "")
  | Some response => _parse_response response
  end.


(** ** src/extract_final_answer.py *)

(** The seven patterns of [extract_answer_from_text].  The literal of the
    seventh is cut short in the source, after the optional closing quote;
    it is taken as far as it is written. *)
Definition text_patterns : list regex :=
  [ labelled ["respuesta"; "answer"];
    labelled ["alternativa"; "option"];
    quoted ["respuesta"];
    quoted ["answer"];
    seq [alt (map lit ["la respuesta correcta es"; "the correct answer is"]);
         spaces; Opt quote; letter; Opt quote];
    seq [alt (map lit ["elijo"; "opto por"; "i choose"]);
         spaces; Opt quote; letter; Opt quote];
    seq [Bol; Opt quote; letter; Opt quote] ].

Definition extract_answer_from_text (text : string) : string :=
  let text_lower := lower text in
  match first_match text_patterns text_lower with
  | Some g => g
  | None =>
      match first_abcd text_lower with
      | Some c => String c ""
      | None => ""
      end
  end.

Definition possible_keys : list string :=
  ["respuesta"; "answer"; "opcion"; "option"; "alternativa"].

(** The inner loop of [parse_json_response] for one [key]: the first key
    of the object that contains it (letter case aside) and holds a
    non-empty string decides. *)
Fixpoint scan_data_keys (key : string) (items : dict json) : option string :=
  match items with
  | [] => None
  | (data_key, answer) :: items' =>
      if contains (lower data_key) (lower key) then
        match answer with
        | JString (String c a) =>
            if char_in (lower_char c) "abcd" then Some (String (lower_char c) "")
            else Some (extract_answer_from_text (String c a))
        | _ => scan_data_keys key items'
        end
      else scan_data_keys key items'
  end.

Fixpoint scan_possible_keys (keys : list string) (items : dict json) : option string :=
  match keys with
  | [] => None
  | key :: keys' =>
      match scan_data_keys key items with
      | Some a => Some a
      | None => scan_possible_keys keys' items
      end
  end.

Section ParseJsonResponse.

(** [json.dumps], which the function falls back on when no key of the
    object names an answer; left open. *)
Variable json_dumps : json -> string.

Definition parse_json_response (response : string) : result string :=
  match loads response with
  | Some (JObject items) =>
      match scan_possible_keys possible_keys items with
      | Some a => Ok a
      | None => Ok (extract_answer_from_text (json_dumps (JObject items)))
      end
  | Some data =>
      Raise (AttributeError ("'" ++ type_name data ++ "' object has no attribute 'keys'"))
  | None => Ok (extract_answer_from_text response)
  end.

End ParseJsonResponse.

(** Lines 110-115 of [extract_final_answers]: the comparison with the
    correct answer, guarded against an empty side. *)
Definition es_correcta (respuesta_correcta final_answer : string) : bool :=
  let correcta := lower respuesta_correcta in
  if negb (String.eqb correcta "") && negb (String.eqb final_answer "")
  then String.eqb (lower final_answer) (lower correcta)
  else false.

(** ** src/models.py: what a backend call returns *)

(** The dict [query_model] returns; [error] is the optional key.  The raw
    text is the content of the provider's message, which is a text or
    [None]. *)
Record response_data : Type := {
  rd_raw_response : option string;
  rd_processing_time : Q;
  rd_error : option bool
}.

(** A backend, as the outcome of [query_model(image_path, prompt)]. *)
Definition backend : Type := string -> string -> result response_data.

Section AdvisorModel.

(** [_encode_image], the provider call inside the [try] with the content
    it gives, a text or [None], and the time the call took. *)
Variable encode_image : string -> result string.
Variable provider : string -> string -> result (option string).
Variable elapsed : Q.

(** [AdvisorModel.query_model]: reading the image is outside the [try];
    whatever the provider call raises becomes an error reply. *)
Definition query_model : backend := fun image_path prompt =>
  image_b64 ← encode_image image_path;
  match provider image_b64 prompt with
  | Ok raw_response =>
      Ok {| rd_raw_response := raw_response;
            rd_processing_time := elapsed;
            rd_error := None |}
  | Raise e =>
      Ok {| rd_raw_response := Some ("Error: " ++ str_of_exn e);
            rd_processing_time := elapsed;
            rd_error := Some true |}
  end.

End AdvisorModel.

(** ** src/prompts.py *)

Section PromptManager.

Variable advisor_template : string.
Variable decision_template : string.

Definition get_advisor_prompt (question : string) : string :=
  replace advisor_template "{question}" question.

(** The replies are what the reply mapping holds, texts or [None]. *)
Definition get_decision_prompt (question : string)
    (claude_response grok_response deepseek_response : option string) : result string :=
  let prompt := decision_template in
  let prompt := replace prompt "{question}" question in
  prompt ← replace_value prompt "{claude_response}" claude_response;
  prompt ← replace_value prompt "{grok_response}" grok_response;
  prompt ← replace_value prompt "{deepseek_response}" deepseek_response;
  Ok prompt.

End PromptManager.

(** ** src/orchestrator.py: fan-out, arbitration, selection *)

(** An entry of the reply mapping. *)
Record advisor_reply : Type := {
  raw_response : option string;
  parsed_answer : string;
  reasoning : json;
  processing_time : Q;
  error : bool
}.

Record decision : Type := {
  d_raw_response : option string;
  final_answer : string;
  d_reasoning : json;
  d_processing_time : Q;
  d_error : bool;
  is_correct : bool
}.

(** The entry written when an advisor's task raised [e] (lines 203-209). *)
Definition failure_entry (e : exn) : advisor_reply :=
  {| raw_response := Some ("Error: " ++ str_of_exn e);
     parsed_answer := "";
     reasoning := JString "";
     processing_time := 0;
     error := true |}.

(** The fixed text that stands for a reply the mapping does not hold. *)
Definition placeholder : string := "Error al obtener respuesta".

(** [advisor_responses.get(name, {}).get(raw_response, placeholder)]: the
    raw text of an entry is what the entry holds, also when that is
    [None]. *)
Definition raw_or_placeholder (advisor_responses : dict advisor_reply) (name : string)
  : option string :=
  match dict_get advisor_responses name with
  | Some r => raw_response r
  | None => Some placeholder
  end.

(** [decision[is_correct]] of [process_question] (lines 268 and 289). *)
Definition decision_is_correct (final_answer respuesta_correcta : string) : bool :=
  let correct_answer := lower respuesta_correcta in
  String.eqb (lower final_answer) (lower correct_answer).

Section ModelEnsemble.

Variable advisor_template : string.
Variable decision_template : string.

Definition _query_advisor (advisor : backend) (image_path question : string)
  : result advisor_reply :=
  let prompt := get_advisor_prompt advisor_template question in
  response_data ← advisor image_path prompt;
  parsed ← _parse_response_value (rd_raw_response response_data);
  Ok {| raw_response := rd_raw_response response_data;
        parsed_answer := fst parsed;
        reasoning := snd parsed;
        processing_time := rd_processing_time response_data;
        error := default false (rd_error response_data) |}.

(** What the loop over the completed futures stores for one of them. *)
Definition collect (image_path question : string)
    (acc : dict advisor_reply) (task : string * backend) : dict advisor_reply :=
  let '(advisor_name, advisor) := task in
  dict_set acc advisor_name
    match _query_advisor advisor image_path question with
    | Ok reply => reply
    | Raise e => failure_entry e
    end.

(** [_query_advisors_parallel].  [completed] is the advisors in the order
    their futures complete, any order of the configured mapping.  A pool of
    no workers cannot be made. *)
Definition _query_advisors_parallel (advisors completed : dict backend)
    (image_path question : string) : result (dict advisor_reply) :=
  match advisors with
  | [] => Raise (ValueError "max_workers must be greater than 0")
  | _ => Ok (fold_left (collect image_path question) completed [])
  end.

(** The prompt [_query_decision_model] sends (lines 225-236). *)
Definition decision_prompt (question : string) (advisor_responses : dict advisor_reply)
  : result string :=
  let claude_response := raw_or_placeholder advisor_responses "claude" in
  let grok_response := raw_or_placeholder advisor_responses "grok" in
  let deepseek_response := raw_or_placeholder advisor_responses "deepseek" in
  get_decision_prompt decision_template question
    claude_response grok_response deepseek_response.

(** [_query_decision_model], with [is_correct] as [process_question] sets
    it from the row's correct answer. *)
Definition _query_decision_model (decision_model : backend)
    (image_path question respuesta_correcta : string)
    (advisor_responses : dict advisor_reply) : result decision :=
  prompt ← decision_prompt question advisor_responses;
  response_data ← decision_model image_path prompt;
  parsed ← _parse_response_value (rd_raw_response response_data);
  Ok {| d_raw_response := rd_raw_response response_data;
        final_answer := fst parsed;
        d_reasoning := snd parsed;
        d_processing_time := rd_processing_time response_data;
        d_error := default false (rd_error response_data);
        is_correct := decision_is_correct (fst parsed) respuesta_correcta |}.

End ModelEnsemble.

(** A row of the data frame: its index label, which is the question's
    identity, and the rest, for a row whose cells are texts. *)
Record question : Type := {
  question_id : Z;
  pregunta : string;
  respuesta_correcta : string;
  ruta : string
}.

(** [df.iloc[:n]] *)
Definition iloc_to (n : Z) (df : list question) : list question :=
  if (0 <=? n)%Z then firstn (Z.to_nat n) df
  else firstn (Z.to_nat (Z.of_nat (length df) + n)) df.

(** Lines 323-329 of [run]: the rows the loop goes over, in order.  A
    sample size of zero is not a sample size, as [None] is not. *)
Definition select_questions (df : list question)
    (sample_size resume_from : option Z) : list question :=
  let df :=
    match sample_size with
    | Some n =>
        if negb (n =? 0)%Z && (n <? Z.of_nat (length df))%Z then iloc_to n df else df
    | None => df
    end in
  match resume_from with
  | Some r => List.filter (fun q => (r <=? question_id q)%Z) df
  | None => df
  end.

(** ** src/logger.py: consensus among the advisors *)

(** The record [process_question] builds, as far as the logger reads it. *)
Record Result : Type := {
  r_question_id : Z;
  correct_answer : string;
  advisors : dict advisor_reply;
  r_decision : decision
}.

Section ProcessQuestion.

Variables advisor_template decision_template image_base_path : string.

(** [os.path.join], and [is_valid_image] of src/image_utils.py as its
    verdict: the file exists and is not too large. *)
Variable path_join : string -> string -> string.
Variable is_valid_image : string -> bool.

(** [ModelEnsemble.process_question]: no record for an image that is not
    valid; otherwise the fan-out, then the arbiter.  [completed] is the
    order in which the advisors' tasks complete. *)
Definition process_question (advisors completed : dict backend)
    (decision_model : backend) (row : question) : result (option Result) :=
  let correct_answer := lower (respuesta_correcta row) in
  let image_path := path_join image_base_path (ruta row) in
  if negb (is_valid_image image_path) then Ok None
  else
    advisor_responses ←
      _query_advisors_parallel advisor_template advisors completed
        image_path (pregunta row);
    decision ←
      _query_decision_model decision_template decision_model
        image_path (pregunta row) (respuesta_correcta row) advisor_responses;
    Ok (Some {| r_question_id := question_id row;
                correct_answer := correct_answer;
                advisors := advisor_responses;
                r_decision := decision |}).

End ProcessQuestion.

(** [collections.Counter]: the counts of the values in the order they were
    first seen. *)
Fixpoint counter_add (c : list (string * nat)) (x : string) : list (string * nat) :=
  match c with
  | [] => [(x, 1)]
  | (y, n) :: c' =>
      if String.eqb y x then (y, S n) :: c' else (y, n) :: counter_add c' x
  end.

Definition Counter (xs : list string) : list (string * nat) :=
  fold_left counter_add xs [].

(** [max(items, key=count)]: the first item with the largest count. *)
Fixpoint max_item (best : string * nat) (c : list (string * nat)) : string * nat :=
  match c with
  | [] => best
  | item :: c' => max_item (if (snd best <? snd item)%nat then item else best) c'
  end.

(** [counter.most_common(1)] *)
Definition most_common_1 (c : list (string * nat)) : list (string * nat) :=
  match c with
  | [] => []
  | item :: c' => [max_item item c']
  end.

Inductive consensus_level : Type :=
| Acuerdo_total      (* the bucket labelled 3/3 *)
| Acuerdo_parcial    (* the bucket labelled 2/3 *)
| Sin_acuerdo.       (* the bucket labelled 0/3 *)

Definition advisor_answers (result : Result) : list string :=
  map (fun advisor_data => lower (parsed_answer advisor_data))
      (dict_values (advisors result)).

(** The body of the loop of [_analyze_consensus] up to the choice of the
    bucket; indexing the empty list raises. *)
Definition consensus_of (result : Result) : Py.result consensus_level :=
  match most_common_1 (Counter (advisor_answers result)) with
  | [] => Raise (IndexError "list index out of range")
  | (_, most_common_count) :: _ =>
      Ok (if (most_common_count =? 3)%nat then Acuerdo_total
          else if (most_common_count =? 2)%nat then Acuerdo_parcial
          else Sin_acuerdo)
  end.

Record level_stats : Type := { count : nat; correct : nat }.

Record consensus_stats : Type := {
  total : level_stats;
  parcial : level_stats;
  sin_acuerdo : level_stats
}.

Definition bump (s : level_stats) (is_correct : bool) : level_stats :=
  {| count := S (count s);
     correct := if is_correct then S (correct s) else correct s |}.

Definition record_level (stats : consensus_stats) (level : consensus_level)
    (is_correct : bool) : consensus_stats :=
  match level with
  | Acuerdo_total =>
      {| total := bump (total stats) is_correct;
         parcial := parcial stats; sin_acuerdo := sin_acuerdo stats |}
  | Acuerdo_parcial =>
      {| total := total stats;
         parcial := bump (parcial stats) is_correct; sin_acuerdo := sin_acuerdo stats |}
  | Sin_acuerdo =>
      {| total := total stats;
         parcial := parcial stats; sin_acuerdo := bump (sin_acuerdo stats) is_correct |}
  end.

(** [accuracy] of a bucket, in per cent. *)
Definition accuracy (s : level_stats) : Q :=
  match count s with
  | O => 0
  | S _ => (inject_Z (Z.of_nat (correct s)) / inject_Z (Z.of_nat (count s))) * 100
  end.

(** [Logger._analyze_consensus]: the counts per bucket over the recorded
    results. *)
Fixpoint analyze_from (stats : consensus_stats) (results : list Result)
  : result consensus_stats :=
  match results with
  | [] => Ok stats
  | r :: results' =>
      level ← consensus_of r;
      analyze_from (record_level stats level (is_correct (r_decision r))) results'
  end.

Definition _analyze_consensus (results : list Result) : result consensus_stats :=
  let zero := {| count := 0; correct := 0 |} in
  analyze_from {| total := zero; parcial := zero; sin_acuerdo := zero |} results.

(** An entry of [_get_difficult_questions]. *)
Record difficulty : Type := {
  dq_question_id : Z;
  correct_models : nat;
  total_models : nat
}.

Definition difficulty_of (result : Result) : difficulty :=
  let hits :=
    length (List.filter
              (fun advisor_data =>
                 String.eqb (lower (parsed_answer advisor_data))
                            (lower (correct_answer result)))
              (dict_values (advisors result))) in
  {| dq_question_id := r_question_id result;
     correct_models := if is_correct (r_decision result) then S hits else hits;
     total_models := S (length (advisors result)) |}.

(** [list.sort(key=correct_models)]: a stable sort, as an insertion from
    the right. *)
Fixpoint insert_by_correct (q : difficulty) (sorted : list difficulty) : list difficulty :=
  match sorted with
  | [] => [q]
  | q' :: sorted' =>
      if (correct_models q <=? correct_models q')%nat then q :: sorted
      else q' :: insert_by_correct q sorted'
  end.

Definition sort_by_correct (qs : list difficulty) : list difficulty :=
  fold_right insert_by_correct [] qs.

(** [Logger._get_difficult_questions] *)
Definition _get_difficult_questions (results : list Result) (limit : nat) : list difficulty :=
  firstn limit (sort_by_correct (map difficulty_of results)).

(** ** src/logger.py: the running statistics *)

(** An entry of [stats[model_stats]]; a name not yet seen has the zero
    entry of the [defaultdict]. *)
Record model_stat : Type := {
  stat_correct : nat;
  stat_total : nat;
  stat_time : Q
}.

Definition no_stat : model_stat :=
  {| stat_correct := 0; stat_total := 0; stat_time := 0 |}.

Record run_stats : Type := {
  total_questions : nat;
  correct_answers : nat;
  model_stats : dict model_stat
}.

(** The state of a [Logger]: the results recorded and the statistics. *)
Record logger : Type := {
  results : list Result;
  stats : run_stats
}.

Definition new_logger : logger :=
  {| results := [];
     stats := {| total_questions := 0; correct_answers := 0; model_stats := [] |} |}.

(** The three updates of one entry: its total, its correct count when
    [hit], its time. *)
Definition update_stat (ms : dict model_stat) (name : string) (hit : bool) (time : Q)
  : dict model_stat :=
  let s := default no_stat (dict_get ms name) in
  dict_set ms name
    {| stat_correct := if hit then S (stat_correct s) else stat_correct s;
       stat_total := S (stat_total s);
       stat_time := (stat_time s + time)%Q |}.

Definition advisor_hit (result : Result) (advisor_data : advisor_reply) : bool :=
  String.eqb (lower (parsed_answer advisor_data)) (lower (correct_answer result)).

(** [Logger.log_result], without what it prints and writes. *)
Definition log_result (lg : logger) (result : Result) : logger :=
  let st := stats lg in
  let hit := is_correct (r_decision result) in
  let ms :=
    fold_left
      (fun ms item => update_stat ms (fst item) (advisor_hit result (snd item))
                                  (processing_time (snd item)))
      (advisors result) (model_stats st) in
  let ms := update_stat ms "decision" hit (d_processing_time (r_decision result)) in
  {| results := (results lg ++ [result])%list;
     stats := {| total_questions := S (total_questions st);
                 correct_answers :=
                   if hit then S (correct_answers st) else correct_answers st;
                 model_stats := ms |} |}.

(** ** src/orchestrator.py: the loop of a run *)

Section Run.

(** The question processor, as [run] calls it on a row. *)
Variable process : question -> result (option Result).

(** The loop of [run] (lines 331-338): a question with no result is not
    recorded; an exception ends the run. *)
Fixpoint run_loop (lg : logger) (rows : list question) : result logger :=
  match rows with
  | [] => Ok lg
  | row :: rows' =>
      outcome ← process row;
      run_loop match outcome with
               | Some r => log_result lg r
               | None => lg
               end rows'
  end.

(** [ModelEnsemble.run] up to the call of [save_results]: the logger whose
    results are saved. *)
Definition run (df : list question) (sample_size resume_from : option Z)
  : result logger :=
  run_loop new_logger (select_questions df sample_size resume_from).

End Run.

(** ** src/image_utils.py *)

Section ImageUtils.

(** The file system: [os.path.exists] and [os.path.getsize], in bytes. *)
Variable exists_ : string -> bool.
Variable getsize : string -> Z.

(** [check_image_size]: the verdict and the size in megabytes.  The
    division by a power of two and the comparison are those of the
    rationals. *)
Definition check_image_size (image_path : string) (max_size_mb : Q) : bool * Q :=
  if negb (exists_ image_path) then (false, 0%Q)
  else
    let file_size_bytes := getsize image_path in
    let file_size_mb := (inject_Z file_size_bytes / inject_Z (1024 * 1024))%Q in
    (Qle_bool file_size_mb max_size_mb, file_size_mb).

(** [is_valid_image], as its verdict; the reason it gives is a text for the
    operator. *)
Definition is_valid_image (image_path : string) (max_size_mb : Q) : bool :=
  if negb (exists_ image_path) then false
  else fst (check_image_size image_path max_size_mb).

End ImageUtils.

(** The default limit of 4.5 megabytes. *)
Definition default_max_size_mb : Q := 45 # 10.

(** ** src/models.py: the decision model *)

Module DecisionModel.
Section DecisionModel.

(** [_encode_image]; whether the provider is openai, and its call; the
    advisor model built for any other provider, or what building it
    raises; the time the call took. *)
Variable encode_image : string -> result string.
Variable is_openai : bool.
Variable openai_call : string -> string -> result (option string).
Variable make_advisor : result backend.
Variable elapsed : Q.

(** What the [try] block returns or raises. *)
Definition attempt (image_b64 image_path prompt : string) : result response_data :=
  if is_openai then
    raw_response ← openai_call image_b64 prompt;
    Ok {| rd_raw_response := raw_response;
          rd_processing_time := elapsed;
          rd_error := None |}
  else
    advisor ← make_advisor;
    reply ← advisor image_path prompt;
    Ok {| rd_raw_response := rd_raw_response reply;
          rd_processing_time := rd_processing_time reply;
          rd_error := Some match rd_error reply with
                           | Some _ => true
                           | None => false
                           end |}.

(** [DecisionModel.query_model]: reading the image is outside the [try]. *)
Definition query_model : backend := fun image_path prompt =>
  image_b64 ← encode_image image_path;
  match attempt image_b64 image_path prompt with
  | Ok reply => Ok reply
  | Raise e =>
      Ok {| rd_raw_response := Some ("Error: " ++ str_of_exn e);
            rd_processing_time := elapsed;
            rd_error := Some true |}
  end.

End DecisionModel.
End DecisionModel.

(** ** src/logger.py: the analysis by category *)

(** [s.split(sep)] for a separator of one character. *)
Fixpoint split (sep : ascii) (s : string) : list string :=
  match s with
  | EmptyString => [EmptyString]
  | String c s' =>
      if Ascii.eqb c sep then EmptyString :: split sep s'
      else
        match split sep s' with
        | part :: parts => String c part :: parts
        | [] => [String c EmptyString]
        end
  end.

(** A recorded result with its two categories, as the analysis reads
    it. *)
Record categorized : Type := {
  category_1 : string;
  category_2 : string;
  cat_result : Result
}.

(** An entry of the statistics by key; a key not yet seen has the zero
    entry. *)
Record category_stat : Type := { cs_total : nat; cs_correct : nat }.

Definition add_category (stats : dict category_stat) (key : string) (hit : bool)
  : dict category_stat :=
  let s := default {| cs_total := 0; cs_correct := 0 |} (dict_get stats key) in
  dict_set stats key
    {| cs_total := S (cs_total s);
       cs_correct := if hit then S (cs_correct s) else cs_correct s |}.

(** The first loop of [_generate_category_analysis]: the statistics under
    the key made of the two categories and a slash. *)
Definition category_stats (results : list categorized) : dict category_stat :=
  fold_left
    (fun stats result =>
       add_category stats (category_1 result ++ "/" ++ category_2 result)
                    (is_correct (r_decision (cat_result result))))
    results [].

(** A row of the table that is written. *)
Record category_row : Type := {
  categoria_1 : string;
  categoria_2 : string;
  row_total : nat;
  correctas : nat;
  precision : Q
}.

Definition category_accuracy (s : category_stat) : Q :=
  match cs_total s with
  | O => 0
  | S _ => (inject_Z (Z.of_nat (cs_correct s)) / inject_Z (Z.of_nat (cs_total s))) * 100
  end.

(** The last loop: a key is taken apart at its slashes, and the parts must
    be two. *)
Fixpoint category_rows (items : dict category_stat) : result (list category_row) :=
  match items with
  | [] => Ok []
  | (category_key, s) :: items' =>
      match split "/" category_key with
      | [cat1; cat2] =>
          rows ← category_rows items';
          Ok ({| categoria_1 := cat1; categoria_2 := cat2;
                 row_total := cs_total s; correctas := cs_correct s;
                 precision := category_accuracy s |} :: rows)
      | [] | [_] =>
          Raise (ValueError "not enough values to unpack (expected 2, got 1)")
      | _ => Raise (ValueError "too many values to unpack (expected 2)")
      end
  end.

(** [Logger._generate_category_analysis] up to the table it writes; no
    table without results. *)
Definition _generate_category_analysis (results : list categorized)
  : result (option (list category_row)) :=
  match results with
  | [] => Ok None
  | _ => rows ← category_rows (category_stats results); Ok (Some rows)
  end.

(** ** src/extract_final_answer.py: the statistics by category *)

(** A processed line as the statistics read it: its two categories, each
    the text Unknown when the line has none, and its verdict. *)
Record answered : Type := {
  a_categoria_1 : string;
  a_categoria_2 : string;
  a_es_correcta : bool
}.

(** Lines 145-156 of [extract_final_answers]: the statistics under the key
    made of the two categories and an underscore. *)
Definition categoria_stats (results : list answered) : dict category_stat :=
  fold_left
    (fun stats r =>
       add_category stats (a_categoria_1 r ++ "_" ++ a_categoria_2 r) (a_es_correcta r))
    results [].

(** Lines 159-173: a key is taken apart at its underscores, and its first
    two parts label the row. *)
Definition stats_data (results : list answered) : list category_row :=
  map (fun '(key, stats) =>
         let cat_parts := split "_" key in
         {| categoria_1 := nth 0 cat_parts "Unknown";
            categoria_2 := nth 1 cat_parts "Unknown";
            row_total := cs_total stats;
            correctas := cs_correct stats;
            precision := category_accuracy stats |})
      (categoria_stats results).

(** ** src/logger.py: the table of models in the summary report *)

Record model_report : Type := {
  mr_correct : nat;
  mr_total : nat;
  mr_accuracy : Q;
  mr_avg_time : Q
}.

(** [model_accuracy] of [_generate_summary_report]: an entry for every
    model that has answered at least once. *)
Definition model_accuracy (st : run_stats) : dict model_report :=
  flat_map
    (fun '(model_name, s) =>
       if (0 <? stat_total s)%nat then
         [(model_name,
           {| mr_correct := stat_correct s;
              mr_total := stat_total s;
              mr_accuracy :=
                (inject_Z (Z.of_nat (stat_correct s)) / inject_Z (Z.of_nat (stat_total s)))
                * 100;
              mr_avg_time := stat_time s / inject_Z (Z.of_nat (stat_total s)) |})]
       else [])
    (model_stats st).

(** ** Vocabulary of the statements *)

(** How many of [l] are [x], and the largest number of entries of [l] that
    share one value. *)
Definition freq (x : string) (l : list string) : nat :=
  length (List.filter (String.eqb x) l).

Definition max_freq (l : list string) : nat :=
  list_max (map (fun x => freq x l) l).

(** The bucket as a function of the largest number of agreeing advisors. *)
Definition bucket_of (m : nat) : consensus_level :=
  if (m =? 3)%nat then Acuerdo_total
  else if (m =? 2)%nat then Acuerdo_parcial
  else Sin_acuerdo.

Definition with_answers (answers : list (string * string)) : Result :=
  {| r_question_id := 0;
     correct_answer := "a";
     advisors :=
       map (fun '(name, a) =>
              (name, {| raw_response := Some a; parsed_answer := a; reasoning := JString "";
                        processing_time := 1; error := false |})) answers;
     r_decision :=
       {| d_raw_response := Some "a"; final_answer := "a"; d_reasoning := JString "";
          d_processing_time := 1; d_error := false; is_correct := true |} |}.

(** The entry of one advisor in the reply mapping: what its task returned,
    or the failure entry of what it raised. *)
Definition reply_of (advisor_template : string) (image_path question : string)
    (advisor : backend) : advisor_reply :=
  match _query_advisor advisor_template advisor image_path question with
  | Ok reply => reply
  | Raise e => failure_entry e
  end.

(** Three advisors for the examples: one that answers, one whose provider
    call fails inside [query_model], one whose image cannot be read. *)
Definition answering : backend :=
  query_model (fun _ => Ok "b64") (fun _ _ => Ok (Some (dq "{'Respuesta': 'a'}"))) 1.
Definition timing_out : backend :=
  query_model (fun _ => Ok "b64") (fun _ _ => Raise (Exception "timeout")) 2.
Definition unreadable : backend :=
  query_model (fun _ => Raise (Exception "no such file")) (fun _ _ => Ok (Some "a")) 3.

Definition three_advisors : dict backend :=
  [("claude", answering); ("grok", timing_out); ("deepseek", unreadable)].

(** The value under the first of [keys], in their order, that the object
    holds. *)
Fixpoint first_present (keys : list string) (members : dict json) : option json :=
  match keys with
  | [] => None
  | key :: keys' =>
      match dict_get members key with
      | Some v => Some v
      | None => first_present keys' members
      end
  end.

(** A template as its parts: literal text and named slots. *)
Inductive segment : Type :=
| Lit (text : string)
| Slot (name : string).

Definition slot (name : string) : string := "{" ++ name ++ "}".

Definition render_segment (seg : segment) : string :=
  match seg with
  | Lit text => text
  | Slot name => slot name
  end.

Definition render (segs : list segment) : string :=
  fold_right (fun seg rest => render_segment seg ++ rest) "" segs.

(** The template with the slot [name] filled by [text]. *)
Definition fill (name text : string) (segs : list segment) : list segment :=
  map (fun seg =>
         match seg with
         | Slot n => if String.eqb n name then Lit text else seg
         | Lit _ => seg
         end) segs.

Definition is_lower (c : ascii) : bool :=
  let n := nat_of_ascii c in (97 <=? n)%nat && (n <=? 122)%nat.

(** A text opens no slot: an opening brace in it is followed by a
    character, and not by a small letter. *)
Fixpoint quiet (s : string) : bool :=
  match s with
  | EmptyString => true
  | String c s' =>
      (if Ascii.eqb c "{" then
         match s' with
         | EmptyString => false
         | String d _ => negb (is_lower d)
         end
       else true) && quiet s'
  end.

(** A slot name starts with a small letter and holds no brace. *)
Definition slot_name (name : string) : bool :=
  match name with
  | EmptyString => false
  | String l _ => is_lower l && negb (char_in "{" name) && negb (char_in "}" name)
  end.

Definition segment_ok (seg : segment) : bool :=
  match seg with
  | Lit text => quiet text
  | Slot name => slot_name name
  end.

(** A decision template for the examples. *)
Definition example_template : list segment :=
  [Lit "Pregunta: "; Slot "question";
   Lit " | Claude: "; Slot "claude_response";
   Lit " | Grok: "; Slot "grok_response";
   Lit " | DeepSeek: "; Slot "deepseek_response"; Lit " |"].

Definition replied (raw : string) : advisor_reply :=
  {| raw_response := Some raw; parsed_answer := "a"; reasoning := JString "";
     processing_time := 1; error := false |}.

(** Questions with the given identities, for the examples. *)
Definition numbered (ids : list Z) : list question :=
  map (fun i => {| question_id := i; pregunta := ""; respuesta_correcta := "a";
                   ruta := "" |}) ids.

(** The scenario of one question: three advisors that answer a, b and a,
    a decision backend that answers a, and a as the correct answer. *)
Definition says (answer : string) : backend :=
  query_model (fun _ => Ok "b64")
    (fun _ _ => Ok (Some (dq "{'Respuesta': '" ++ answer ++ dq "', 'Justificacion': 'x'}"))) 1.

Definition scenario_advisors : dict backend :=
  [("claude", says "a"); ("grok", says "b"); ("deepseek", says "a")].

Definition scenario_question : question :=
  {| question_id := 7; pregunta := "q"; respuesta_correcta := "A"; ruta := "fig.jpg" |}.

Definition scenario : result (option Result) :=
  process_question "{question}" (render example_template) "img"
    (fun base name => base ++ "/" ++ name) (fun _ => true)
    scenario_advisors scenario_advisors (says "a") scenario_question.

(** The three sources of an answer: the object the cleaned reply decodes
    to, with a non-empty string under the first answer key it has; the
    first pattern that matches the lower-cased reply; the first of the four
    letters in it. *)
Definition structured_answer (response : string) : option (string * json) :=
  match loads (clean_response response) with
  | Some (JObject members) =>
      match first_present answer_keys members with
      | Some (JString (String c a)) =>
          Some (String c a, default (JString "") (first_present justification_keys members))
      | _ => None
      end
  | _ => None
  end.

Definition pattern_answer (response : string) : option string :=
  first_match patterns (lower response).

Definition scanned_answer (response : string) : option string :=
  match first_abcd (lower response) with
  | Some c => Some (String c "")
  | None => None
  end.

(** How a pattern changes the text of the group: [caps r cap cap'] holds
    when a match of [r] that starts with [cap] can end with [cap'].  A
    group over one character class holds one character of the class. *)
Fixpoint caps (r : regex) (cap cap' : string) : Prop :=
  match r with
  | Seq r1 r2 => exists mid, caps r1 cap mid /\ caps r2 mid cap'
  | Alt r1 r2 => caps r1 cap cap' \/ caps r2 cap cap'
  | Opt r' => caps r' cap cap' \/ cap' = cap
  | Group (Class p) => exists c, p c = true /\ cap' = String c ""
  | Group _ => True
  | _ => cap' = cap
  end.

(** The answers of the canonical alphabet, and the empty answer. *)
Definition canonical_or_empty (answer : string) : Prop :=
  answer = "" \/ answer = "a" \/ answer = "b" \/ answer = "c" \/ answer = "d".

(** A group that holds one letter of the range a to d. *)
Definition one_letter (g : string) : Prop :=
  exists c, is_a_to_d c = true /\ g = String c "".

(** The recorded results in which a model took part, under its name, and
    those in which its answer was the correct one; the results whose
    decision was correct. *)
Definition asked (name : string) (rs : list Result) : nat :=
  list_sum (map (fun r => freq name (dict_keys (advisors r))) rs).

Definition answered_right (name : string) (rs : list Result) : nat :=
  list_sum
    (map (fun r =>
            length (List.filter
                      (fun item => String.eqb name (fst item) && advisor_hit r (snd item))
                      (advisors r))) rs).

Definition decided_right (rs : list Result) : nat :=
  length (List.filter (fun r => is_correct (r_decision r)) rs).

(** The entry of a model in the statistics, the zero entry when it has
    none. *)
Definition stat_of (lg : logger) (name : string) : model_stat :=
  default no_stat (dict_get (model_stats (stats lg)) name).

(** What [process] returned for the rows it gave a result for, in order. *)
Fixpoint processed (process : question -> result (option Result)) (rows : list question)
  : list Result :=
  match rows with
  | [] => []
  | row :: rows' =>
      match process row with
      | Ok (Some r) => r :: processed process rows'
      | _ => processed process rows'
      end
  end.

(** A result with the given identity, advisor answers, correct answer and
    verdict on the decision. *)
Definition outcome (id : Z) (answers : list (string * string)) (right : string)
    (decision_right : bool) : Result :=
  {| r_question_id := id;
     correct_answer := right;
     advisors :=
       map (fun '(name, a) =>
              (name, {| raw_response := Some a; parsed_answer := a; reasoning := JString "";
                        processing_time := 1; error := false |})) answers;
     r_decision :=
       {| d_raw_response := Some ""; final_answer := ""; d_reasoning := JString "";
          d_processing_time := 1; d_error := false; is_correct := decision_right |} |}.

(** The entries in which [k] models were correct. *)
Definition with_correct (k : nat) (qs : list difficulty) : list difficulty :=
  List.filter (fun q => (correct_models q =? k)%nat) qs.

Definition easier_or_equal (q q' : difficulty) : Prop :=
  (correct_models q <= correct_models q')%nat.

(** The results whose largest group of agreeing advisors falls in a
    bucket. *)
Definition level_eqb (l1 l2 : consensus_level) : bool :=
  match l1, l2 with
  | Acuerdo_total, Acuerdo_total | Acuerdo_parcial, Acuerdo_parcial
  | Sin_acuerdo, Sin_acuerdo => true
  | _, _ => false
  end.

Definition in_level (level : consensus_level) (rs : list Result) : list Result :=
  List.filter (fun r => level_eqb (bucket_of (max_freq (advisor_answers r))) level) rs.

Definition bucket (st : consensus_stats) (level : consensus_level) : level_stats :=
  match level with
  | Acuerdo_total => total st
  | Acuerdo_parcial => parcial st
  | Sin_acuerdo => sin_acuerdo st
  end.

(** The answer of [extract_answer_from_text] with the patterns [ps] in
    place of its own. *)
Definition answer_by (ps : list regex) (text : string) : string :=
  match first_match ps (lower text) with
  | Some g => g
  | None =>
      match first_abcd (lower text) with
      | Some c => String c ""
      | None => ""
      end
  end.

(** A pattern for a letter at the very start of the text, quoted or not,
    followed by [tail]. *)
Definition leading_letter (tail : regex) : regex :=
  Seq Bol (Seq (Opt quote) (Seq letter tail)).

(** A pattern that leaves the group as it is. *)
Definition no_group (r : regex) : Prop :=
  forall cap cap', caps r cap cap' -> cap' = cap.

(** The template with the parts [inner] in place of the slot [name]. *)
Definition splice (name : string) (inner segs : list segment) : list segment :=
  flat_map (fun seg =>
              match seg with
              | Slot n => if String.eqb n name then inner else [seg]
              | Lit _ => [seg]
              end) segs.

(** How often a character occurs in a text. *)
Fixpoint count_char (c : ascii) (s : string) : nat :=
  match s with
  | EmptyString => 0
  | String a s' => (if Ascii.eqb a c then 1 else 0) + count_char c s'
  end.

(** The key of a result in the analysis by category, and the results of a
    pair of categories. *)
Definition category_key (x : categorized) : string :=
  category_1 x ++ "/" ++ category_2 x.

Definition no_slash (x : categorized) : bool :=
  negb (char_in "/" (category_1 x)) && negb (char_in "/" (category_2 x)).

Definition in_category (c1 c2 : string) (xs : list categorized) : list categorized :=
  List.filter (fun x => String.eqb (category_1 x) c1 && String.eqb (category_2 x) c2) xs.

Definition right_in (xs : list categorized) : nat :=
  length (List.filter (fun x => is_correct (r_decision (cat_result x))) xs).

Definition in_categories (c1 c2 : string) (decision_right : bool) : categorized :=
  {| category_1 := c1; category_2 := c2;
     cat_result := outcome 0 [] "a" decision_right |}.

(** The key of a processed line in the statistics by category. *)
Definition categoria_key (r : answered) : string :=
  a_categoria_1 r ++ "_" ++ a_categoria_2 r.

(** A text of white space only. *)
Fixpoint blank (s : string) : bool :=
  match s with
  | EmptyString => true
  | String c s' => is_space c && blank s'
  end.

(** An object between code-fence markers, with the tag json or without,
    and white space on either side of the object. *)
Definition fenced (tagged : bool) (ws1 body ws2 : string) : string :=
  (if tagged then json_fence else fence) ++ ws1 ++ body ++ ws2 ++ fence.

(** An entry of the statistics of a model that has answered: at least one
    answer, and no more correct answers than answers. *)
Definition sound_stat (s : model_stat) : Prop :=
  (1 <= stat_total s)%nat /\ (stat_correct s <= stat_total s)%nat.

(** An advisor whose provider gives a message without content. *)
Definition silent : backend :=
  query_model (fun _ => Ok "b64") (fun _ _ => Ok None) 1.

(** * Properties *)

(** ** The decoder and the matcher on concrete texts *)

Example loads_object :
  loads (dq "{'Respuesta': 'a', 'n': [1, -2.5e3, null, true], 'Respuesta': 'b'}")
  = Some (JObject [("Respuesta", JString "b");
                   ("n", JArray [JInt "1"; JFloat "-2.5e3"; JNull; JBool true])]).
Proof. vm_compute. reflexivity. Qed.

Example loads_rejects :
  loads (dq "b {'answer': 'a'}") = None /\ loads (dq "{'a': 1,}") = None /\
  loads "01" = None /\ loads "" = None /\ loads (dq "{'a': 1} x") = None.
Proof. vm_compute. repeat split. Qed.

Example loads_scalars :
  loads " 5 " = Some (JInt "5") /\ loads "null" = Some JNull /\
  loads (dq "'abc'") = Some (JString "abc") /\ loads "1e5" = Some (JFloat "1e5").
Proof. vm_compute. repeat split. Qed.

Example search_labelled :
  search (labelled ["respuesta"; "answer"]) (dq "my answer:  'b' it is") = Some "b" /\
  search (labelled ["respuesta"; "answer"]) (dq "{'answer': 'b'}") = None /\
  search (quoted ["respuesta"; "answer"]) (dq "{'answer': 'b'}") = Some "b".
Proof. vm_compute. repeat split. Qed.

Example search_justification :
  search justification_pattern (dq "reasoning: 'es la vena'
fin") = Some "es la vena".
Proof. vm_compute. reflexivity. Qed.

(** ** The decoder never runs out of fuel *)

Lemma skip_ws_length (s : string) : (String.length (skip_ws s) <= String.length s)%nat.
Proof.
  induction s as [|c s IH]; simpl; [lia|].
  destruct (is_ws c); simpl; lia.
Qed.

Lemma drop_prefix_length (p : string) :
  forall s r, drop_prefix p s = Some r ->
              String.length s = (String.length p + String.length r)%nat.
Proof.
  induction p as [|a p IH]; intros s r H.
  - destruct s; injection H as <-; reflexivity.
  - destruct s as [|b s]; [discriminate H|]. simpl in H.
    destruct (Ascii.eqb a b); [|discriminate H].
    simpl. rewrite (IH s r H). reflexivity.
Qed.

Lemma prepend_some (p body rest : string) (o : option (string * string)) :
  prepend p o = Some (body, rest) -> exists body', o = Some (body', rest).
Proof.
  destruct o as [[b r]|]; simpl; [|discriminate].
  intros [= _ <-]. exists b. reflexivity.
Qed.

(** A string body ends with its closing quote: the rest is shorter. *)
Lemma scanstring_length (n : nat) :
  forall s body r, (String.length s <= n)%nat -> scanstring s = Some (body, r) ->
                   (String.length r < String.length s)%nat.
Proof.
  induction n as [|n IH]; intros s body r Hn H.
  - destruct s; [discriminate H | simpl in Hn; lia].
  - destruct s as [|c s]; [discriminate H|]. simpl in Hn.
    cbn [scanstring] in H.
    destruct (Ascii.eqb c dquote); [injection H as _ <-; simpl; lia|].
    destruct (nat_of_ascii c <? 32)%nat; [discriminate H|].
    destruct (Ascii.eqb c "\").
    + destruct s as [|e s]; [discriminate H|].
      destruct (Ascii.eqb e "u").
      * destruct s as [|h1 [|h2 [|h3 [|h4 r1]]]]; try discriminate H.
        destruct (hex4 h1 h2 h3 h4) as [hi|]; [|discriminate H].
        assert (Hlone : forall b, prepend (utf8 hi) (scanstring r1) = Some (b, r) ->
                          (String.length r < String.length r1)%nat).
        { intros b Hb. apply prepend_some in Hb as [b' Hb].
          apply (IH r1 b' r); [simpl in Hn; lia | exact Hb]. }
        destruct r1 as [|b1 [|b2 [|l1 [|l2 [|l3 [|l4 r2]]]]]];
          try (specialize (Hlone _ H); simpl in Hlone |- *; lia).
        destruct (low_escape hi b1 b2 l1 l2 l3 l4).
        -- apply prepend_some in H as [b' Hb].
           apply (IH r2 b' r) in Hb; [simpl; lia | simpl in Hn; lia].
        -- specialize (Hlone _ H). simpl in Hlone |- *. lia.
      * destruct (simple_escape e); [|discriminate H].
        apply prepend_some in H as [b' Hb].
        apply (IH s b' r) in Hb; [simpl; lia | simpl in Hn; lia].
    + apply prepend_some in H as [b' Hb].
      apply (IH s b' r) in Hb; [simpl; lia | lia].
Qed.

Lemma span_digits_length (s : string) :
  (String.length (snd (span_digits s)) <= String.length s)%nat.
Proof.
  induction s as [|c s IH]; simpl; [lia|].
  destruct (is_digit c); [|simpl; lia].
  destruct (span_digits s) as [d r]. simpl in *. lia.
Qed.

Lemma int_part_length (s i r : string) :
  int_part s = Some (i, r) -> (String.length r < String.length s)%nat.
Proof.
  destruct s as [|c s]; [discriminate|]. unfold int_part.
  destruct (Ascii.eqb c "0"); [intros [= _ <-]; simpl; lia|].
  destruct (is_digit c); [|discriminate].
  pose proof (span_digits_length s) as Hs. destruct (span_digits s) as [d r'].
  intros [= _ <-]. simpl in *. lia.
Qed.

Lemma frac_part_length (s : string) :
  (String.length (snd (frac_part s)) <= String.length s)%nat.
Proof.
  destruct s as [|c s]; [simpl; lia|]. unfold frac_part.
  destruct (Ascii.eqb c "."); [|simpl; lia].
  pose proof (span_digits_length s) as Hs.
  destruct (span_digits s) as [[|d0 d] r]; simpl in *; lia.
Qed.

Lemma exp_part_length (s : string) :
  (String.length (snd (exp_part s)) <= String.length s)%nat.
Proof.
  destruct s as [|e s]; [simpl; lia|]. unfold exp_part.
  destruct (Ascii.eqb e "e" || Ascii.eqb e "E"); [|simpl; lia].
  destruct s as [|g t].
  - simpl. lia.
  - destruct (Ascii.eqb g "+" || Ascii.eqb g "-").
    + pose proof (span_digits_length t) as Hs.
      destruct (span_digits t) as [[|d0 d] r]; simpl in *; lia.
    + pose proof (span_digits_length (String g t)) as Hs.
      destruct (span_digits (String g t)) as [[|d0 d] r]; simpl in *; lia.
Qed.

Lemma match_number_length (s : string) (v : json) (r : string) :
  match_number s = Some (v, r) -> (String.length r < String.length s)%nat.
Proof.
  unfold match_number.
  assert (Hsign : forall sign s1,
            match s with
            | String c t => if Ascii.eqb c "-" then ("-", t) else (EmptyString, s)
            | EmptyString => (EmptyString, s)
            end = (sign, s1) -> (String.length s1 <= String.length s)%nat).
  { intros sign s1. destruct s as [|c t]; [intros [= _ <-]; lia|].
    destruct (Ascii.eqb c "-"); intros [= _ <-]; simpl; lia. }
  destruct (match s with
            | String c t => if Ascii.eqb c "-" then ("-", t) else (EmptyString, s)
            | EmptyString => (EmptyString, s)
            end) as [sign s1] eqn:Hs.
  specialize (Hsign sign s1 eq_refl).
  destruct (int_part s1) as [[i s2]|] eqn:Hi; [|discriminate].
  apply int_part_length in Hi.
  pose proof (frac_part_length s2) as Hf. destruct (frac_part s2) as [f s3].
  pose proof (exp_part_length s3) as He. destruct (exp_part s3) as [e s4].
  simpl in Hf, He.
  destruct f, e; intros [= _ <-]; lia.
Qed.

Lemma keyword_length (s : string) (v : json) (r : string) :
  keyword s = Some (v, r) -> (String.length r < String.length s)%nat.
Proof.
  unfold keyword.
  repeat match goal with
         | |- context [drop_prefix ?p s] =>
             let H := fresh "H" in
             destruct (drop_prefix p s) eqn:H;
             [apply drop_prefix_length in H; simpl in H; intros [= _ <-]; lia|]
         end.
  discriminate.
Qed.

(** Whatever the fuel, a value that is read takes at least one character. *)
Lemma scan_consumes (fuel : nat) :
  (forall s v r, scan_once fuel s = Scanned v r ->
                 (String.length r < String.length s)%nat) /\
  (forall acc s v r, scan_members fuel acc s = Scanned v r ->
                     (String.length r < String.length s)%nat) /\
  (forall acc s v r, scan_items fuel acc s = Scanned v r ->
                     (String.length r < String.length s)%nat).
Proof.
  induction fuel as [|fuel (IHo & IHm & IHi)]; [repeat split; discriminate|].
  split; [|split].
  - intros s v r H. destruct s as [|c s]; [discriminate H|]. cbn [scan_once] in H.
    pose proof (skip_ws_length s) as Hws.
    destruct (Ascii.eqb c dquote).
    { destruct (scanstring s) as [[body r']|] eqn:Hs; [|discriminate H].
      injection H as _ <-. apply (scanstring_length _ _ _ _ (le_n _)) in Hs. simpl. lia. }
    destruct (Ascii.eqb c "{").
    { destruct (drop_prefix "}" (skip_ws s)) as [r'|] eqn:Hd.
      - injection H as _ <-. apply drop_prefix_length in Hd. simpl in *. lia.
      - apply IHm in H. simpl. lia. }
    destruct (Ascii.eqb c "[").
    { destruct (drop_prefix "]" (skip_ws s)) as [r'|] eqn:Hd.
      - injection H as _ <-. apply drop_prefix_length in Hd. simpl in *. lia.
      - apply IHi in H. simpl. lia. }
    destruct (keyword (String c s)) as [[v' r']|] eqn:Hk.
    { injection H as _ <-. apply keyword_length in Hk. exact Hk. }
    destruct (match_number (String c s)) as [[v' r']|] eqn:Hn; [|discriminate H].
    injection H as _ <-. apply match_number_length in Hn. exact Hn.
  - intros acc s v r H. destruct s as [|c s]; [discriminate H|]. cbn [scan_members] in H.
    destruct (Ascii.eqb c dquote); [|discriminate H].
    destruct (scanstring s) as [[key r1]|] eqn:Hs; [|discriminate H].
    apply (scanstring_length _ _ _ _ (le_n _)) in Hs.
    pose proof (skip_ws_length r1) as Hw1.
    destruct (drop_prefix ":" (skip_ws r1)) as [r2|] eqn:Hc; [|discriminate H].
    apply drop_prefix_length in Hc. pose proof (skip_ws_length r2) as Hw2.
    destruct (scan_once fuel (skip_ws r2)) as [v' r3| |] eqn:Ho; try discriminate H.
    apply IHo in Ho. pose proof (skip_ws_length r3) as Hw3.
    destruct (drop_prefix "}" (skip_ws r3)) as [r4|] eqn:Hd.
    { injection H as _ <-. apply drop_prefix_length in Hd. simpl in *. lia. }
    destruct (drop_prefix "," (skip_ws r3)) as [r4|] eqn:Hd'; [|discriminate H].
    apply drop_prefix_length in Hd'. pose proof (skip_ws_length r4) as Hw4.
    apply IHm in H. simpl in *. lia.
  - intros acc s v r H. cbn [scan_items] in H.
    destruct (scan_once fuel s) as [v' r1| |] eqn:Ho; try discriminate H.
    apply IHo in Ho. pose proof (skip_ws_length r1) as Hw1.
    destruct (drop_prefix "]" (skip_ws r1)) as [r2|] eqn:Hd.
    { injection H as _ <-. apply drop_prefix_length in Hd. simpl in *. lia. }
    destruct (drop_prefix "," (skip_ws r1)) as [r2|] eqn:Hd'; [|discriminate H].
    apply drop_prefix_length in Hd'. pose proof (skip_ws_length r2) as Hw2.
    apply IHi in H. simpl in *. lia.
Qed.

(** Two units of fuel for every character, and one more for an array, are
    enough. *)
Lemma scan_fuel (fuel : nat) :
  (forall s, (2 * String.length s < fuel)%nat -> scan_once fuel s <> Exhausted) /\
  (forall acc s, (2 * String.length s < fuel)%nat -> scan_members fuel acc s <> Exhausted) /\
  (forall acc s, (2 * String.length s + 1 < fuel)%nat -> scan_items fuel acc s <> Exhausted).
Proof.
  induction fuel as [|fuel (IHo & IHm & IHi)]; [repeat split; intros; lia|].
  destruct (scan_consumes fuel) as (Co & _ & _).
  split; [|split].
  - intros s Hf. destruct s as [|c s]; [discriminate|]. cbn [scan_once].
    pose proof (skip_ws_length s) as Hws. simpl in Hf.
    destruct (Ascii.eqb c dquote); [destruct (scanstring s) as [[? ?]|]; discriminate|].
    destruct (Ascii.eqb c "{").
    { destruct (drop_prefix "}" (skip_ws s)); [discriminate|]. apply IHm. lia. }
    destruct (Ascii.eqb c "[").
    { destruct (drop_prefix "]" (skip_ws s)); [discriminate|]. apply IHi. lia. }
    destruct (keyword (String c s)) as [[? ?]|]; [discriminate|].
    destruct (match_number (String c s)) as [[? ?]|]; discriminate.
  - intros acc s Hf. destruct s as [|c s]; [discriminate|]. cbn [scan_members].
    simpl in Hf.
    destruct (Ascii.eqb c dquote); [|discriminate].
    destruct (scanstring s) as [[key r1]|] eqn:Hs; [|discriminate].
    apply (scanstring_length _ _ _ _ (le_n _)) in Hs.
    pose proof (skip_ws_length r1) as Hw1.
    destruct (drop_prefix ":" (skip_ws r1)) as [r2|] eqn:Hc; [|discriminate].
    apply drop_prefix_length in Hc. pose proof (skip_ws_length r2) as Hw2. simpl in Hc.
    destruct (scan_once fuel (skip_ws r2)) as [v' r3| |] eqn:Ho.
    + apply Co in Ho. pose proof (skip_ws_length r3) as Hw3.
      destruct (drop_prefix "}" (skip_ws r3)) as [r4|]; [discriminate|].
      destruct (drop_prefix "," (skip_ws r3)) as [r4|] eqn:Hd'; [|discriminate].
      apply drop_prefix_length in Hd'. pose proof (skip_ws_length r4) as Hw4.
      apply IHm. simpl in *. lia.
    + discriminate.
    + exfalso. apply (IHo (skip_ws r2)); [lia | exact Ho].
  - intros acc s Hf. cbn [scan_items].
    destruct (scan_once fuel s) as [v' r1| |] eqn:Ho.
    + apply Co in Ho. pose proof (skip_ws_length r1) as Hw1.
      destruct (drop_prefix "]" (skip_ws r1)) as [r2|]; [discriminate|].
      destruct (drop_prefix "," (skip_ws r1)) as [r2|] eqn:Hd'; [|discriminate].
      apply drop_prefix_length in Hd'. pose proof (skip_ws_length r2) as Hw2.
      apply IHi. simpl in *. lia.
    + discriminate.
    + exfalso. apply (IHo s); [lia | exact Ho].
Qed.

(** [None] from [loads] is a decoding error, never a lack of fuel. *)
Lemma loads_scan_total (s : string) : loads_scan s <> Exhausted.
Proof.
  unfold loads_scan.
  destruct (scan_once (S (2 * String.length s)) (skip_ws s)) as [v r| |] eqn:H.
  - destruct (skip_ws r); discriminate.
  - discriminate.
  - exfalso. destruct (scan_fuel (S (2 * String.length s))) as (Ho & _).
    apply (Ho (skip_ws s)); [|exact H]. pose proof (skip_ws_length s). lia.
Qed.

(** ** The answer extractor on replies it mishandles *)

(** C1.  An object that holds its answer under the accepted key opcion is
    not read by key: the six spellings the extractor looks up do not
    include it, no pattern matches, and the scan for the first letter
    returns the c of the key itself, where the reply says a.  The same
    happens under the key alternativa, and under an upper-case spelling of
    respuesta when a space stands before the colon.  The sibling
    [parse_json_response] of src/extract_final_answer.py reads the same
    replies by key, whatever [json.dumps] is, and returns their answers. *)
Theorem parse_response_opcion_key :
  _parse_response (dq "{'opcion': 'a'}") = Ok ("c", JString "") /\
  _parse_response (dq "{'alternativa': 'b'}") = Ok ("a", JString "") /\
  _parse_response (dq "{'RESPUESTA' : 'b'}") = Ok ("a", JString "") /\
  parse_json_response (fun _ => "") (dq "{'opcion': 'a'}") = Ok "a" /\
  parse_json_response (fun _ => "") (dq "{'alternativa': 'b'}") = Ok "b" /\
  parse_json_response (fun _ => "") (dq "{'RESPUESTA' : 'b'}") = Ok "b".
Proof. vm_compute. repeat split. Qed.

(** C7.  A decoded answer longer than one character whose first character
    is none of the four letters is returned as it is, trimmed and
    lower-cased: no pattern is run on it and it is not emptied.  The sibling
    [parse_json_response] searches the value and finds the letter. *)
Theorem parse_response_long_answer_kept :
  _parse_response (dq "{'Respuesta': '(b)'}") = Ok ("(b)", JString "") /\
  _parse_response (dq "{'Respuesta': 'xyz'}") = Ok ("xyz", JString "") /\
  parse_json_response (fun _ => "") (dq "{'Respuesta': '(b)'}") = Ok "b" /\
  parse_json_response (fun _ => "") (dq "{'Respuesta': 'xyz'}") = Ok "".
Proof. vm_compute. repeat split. Qed.

(** C9.  A reply that decodes to a JSON scalar makes the extractor raise:
    the membership test of the first key is applied to a number, to null or
    to a boolean, and only a decoding error is caught. *)
Theorem parse_response_raises_on_scalar :
  _parse_response "5" = Raise (TypeError "argument of type 'int' is not iterable") /\
  _parse_response "null" = Raise (TypeError "argument of type 'NoneType' is not iterable") /\
  _parse_response "true" = Raise (TypeError "argument of type 'bool' is not iterable") /\
  _parse_response "0.5" = Raise (TypeError "argument of type 'float' is not iterable").
Proof. vm_compute. repeat split. Qed.

(** The comparison of [process_question] has no guard against an empty
    side, which the comparison of [extract_final_answers] has: the two
    differ on an empty correct answer, which no question has.  The last
    line is the whole arbiter on a decision backend whose reply holds no
    letter. *)
Example decision_correct_on_empty_sides :
  decision_is_correct "" "" = true /\
  es_correcta "" "" = false /\
  is_correct <$> _query_decision_model "{question}"
      (fun _ _ => Ok {| rd_raw_response := Some "???"; rd_processing_time := 1;
                        rd_error := None |})
      "img.jpg" "q" "" [] = Ok true.
Proof. vm_compute. repeat split. Qed.

(** ** Selection of the questions of a run *)

Lemma iloc_to_all (n : Z) (df : list question) :
  (Z.of_nat (length df) <= n)%Z -> firstn (Z.to_nat n) df = df.
Proof.
  intros Hn. apply firstn_all2. lia.
Qed.

(** C8, as the code has it.  A sample size that is given and positive cuts
    the sequence to its first [sample_size] questions, and only then the
    questions whose identity is at least [resume_from] are kept, in their
    order; a sample size of zero is taken as not given and cuts nothing. *)
Theorem select_questions_policy (df : list question) (sample_size resume_from : option Z) :
  (forall n, sample_size = Some n -> (0 <= n)%Z) ->
  select_questions df sample_size resume_from =
    let sampled :=
      match sample_size with
      | Some n => if (n =? 0)%Z then df else firstn (Z.to_nat n) df
      | None => df
      end in
    match resume_from with
    | Some r => List.filter (fun q => (r <=? question_id q)%Z) sampled
    | None => sampled
    end.
Proof.
  intros Hpos. unfold select_questions.
  destruct sample_size as [n|]; [|reflexivity].
  specialize (Hpos n eq_refl).
  destruct (Z.eqb_spec n 0) as [->|Hn]; simpl; [reflexivity|].
  destruct (Z.ltb_spec n (Z.of_nat (length df))) as [Hlt|Hge].
  - unfold iloc_to. destruct (Z.leb_spec 0 n); [reflexivity | lia].
  - rewrite (iloc_to_all n df Hge). reflexivity.
Qed.

(** Ten questions and a sample size of three: the first three, in order;
    identities one to five and a resume point of three: three, four, five. *)
Lemma select_questions_policy_witness :
  select_questions (numbered [10; 11; 12; 13; 14; 15; 16; 17; 18; 19]%Z) (Some 3%Z) None
  = numbered [10; 11; 12]%Z
  /\ select_questions (numbered [1; 2; 3; 4; 5]%Z) None (Some 3%Z)
     = numbered [3; 4; 5]%Z.
Proof.
  split.
  - rewrite (select_questions_policy _ (Some 3%Z) None).
    + reflexivity.
    + intros n Hn. injection Hn as <-. lia.
  - rewrite (select_questions_policy _ None (Some 3%Z)).
    + reflexivity.
    + intros n Hn. discriminate Hn.
Defined.

(** C8 as stated fails for a sample size of zero: all ten questions are
    processed, not the first zero of them. *)
Lemma select_questions_zero_sample :
  select_questions (numbered [10; 11; 12; 13; 14; 15; 16; 17; 18; 19]%Z) (Some 0%Z) None
  = numbered [10; 11; 12; 13; 14; 15; 16; 17; 18; 19]%Z.
Proof. reflexivity. Qed.

(** ** Consensus among the advisors *)

Lemma get_counter_add (c : list (string * nat)) (x y : string) :
  dict_get (counter_add c x) y =
    if String.eqb x y then Some (S (default 0 (dict_get c x))) else dict_get c y.
Proof.
  induction c as [|[k n] c IH]; simpl.
  - reflexivity.
  - destruct (String.eqb_spec k x) as [->|Hkx]; simpl.
    + destruct (String.eqb_spec x y) as [->|Hxy]; [reflexivity|].
      reflexivity.
    + destruct (String.eqb_spec k y) as [->|Hky].
      * destruct (String.eqb_spec x y) as [->|_]; [congruence | reflexivity].
      * exact IH.
Qed.

Lemma freq_cons (y x : string) (xs : list string) :
  freq y (x :: xs) = ((if String.eqb y x then 1 else 0) + freq y xs)%nat.
Proof.
  unfold freq. simpl. destruct (String.eqb y x); reflexivity.
Qed.

Lemma get_fold_counter (xs : list string) :
  forall (c : list (string * nat)) (y : string),
    dict_get (fold_left counter_add xs c) y =
      match freq y xs with
      | O => dict_get c y
      | S k => Some (S k + default 0 (dict_get c y))%nat
      end.
Proof.
  induction xs as [|x xs IH]; intros c y.
  - reflexivity.
  - simpl fold_left. rewrite IH, freq_cons, get_counter_add.
    rewrite (String.eqb_sym y x).
    destruct (String.eqb_spec x y) as [->|Hxy]; simpl.
    + destruct (freq y xs); simpl; f_equal; lia.
    + reflexivity.
Qed.

Lemma get_Counter (xs : list string) (y : string) :
  dict_get (Counter xs) y = match freq y xs with O => None | S k => Some (S k) end.
Proof.
  unfold Counter. rewrite get_fold_counter. simpl.
  destruct (freq y xs); [reflexivity | f_equal; lia].
Qed.

Lemma keys_counter_add (c : list (string * nat)) (x : string) :
  NoDup (map fst c) ->
  NoDup (map fst (counter_add c x)) /\
  forall k, k ∈ map fst (counter_add c x) <-> k = x \/ k ∈ map fst c.
Proof.
  induction c as [|[k n] c IH]; simpl; intros Hnd.
  - split; [apply NoDup_singleton | intros k; rewrite list_elem_of_singleton, elem_of_nil; tauto].
  - apply NoDup_cons in Hnd as [Hk Hnd].
    destruct (String.eqb_spec k x) as [->|Hkx]; simpl.
    + split; [apply NoDup_cons; split; assumption | intros k; rewrite elem_of_cons; tauto].
    + destruct (IH Hnd) as [IH1 IH2]. split.
      * apply NoDup_cons. split; [|exact IH1]. rewrite IH2. intros [->|Hin]; tauto.
      * intros k'. rewrite !elem_of_cons, IH2. tauto.
Qed.

Lemma keys_fold_counter (xs : list string) :
  forall c, NoDup (map fst c) -> NoDup (map fst (fold_left counter_add xs c)).
Proof.
  induction xs as [|x xs IH]; intros c Hnd; simpl; [exact Hnd|].
  apply IH, keys_counter_add, Hnd.
Qed.

Lemma dict_get_elem {V} (d : dict V) (k : string) (v : V) :
  dict_get d k = Some v -> (k, v) ∈ d.
Proof.
  induction d as [|[k' v'] d IH]; simpl; [discriminate|].
  destruct (String.eqb_spec k' k) as [->|_].
  - intros [= ->]. left.
  - intros H. right. apply IH, H.
Qed.

Lemma elem_dict_get {V} (d : dict V) (k : string) (v : V) :
  NoDup (dict_keys d) -> (k, v) ∈ d -> dict_get d k = Some v.
Proof.
  unfold dict_keys.
  induction d as [|[k' v'] d IH]; simpl; intros Hnd Hin.
  - apply elem_of_nil in Hin as [].
  - apply NoDup_cons in Hnd as [Hk Hnd]. apply elem_of_cons in Hin as [Heq|Hin].
    + injection Heq as -> ->. rewrite String.eqb_refl. reflexivity.
    + destruct (String.eqb_spec k' k) as [->|_]; [|apply IH; assumption].
      exfalso. apply Hk. apply (list_elem_of_fmap_2 fst) in Hin. exact Hin.
Qed.

Lemma freq_pos_elem (y : string) (xs : list string) :
  y ∈ xs <-> (0 < freq y xs)%nat.
Proof.
  induction xs as [|x xs IH].
  - rewrite elem_of_nil. unfold freq. simpl. lia.
  - rewrite freq_cons, elem_of_cons. destruct (String.eqb_spec y x) as [->|Hyx].
    + split; [lia | intros _; left; reflexivity].
    + rewrite IH. simpl. tauto.
Qed.

(** The items of a counter are the values seen, each with its frequency. *)
Lemma Counter_items (xs : list string) (y : string) (n : nat) :
  (y, n) ∈ Counter xs <-> y ∈ xs /\ n = freq y xs.
Proof.
  split.
  - intros Hin. apply elem_dict_get in Hin.
    + rewrite get_Counter in Hin. rewrite freq_pos_elem.
      destruct (freq y xs); [discriminate|]. injection Hin as <-. split; [lia | reflexivity].
    + apply keys_fold_counter. apply NoDup_nil. exact I.
  - intros [Hin ->]. apply dict_get_elem. rewrite get_Counter.
    apply freq_pos_elem in Hin. destruct (freq y xs); [lia | reflexivity].
Qed.

Lemma max_item_spec (c : list (string * nat)) :
  forall best, max_item best c ∈ best :: c /\
               forall item, item ∈ best :: c -> (snd item <= snd (max_item best c))%nat.
Proof.
  induction c as [|i c IH]; intros best; simpl.
  - split; [left | intros item Hi; apply list_elem_of_singleton in Hi as ->; lia].
  - destruct (IH (if (snd best <? snd i)%nat then i else best)) as [Hin Hmax]. split.
    + apply elem_of_cons in Hin as [Heq|Hin]; [|right; right; exact Hin].
      rewrite Heq. destruct (snd best <? snd i)%nat; [right; left | left].
    + intros item Hitem.
      assert (Hle : (snd best <= snd (if (snd best <? snd i)%nat then i else best)
                     /\ snd i <= snd (if (snd best <? snd i)%nat then i else best))%nat).
      { destruct (Nat.ltb_spec (snd best) (snd i)); lia. }
      pose proof (Hmax _ (proj2 (elem_of_cons _ _ _) (or_introl eq_refl))) as Hb.
      rewrite !elem_of_cons in Hitem.
      destruct Hitem as [->|[->|Hitem]]; [lia | lia | apply Hmax; right; exact Hitem].
Qed.

(** The most common value of a non-empty list comes with the largest
    frequency. *)
Lemma most_common_count (xs : list string) :
  xs <> [] ->
  exists y, most_common_1 (Counter xs) = [(y, max_freq xs)] /\ y ∈ xs.
Proof.
  intros Hne. unfold most_common_1.
  destruct (Counter xs) as [|best c] eqn:Hc.
  - destruct xs as [|x xs]; [congruence|]. exfalso.
    assert (Hin : (x, freq x (x :: xs)) ∈ Counter (x :: xs)).
    { apply Counter_items. split; [left | reflexivity]. }
    rewrite Hc in Hin. apply elem_of_nil in Hin. exact Hin.
  - destruct (max_item_spec c best) as [Hin Hmax].
    destruct (max_item best c) as [y n] eqn:Hm. rewrite <- Hc in Hin, Hmax.
    apply Counter_items in Hin as [Hy ->]. exists y. split; [|exact Hy].
    do 2 f_equal. unfold max_freq. apply Nat.le_antisymm.
    + assert (Hall : Forall (fun k => k <= list_max (map (fun x => freq x xs) xs))%nat
                            (map (fun x => freq x xs) xs)).
      { apply list_max_le. reflexivity. }
      rewrite Forall_forall in Hall. apply Hall.
      apply (list_elem_of_fmap_2 (fun x => freq x xs)). exact Hy.
    + apply list_max_le, Forall_forall. intros k Hk.
      apply (list_elem_of_fmap (fun x => freq x xs)) in Hk as [z [-> Hz]].
      apply (Hmax (z, freq z xs)). apply Counter_items. split; [exact Hz | reflexivity].
Qed.

Lemma freq_le_length (x : string) (l : list string) : (freq x l <= length l)%nat.
Proof.
  unfold freq. induction l as [|y l IH]; simpl; [lia|].
  destruct (String.eqb x y); simpl; lia.
Qed.

Lemma max_freq_bounds (l : list string) :
  l <> [] -> (1 <= max_freq l <= length l)%nat.
Proof.
  intros Hne. unfold max_freq. split.
  - destruct l as [|x l]; [congruence|].
    assert (Hx : (freq x (x :: l) <= list_max (map (fun y => freq y (x :: l)) (x :: l)))%nat).
    { simpl. lia. }
    rewrite freq_cons, String.eqb_refl in Hx. lia.
  - apply list_max_le, Forall_forall. intros k Hk.
    apply (list_elem_of_fmap (fun x => freq x l)) in Hk as [z [-> _]].
    apply freq_le_length.
Qed.

Lemma freq_full (x : string) (l : list string) :
  freq x l = length l <-> forall y, y ∈ l -> y = x.
Proof.
  induction l as [|z l IH].
  - split; [intros _ y Hy; apply elem_of_nil in Hy as [] | reflexivity].
  - rewrite freq_cons. pose proof (freq_le_length x l) as Hle. simpl length.
    destruct (String.eqb_spec x z) as [<-|Hxz].
    + split.
      * intros H y Hy. apply elem_of_cons in Hy as [->|Hy]; [reflexivity|].
        apply IH; [lia | exact Hy].
      * intros H. f_equal. apply IH. intros y Hy. apply H. right. exact Hy.
    + split; [lia|]. intros H. exfalso. apply Hxz. symmetry. apply H. left.
Qed.

Lemma list_max_elem (l : list nat) : l <> [] -> list_max l ∈ l.
Proof.
  induction l as [|x l IH]; [congruence|]. intros _.
  change (list_max (x :: l)) with (Nat.max x (list_max l)).
  destruct l as [|y l].
  - simpl. rewrite Nat.max_0_r. left.
  - destruct (Nat.max_spec x (list_max (y :: l))) as [[_ ->]|[_ ->]].
    + right. apply IH. discriminate.
    + left.
Qed.

(** The largest frequency is the number of advisors exactly when they all
    gave one answer. *)
Lemma max_freq_all_agree (l : list string) :
  l <> [] ->
  max_freq l = length l <-> forall x y, x ∈ l -> y ∈ l -> x = y.
Proof.
  intros Hne. split.
  - intros Hm x y Hx Hy.
    assert (Hin : max_freq l ∈ map (fun x => freq x l) l).
    { apply list_max_elem. destruct l; [congruence | discriminate]. }
    apply (list_elem_of_fmap (fun x => freq x l)) in Hin as [w [Hw _]].
    rewrite Hm in Hw. symmetry in Hw. rewrite freq_full in Hw.
    rewrite (Hw x Hx), (Hw y Hy). reflexivity.
  - intros Hall. destruct l as [|x l]; [congruence|].
    apply Nat.le_antisymm; [apply max_freq_bounds; discriminate|].
    assert (Hx : freq x (x :: l) = length (x :: l)).
    { apply freq_full. intros y Hy. apply Hall; [exact Hy | left]. }
    unfold max_freq. simpl map. simpl list_max. rewrite Hx. lia.
Qed.

Lemma consensus_of_max_freq (r : Result) :
  advisors r <> [] ->
  consensus_of r = Ok (bucket_of (max_freq (advisor_answers r))).
Proof.
  intros Hne. unfold consensus_of.
  destruct (most_common_count (advisor_answers r)) as [y [-> _]]; [|reflexivity].
  unfold advisor_answers, dict_values. destruct (advisors r); [congruence | discriminate].
Qed.

(** C4, as the code has it.  With at least one advisor the bucket is
    decided by the largest number [m] of advisors that share one
    lower-cased answer, against the fixed numbers three and two: total for
    [m = 3], partial for [m = 2], none otherwise.  For three advisors that
    is total exactly when all of them agree, partial exactly when more than
    one but fewer than all agree, and none exactly when [m] is one. *)
Theorem consensus_bucket_by_frequency (r : Result) :
  advisors r <> [] ->
  let N := length (advisors r) in
  let m := max_freq (advisor_answers r) in
  (1 <= m <= N)%nat /\
  (m = N <-> forall x y, x ∈ advisor_answers r -> y ∈ advisor_answers r -> x = y) /\
  consensus_of r = Ok (bucket_of m) /\
  (N = 3%nat ->
     (consensus_of r = Ok Acuerdo_total <-> m = N) /\
     (consensus_of r = Ok Acuerdo_parcial <-> (1 < m < N)%nat) /\
     (consensus_of r = Ok Sin_acuerdo <-> m = 1%nat)).
Proof.
  intros Hne N m.
  assert (Hlen : length (advisor_answers r) = N).
  { unfold advisor_answers, dict_values. rewrite !length_map. reflexivity. }
  assert (Hane : advisor_answers r <> []).
  { intros H. rewrite H in Hlen. subst N. destruct (advisors r); [congruence | discriminate]. }
  pose proof (max_freq_bounds _ Hane) as Hb. rewrite Hlen in Hb. fold m in Hb.
  split; [exact Hb|]. split.
  { rewrite <- Hlen. apply max_freq_all_agree, Hane. }
  rewrite (consensus_of_max_freq r Hne). fold m. split; [reflexivity|].
  intros HN. rewrite HN in Hb. rewrite HN. unfold bucket_of.
  assert (Hm : m = 1%nat \/ m = 2%nat \/ m = 3%nat) by lia.
  destruct Hm as [-> | [-> | ->]]; simpl; repeat split; intros;
    first [lia | discriminate | reflexivity].
Qed.

(** Three advisors answering a, a, a; a, a, b; a, b, c. *)
Lemma consensus_bucket_by_frequency_witness :
  consensus_of (with_answers [("claude", "a"); ("grok", "a"); ("deepseek", "a")])
    = Ok Acuerdo_total /\
  consensus_of (with_answers [("claude", "a"); ("grok", "a"); ("deepseek", "b")])
    = Ok Acuerdo_parcial /\
  consensus_of (with_answers [("claude", "a"); ("grok", "b"); ("deepseek", "c")])
    = Ok Sin_acuerdo.
Proof.
  split; [|split].
  - destruct (consensus_bucket_by_frequency
                (with_answers [("claude", "a"); ("grok", "a"); ("deepseek", "a")]))
      as (_ & _ & Heq & _); [discriminate | rewrite Heq; reflexivity].
  - destruct (consensus_bucket_by_frequency
                (with_answers [("claude", "a"); ("grok", "a"); ("deepseek", "b")]))
      as (_ & _ & Heq & _); [discriminate | rewrite Heq; reflexivity].
  - destruct (consensus_bucket_by_frequency
                (with_answers [("claude", "a"); ("grok", "b"); ("deepseek", "c")]))
      as (_ & _ & Heq & _); [discriminate | rewrite Heq; reflexivity].
Defined.

(** C4 as stated fails when the advisors are not three: two advisors that
    agree fall in the partial bucket, four that agree in the bucket of no
    agreement. *)
Lemma consensus_other_advisor_counts :
  consensus_of (with_answers [("claude", "a"); ("grok", "a")]) = Ok Acuerdo_parcial /\
  consensus_of (with_answers [("claude", "a"); ("grok", "a"); ("deepseek", "a");
                              ("gemini", "a")]) = Ok Sin_acuerdo.
Proof. vm_compute. split; reflexivity. Qed.

Lemma lower_empty (s : string) : lower s = "" <-> s = "".
Proof.
  destruct s; simpl; split; intros H; first [reflexivity | discriminate H].
Qed.

(** How many of the advisors have an empty parsed answer. *)
Lemma freq_empty_answers (r : Result) :
  freq "" (advisor_answers r) =
  length (List.filter (fun a => String.eqb (parsed_answer a) "") (dict_values (advisors r))).
Proof.
  unfold advisor_answers. generalize (dict_values (advisors r)) as l.
  induction l as [|a l IH]; [reflexivity|].
  cbn [map List.filter]. rewrite freq_cons, IH.
  destruct (parsed_answer a); reflexivity.
Qed.

Lemma freq_le_max_freq (x : string) (l : list string) : (freq x l <= max_freq l)%nat.
Proof.
  destruct (freq x l) as [|k] eqn:Hf; [lia|]. rewrite <- Hf.
  assert (Hx : x ∈ l) by (apply freq_pos_elem; lia).
  assert (Hall : Forall (fun k => k <= max_freq l)%nat (map (fun y => freq y l) l)).
  { apply list_max_le. reflexivity. }
  rewrite Forall_forall in Hall. apply Hall.
  apply (list_elem_of_fmap_2 (fun y => freq y l)). exact Hx.
Qed.

(** Of three answers of which exactly two are one value, no value comes
    three times. *)
Lemma max_freq_two_of_three (x : string) (l : list string) :
  length l = 3%nat -> freq x l = 2%nat -> max_freq l = 2%nat.
Proof.
  intros Hlen Hx. apply Nat.le_antisymm.
  - destruct (Nat.le_gt_cases (max_freq l) 2) as [Hle|Hgt]; [exact Hle|]. exfalso.
    assert (Hne : l <> []) by (destruct l; [discriminate | discriminate]).
    pose proof (max_freq_bounds l Hne) as Hb.
    assert (Hm : max_freq l = length l) by lia.
    pose proof (proj1 (max_freq_all_agree l Hne) Hm) as Hall. clear Hm. rename Hall into Hm.
    assert (Hin : x ∈ l) by (apply freq_pos_elem; lia).
    assert (Hfull : freq x l = length l).
    { apply freq_full. intros y Hy. apply Hm; assumption. }
    lia.
  - rewrite <- Hx. apply freq_le_max_freq.
Qed.

(** C10.  An empty parsed answer counts as an answer like any other: with
    three advisors of which exactly two have the empty answer the question
    falls in the bucket of partial agreement, and with all three empty in
    the bucket of total agreement. *)
Theorem consensus_counts_empty_answers (r : Result) :
  length (advisors r) = 3%nat ->
  let empties :=
    length (List.filter (fun a => String.eqb (parsed_answer a) "")
                        (dict_values (advisors r))) in
  (empties = 2%nat -> consensus_of r = Ok Acuerdo_parcial) /\
  (empties = 3%nat -> consensus_of r = Ok Acuerdo_total).
Proof.
  intros Hlen empties.
  assert (Hne : advisors r <> []) by (destruct (advisors r); [discriminate | discriminate]).
  assert (Hlen' : length (advisor_answers r) = 3%nat).
  { unfold advisor_answers, dict_values. rewrite !length_map. exact Hlen. }
  rewrite (consensus_of_max_freq r Hne).
  subst empties. rewrite <- freq_empty_answers. split; intros He.
  - rewrite (max_freq_two_of_three "" _ Hlen' He). reflexivity.
  - assert (Hm : max_freq (advisor_answers r) = 3%nat).
    { apply Nat.le_antisymm.
      - rewrite <- Hlen'. apply max_freq_bounds. intros H. rewrite H in Hlen'. discriminate.
      - rewrite <- He. apply freq_le_max_freq. }
    rewrite Hm. reflexivity.
Qed.

(** Two failed advisors and one that answered; three failed advisors. *)
Lemma consensus_counts_empty_answers_witness :
  consensus_of (with_answers [("claude", ""); ("grok", "b"); ("deepseek", "")])
    = Ok Acuerdo_parcial /\
  consensus_of (with_answers [("claude", ""); ("grok", ""); ("deepseek", "")])
    = Ok Acuerdo_total.
Proof.
  split.
  - apply (consensus_counts_empty_answers
             (with_answers [("claude", ""); ("grok", "b"); ("deepseek", "")]));
      reflexivity.
  - apply (consensus_counts_empty_answers
             (with_answers [("claude", ""); ("grok", ""); ("deepseek", "")]));
      reflexivity.
Defined.

(** ** The fan-out over the advisors *)

Lemma startswith_app (p s : string) : startswith (p ++ s) p = true.
Proof.
  induction p as [|c p IH]; simpl; [destruct s; reflexivity|].
  rewrite Ascii.eqb_refl, IH. reflexivity.
Qed.

Lemma dict_set_fresh {V} (d : dict V) (k : string) (v : V) :
  k ∉ dict_keys d -> dict_set d k v = (d ++ [(k, v)])%list.
Proof.
  unfold dict_keys. induction d as [|[k' v'] d IH]; simpl; intros Hk; [reflexivity|].
  apply not_elem_of_cons in Hk as [Hne Hk].
  destruct (String.eqb_spec k' k) as [->|_]; [congruence|].
  rewrite (IH Hk). reflexivity.
Qed.

(** With distinct names every completed task adds its entry at the end. *)
Lemma fold_collect (advisor_template image_path question : string)
    (completed : dict backend) :
  forall acc : dict advisor_reply,
    NoDup (dict_keys completed) ->
    (forall k, k ∈ dict_keys completed -> k ∉ dict_keys acc) ->
    fold_left (collect advisor_template image_path question) completed acc =
    (acc ++ map (fun task => (fst task, reply_of advisor_template image_path question (snd task)))
               completed)%list.
Proof.
  unfold dict_keys.
  induction completed as [|[name advisor] completed IH]; intros acc Hnd Hfresh; simpl.
  - rewrite app_nil_r. reflexivity.
  - apply NoDup_cons in Hnd as [Hname Hnd].
    rewrite dict_set_fresh by (apply Hfresh; left).
    rewrite IH.
    + rewrite <- app_assoc. reflexivity.
    + exact Hnd.
    + intros k Hk. unfold dict_keys. rewrite map_app. simpl.
      rewrite elem_of_app, list_elem_of_singleton.
      intros [Hacc| ->]; [|contradiction].
      apply (Hfresh k); [right; exact Hk | exact Hacc].
Qed.

Lemma dict_get_map {A V} (f : A -> V) (l : list (string * A)) (k : string) :
  dict_get (map (fun item => (fst item, f (snd item))) l) k = f <$> dict_get l k.
Proof.
  induction l as [|[k' a] l IH]; simpl; [reflexivity|].
  destruct (String.eqb k' k); [reflexivity | exact IH].
Qed.

(** C3, as the code has it.  For a configured mapping of at least one
    advisor, whatever the order in which the tasks complete and whichever
    of them fail, the fan-out returns a mapping with exactly the configured
    names, one entry each.  The entry of an advisor whose task raised is
    the failure entry of the exception: failed, no parsed answer, the error
    text as raw text.  The entry of an advisor whose backend call failed
    inside [query_model] is failed too, has no parsed answer, and carries
    the error text as raw text.  No entry depends on another advisor. *)
Theorem fan_out_complete (advisor_template : string) (advisors completed : dict backend)
    (image_path question : string) :
  advisors <> [] -> NoDup (dict_keys advisors) -> completed ≡ₚ advisors ->
  exists replies,
    _query_advisors_parallel advisor_template advisors completed image_path question
      = Ok replies /\
    dict_keys replies ≡ₚ dict_keys advisors /\
    length replies = length advisors /\
    (forall name advisor, (name, advisor) ∈ advisors ->
       dict_get replies name
         = Some (reply_of advisor_template image_path question advisor)) /\
    (forall advisor e,
       _query_advisor advisor_template advisor image_path question = Raise e ->
       let reply := reply_of advisor_template image_path question advisor in
       error reply = true /\ parsed_answer reply = "" /\
       raw_response reply = Some ("Error: " ++ str_of_exn e)) /\
    (forall encode_image provider elapsed image_b64 e,
       encode_image image_path = Ok image_b64 ->
       provider image_b64 (get_advisor_prompt advisor_template question) = Raise e ->
       let reply := reply_of advisor_template image_path question
                      (query_model encode_image provider elapsed) in
       error reply = true /\ parsed_answer reply = "" /\
       raw_response reply = Some ("Error: " ++ str_of_exn e)).
Proof.
  intros Hne Hnd Hperm.
  assert (Hkeys : dict_keys completed ≡ₚ dict_keys advisors).
  { unfold dict_keys. apply Permutation_map, Hperm. }
  exists (map (fun task => (fst task, reply_of advisor_template image_path question (snd task)))
              completed).
  split; [|split; [|split; [|split; [|split]]]].
  - unfold _query_advisors_parallel. destruct advisors as [|a advisors]; [congruence|].
    rewrite fold_collect.
    + reflexivity.
    + rewrite Hkeys. exact Hnd.
    + intros k _ Hk. apply elem_of_nil in Hk. exact Hk.
  - unfold dict_keys in *. rewrite map_map. simpl. exact Hkeys.
  - rewrite length_map. apply Permutation_length, Hperm.
  - intros name advisor Hin.
    rewrite (dict_get_map (reply_of advisor_template image_path question)).
    rewrite (elem_dict_get completed name advisor).
    + reflexivity.
    + rewrite Hkeys. exact Hnd.
    + rewrite Hperm. exact Hin.
  - intros advisor e He reply. subst reply. unfold reply_of. rewrite He.
    repeat split.
  - intros encode_image provider elapsed image_b64 e Henc Hprov reply. subst reply.
    unfold reply_of, _query_advisor, query_model. rewrite Henc. simpl.
    rewrite Hprov. simpl. repeat split.
Qed.

(** One advisor answers, one fails inside its backend call, one raises;
    the tasks complete in another order than configured. *)
Lemma fan_out_complete_witness :
  exists replies,
    _query_advisors_parallel "{question}" three_advisors
      [("deepseek", unreadable); ("claude", answering); ("grok", timing_out)]
      "img.jpg" "q" = Ok replies /\
    dict_keys replies ≡ₚ ["claude"; "grok"; "deepseek"] /\
    length replies = 3%nat /\
    parsed_answer <$> dict_get replies "claude" = Some "a" /\
    raw_response <$> dict_get replies "grok" = Some (Some "Error: timeout") /\
    error <$> dict_get replies "grok" = Some true /\
    dict_get replies "deepseek" = Some (failure_entry (Exception "no such file")).
Proof.
  destruct (fan_out_complete "{question}" three_advisors
              [("deepseek", unreadable); ("claude", answering); ("grok", timing_out)]
              "img.jpg" "q")
    as (replies & Hrun & Hkeys & Hlen & Hget & _).
  - discriminate.
  - unfold three_advisors, dict_keys. simpl.
    repeat (apply NoDup_cons; split;
            [rewrite ?elem_of_cons, elem_of_nil; intuition discriminate|]).
    apply NoDup_nil. exact I.
  - apply (Permutation_cons_append [("claude", answering); ("grok", timing_out)]
             ("deepseek", unreadable)).
  - exists replies. split; [exact Hrun|]. split; [exact Hkeys|]. split; [exact Hlen|].
    rewrite (Hget "claude" answering) by (unfold three_advisors; rewrite !elem_of_cons; tauto).
    rewrite (Hget "grok" timing_out) by (unfold three_advisors; rewrite !elem_of_cons; tauto).
    rewrite (Hget "deepseek" unreadable) by (unfold three_advisors; rewrite !elem_of_cons; tauto).
    repeat split.
Defined.

(** C3 as stated fails for the empty mapping: the pool of workers is sized
    by the number of advisors, and no mapping is returned. *)
Lemma fan_out_no_advisors :
  _query_advisors_parallel "{question}" [] [] "img.jpg" "q"
  = Raise (ValueError "max_workers must be greater than 0").
Proof. reflexivity. Qed.

(** ** The precedence of the answer extractor *)

(** On an object the loop over the keys is a lookup in their order. *)
Lemma first_key_object (keys : list string) (members : dict json) (x0 : json) :
  first_key keys (JObject members) x0 = Ok (default x0 (first_present keys members)).
Proof.
  induction keys as [|key keys IH]; simpl; [reflexivity|].
  destruct (dict_get members key) as [v|] eqn:Hget; simpl; [reflexivity | exact IH].
Qed.

Lemma parse_response_live (response : string) :
  response <> "" -> startswith response "Error:" = false ->
  _parse_response response =
    match loads (clean_response response) with
    | Some data =>
        answer ← first_key answer_keys data (JString "");
        justification ← first_key justification_keys data (JString "");
        match answer with
        | JString (String c a) => Ok (normalise (String c a), justification)
        | _ => Ok (parse_text response)
        end
    | None => Ok (parse_text response)
    end.
Proof.
  intros Hne Herr. unfold _parse_response. rewrite Herr.
  destruct response; [congruence | reflexivity].
Qed.

(** C2, as the code has it.  For a reply that is not empty, does not start
    with the error marker and does not decode to a value other than an
    object, the precedence is strict and applies to the reply as a whole: a
    structured answer wins over the patterns, which win over the scan for
    the first of the four letters; with none of the three the answer is
    empty.  So a reply that is as a whole an object with the answer a
    yields a, whatever letters its other fields hold. *)
Theorem parse_response_precedence (response : string) :
  response <> "" -> startswith response "Error:" = false ->
  (forall data, loads (clean_response response) = Some data ->
                exists members, data = JObject members) ->
  _parse_response response =
    Ok match structured_answer response with
       | Some (value, justification) => (normalise value, justification)
       | None => parse_text response
       end /\
  fst (parse_text response) =
    match pattern_answer response with
    | Some letter => letter
    | None => default "" (scanned_answer response)
    end.
Proof.
  intros Hne Herr Hobj. split.
  - rewrite (parse_response_live response Hne Herr). unfold structured_answer.
    destruct (loads (clean_response response)) as [data|] eqn:Hloads; [|reflexivity].
    destruct (Hobj data eq_refl) as [members ->].
    rewrite !first_key_object.
    destruct (first_present answer_keys members) as [[| | | |[|c a]| |]|]; reflexivity.
  - unfold parse_text, pattern_answer, scanned_answer.
    destruct (first_match patterns (lower response)); [reflexivity|].
    destruct (first_abcd (lower response)); reflexivity.
Qed.

(** A reply that is an object as a whole, with another letter in its
    justification; a reply with a letter of prose before an object, read by
    the pattern for a quoted key; a reply with no pattern in it. *)
Lemma parse_response_precedence_witness :
  _parse_response (dq "{'reasoning': 'b is wrong', 'answer': 'a'}")
    = Ok ("a", JString "b is wrong") /\
  _parse_response (dq "b {'answer': 'a'}") = Ok ("a", JString "") /\
  _parse_response "option d" = Ok ("d", JString "").
Proof.
  split; [|split].
  - apply (proj1 (parse_response_precedence
                    (dq "{'reasoning': 'b is wrong', 'answer': 'a'}")
                    ltac:(discriminate) eq_refl
                    ltac:(intros data [= <-]; eexists; reflexivity))).
  - apply (proj1 (parse_response_precedence (dq "b {'answer': 'a'}")
                    ltac:(discriminate) eq_refl
                    ltac:(intros data Hd; discriminate Hd))).
  - apply (proj1 (parse_response_precedence "option d"
                    ltac:(discriminate) eq_refl
                    ltac:(intros data Hd; discriminate Hd))).
Defined.

(** C2 as stated fails for prose before a structured field: the reply as
    a whole does not decode, and the field is found only if a pattern
    matches it.  With a space before the colon none does, and the letter of
    the prose is returned; with a labelled letter in the prose the first
    pattern returns that letter.  The field alone is read as a. *)
Lemma parse_response_prose_before_field :
  _parse_response (dq "b {'answer' : 'a'}") = Ok ("b", JString "") /\
  _parse_response (dq "first answer: b, then {'answer': 'a'}") = Ok ("b", JString "") /\
  _parse_response (dq "{'answer' : 'a'}") = Ok ("a", JString "").
Proof. vm_compute. repeat split. Qed.

(** ** The synthesis prompt *)

Lemma startswith_cons (c c0 : ascii) (s p : string) :
  startswith (String c s) (String c0 p) = Ascii.eqb c0 c && startswith s p.
Proof. reflexivity. Qed.

Lemma quiet_cons (c : ascii) (s : string) :
  quiet (String c s) =
    (if Ascii.eqb c "{" then
       match s with
       | EmptyString => false
       | String d _ => negb (is_lower d)
       end
     else true) && quiet s.
Proof. reflexivity. Qed.

Section Replace.

Variables (l : ascii) (name' new : string).
Hypothesis l_lower : is_lower l = true.

Let old : string := slot (String l name').

Lemma startswith_quiet (c : ascii) (a rest : string) :
  quiet (String c a) = true -> startswith (String c (a ++ rest)) old = false.
Proof using l_lower.
  unfold old, slot. rewrite quiet_cons. intros Hq.
  change ("{" ++ String l name' ++ "}") with (String "{" (String l (name' ++ "}"))).
  rewrite startswith_cons, Ascii.eqb_sym.
  destruct (Ascii.eqb c "{"); [|reflexivity].
  destruct a as [|d a]; [discriminate Hq|].
  change (String d a ++ rest) with (String d (a ++ rest)).
  rewrite startswith_cons.
  apply andb_prop in Hq as [Hd _].
  destruct (Ascii.eqb_spec l d) as [<-|_]; [|reflexivity].
  rewrite l_lower in Hd. discriminate Hd.
Qed.

(** Nothing is replaced inside a text that opens no slot. *)
Lemma replace_quiet_prefix (a rest : string) :
  quiet a = true ->
  replace_from old new 0 (a ++ rest) = a ++ replace_from old new 0 rest.
Proof using l_lower.
  induction a as [|c a IH]; intros Hq; [reflexivity|].
  change (String c a ++ rest) with (String c (a ++ rest)).
  cbn [replace_from]. rewrite (startswith_quiet c a rest Hq).
  rewrite quiet_cons in Hq. apply andb_prop in Hq as [_ Hq]. rewrite (IH Hq). reflexivity.
Qed.

Lemma replace_skip (x rest : string) :
  replace_from old new (String.length x) (x ++ rest) = replace_from old new 0 rest.
Proof.
  induction x as [|c x IH]; [reflexivity | exact IH].
Qed.

(** The slot itself is replaced, and the search goes on after it. *)
Lemma replace_at_slot (rest : string) :
  replace_from old new 0 (old ++ rest) = new ++ replace_from old new 0 rest.
Proof.
  pose proof (startswith_app old rest) as Hs.
  assert (Hold : old = String "{" (String l name' ++ "}")) by reflexivity.
  rewrite Hold in Hs |- *.
  change (String "{" (String l name' ++ "}") ++ rest)
    with (String "{" ((String l name' ++ "}") ++ rest)) in Hs |- *.
  cbn [replace_from]. rewrite Hs. f_equal.
  change (String.length (String "{" (String l name' ++ "}")) - 1)%nat
    with (String.length (String l name' ++ "}") - 0)%nat.
  rewrite Nat.sub_0_r. rewrite <- Hold. apply replace_skip.
Qed.

End Replace.

Lemma append_assoc (s t u : string) : (s ++ t) ++ u = s ++ t ++ u.
Proof.
  induction s as [|c s IH]; [reflexivity|].
  change (String c ((s ++ t) ++ u) = String c (s ++ t ++ u)). rewrite IH. reflexivity.
Qed.

Lemma char_in_cons (c a : ascii) (s : string) :
  char_in c (String a s) = Ascii.eqb a c || char_in c s.
Proof. reflexivity. Qed.

Lemma no_open_brace_quiet (s : string) : char_in "{" s = false -> quiet s = true.
Proof.
  induction s as [|c s IH]; [reflexivity|].
  rewrite char_in_cons, quiet_cons. intros H. apply orb_false_elim in H as [Hc Hs].
  rewrite Hc, (IH Hs). reflexivity.
Qed.

Lemma char_in_app (c : ascii) (s t : string) :
  char_in c (s ++ t) = char_in c s || char_in c t.
Proof.
  induction s as [|a s IH]; [reflexivity|].
  change (String a s ++ t) with (String a (s ++ t)).
  rewrite !char_in_cons, IH, orb_assoc. reflexivity.
Qed.

(** Two names without a closing brace, each followed by one: if one is a
    prefix of the other they are the same name. *)
Lemma same_name (n : string) :
  forall m rest,
    char_in "}" n = false -> char_in "}" m = false ->
    startswith (m ++ "}" ++ rest) (n ++ "}") = true -> m = n.
Proof.
  induction n as [|a n IH]; intros [|c m] rest Hn Hm Hs.
  - reflexivity.
  - exfalso. change (String c m ++ "}" ++ rest) with (String c (m ++ "}" ++ rest)) in Hs.
    change ("" ++ "}") with (String "}" "") in Hs.
    rewrite startswith_cons in Hs. apply andb_prop in Hs as [Hc _].
    rewrite char_in_cons in Hm. apply orb_false_elim in Hm as [Hm _].
    rewrite Ascii.eqb_sym in Hc. congruence.
  - exfalso. change ("" ++ "}" ++ rest) with (String "}" rest) in Hs.
    change (String a n ++ "}") with (String a (n ++ "}")) in Hs.
    rewrite startswith_cons in Hs. apply andb_prop in Hs as [Ha _].
    rewrite char_in_cons in Hn. apply orb_false_elim in Hn as [Hn _]. congruence.
  - change (String c m ++ "}" ++ rest) with (String c (m ++ "}" ++ rest)) in Hs.
    change (String a n ++ "}") with (String a (n ++ "}")) in Hs.
    rewrite startswith_cons in Hs. apply andb_prop in Hs as [Hac Hs].
    apply Ascii.eqb_eq in Hac as ->.
    rewrite char_in_cons in Hn, Hm.
    apply orb_false_elim in Hn as [_ Hn]. apply orb_false_elim in Hm as [_ Hm].
    rewrite (IH m rest Hn Hm Hs). reflexivity.
Qed.

Lemma slot_name_inv (name : string) :
  slot_name name = true ->
  exists l name', name = String l name' /\ is_lower l = true /\
                  char_in "{" name = false /\ char_in "}" name = false.
Proof.
  destruct name as [|l name']; [discriminate|]. unfold slot_name. intros H.
  apply andb_prop in H as [H H3]. apply andb_prop in H as [H1 H2].
  apply negb_true_iff in H2, H3. exists l, name'. repeat split; assumption.
Qed.

(** Another slot is left as it is. *)
Lemma replace_other_slot (name m new rest : string) :
  slot_name name = true -> slot_name m = true -> m <> name ->
  replace_from (slot name) new 0 (slot m ++ rest)
  = slot m ++ replace_from (slot name) new 0 rest.
Proof.
  intros Hname Hm Hne.
  destruct (slot_name_inv name Hname) as (l & name' & -> & Hl & _ & Hclose).
  destruct (slot_name_inv m Hm) as (_ & _ & _ & _ & Hmopen & Hmclose).
  assert (Hs : startswith (slot m ++ rest) (slot (String l name')) = false).
  { destruct (startswith (slot m ++ rest) (slot (String l name'))) eqn:Hs; [|reflexivity].
    exfalso. apply Hne.
    unfold slot in Hs.
    change (("{" ++ m ++ "}") ++ rest) with (String "{" ((m ++ "}") ++ rest)) in Hs.
    change ("{" ++ String l name' ++ "}") with (String "{" (String l name' ++ "}")) in Hs.
    rewrite startswith_cons in Hs. apply andb_prop in Hs as [_ Hs].
    apply (same_name (String l name') m rest Hclose Hmclose).
    rewrite <- append_assoc. exact Hs. }
  assert (Hsm : forall x, slot m ++ x = String "{" ((m ++ "}") ++ x)) by reflexivity.
  rewrite !Hsm. rewrite Hsm in Hs.
  cbn [replace_from]. rewrite Hs. f_equal.
  apply (replace_quiet_prefix l name' new Hl).
  apply no_open_brace_quiet. rewrite char_in_app, Hmopen. reflexivity.
Qed.

Lemma render_cons (seg : segment) (segs : list segment) :
  render (seg :: segs) = render_segment seg ++ render segs.
Proof. reflexivity. Qed.

(** Replacing a slot in a rendered template fills the slot in its parts. *)
Lemma replace_render (name new : string) (segs : list segment) :
  slot_name name = true ->
  Forall (fun seg => segment_ok seg = true) segs ->
  replace (render segs) (slot name) new = render (fill name new segs).
Proof.
  intros Hname Hok.
  assert (Hrep : replace (render segs) (slot name) new
                 = replace_from (slot name) new 0 (render segs)) by reflexivity.
  rewrite Hrep. clear Hrep.
  induction Hok as [|seg segs Hseg Hok IH]; [reflexivity|].
  rewrite render_cons. cbn [fill map]. fold (fill name new segs). rewrite render_cons.
  destruct seg as [text|m]; cbn [render_segment segment_ok] in *.
  - destruct (slot_name_inv name Hname) as (l & name' & -> & Hl & _).
    rewrite (replace_quiet_prefix l name' new Hl text _ Hseg), IH. reflexivity.
  - destruct (String.eqb_spec m name) as [->|Hne]; cbn [render_segment].
    + destruct (slot_name_inv name Hname) as (l & name' & -> & _).
      rewrite (replace_at_slot l name' new), IH. reflexivity.
    + rewrite (replace_other_slot name m new _ Hname Hseg Hne), IH. reflexivity.
Qed.

Lemma fill_ok (name text : string) (segs : list segment) :
  quiet text = true ->
  Forall (fun seg => segment_ok seg = true) segs ->
  Forall (fun seg => segment_ok seg = true) (fill name text segs).
Proof.
  intros Hq Hok. unfold fill. apply Forall_map.
  eapply Forall_impl; [exact Hok|]. intros [t|m] Hseg; cbn [segment_ok] in *.
  - exact Hseg.
  - destruct (String.eqb m name); [exact Hq | exact Hseg].
Qed.

Lemma render_app (s1 s2 : list segment) : render (s1 ++ s2)%list = render s1 ++ render s2.
Proof.
  induction s1 as [|seg s1 IH]; [reflexivity|].
  change (render (seg :: (s1 ++ s2)%list) = render (seg :: s1) ++ render s2).
  rewrite !render_cons, IH, append_assoc. reflexivity.
Qed.

(** A literal part of a template is a part of its text. *)
Lemma render_embeds (text : string) (segs : list segment) :
  Lit text ∈ segs -> exists pre post, render segs = pre ++ text ++ post.
Proof.
  intros Hin. apply list_elem_of_split in Hin as (s1 & s2 & ->).
  exists (render s1), (render s2). rewrite render_app, render_cons. reflexivity.
Qed.

Lemma fill_keeps_lit (name text v : string) (segs : list segment) :
  Lit v ∈ segs -> Lit v ∈ fill name text segs.
Proof.
  intros Hin. unfold fill.
  apply (list_elem_of_fmap_2' _ _ (Lit v) (Lit v)); [exact Hin | reflexivity].
Qed.

Lemma fill_keeps_slot (name text m : string) (segs : list segment) :
  m <> name -> Slot m ∈ segs -> Slot m ∈ fill name text segs.
Proof.
  intros Hne Hin. unfold fill.
  apply (list_elem_of_fmap_2' _ _ (Slot m) (Slot m)); [exact Hin|].
  destruct (String.eqb_spec m name); [congruence | reflexivity].
Qed.

Lemma fill_fills (name text : string) (segs : list segment) :
  Slot name ∈ segs -> Lit text ∈ fill name text segs.
Proof.
  intros Hin. unfold fill.
  apply (list_elem_of_fmap_2' _ _ (Slot name) (Lit text)); [exact Hin|].
  rewrite String.eqb_refl. reflexivity.
Qed.

Lemma dict_get_set_other {V} (d : dict V) (k k' : string) (v : V) :
  k <> k' -> dict_get (dict_set d k v) k' = dict_get d k'.
Proof.
  intros Hne. induction d as [|[k0 v0] d IH]; simpl.
  - destruct (String.eqb_spec k k'); [congruence | reflexivity].
  - destruct (String.eqb_spec k0 k) as [->|Hk0]; simpl.
    + destruct (String.eqb_spec k k'); [congruence | reflexivity].
    + destruct (String.eqb k0 k'); [reflexivity | exact IH].
Qed.

(** C6, as the code has it.  The prompt has three advisor slots, under the
    fixed names claude, grok and deepseek and in that order.  For a
    template whose literal parts open no slot, and a question and replies
    of claude and grok that open none, the prompt is the template with each
    slot filled by the raw text stored under its name, or by the fixed
    placeholder when the mapping has no entry under that name; so each of
    the three texts is a part of the prompt wherever the template has its
    slot.  A failed advisor has an entry, and is represented by its error
    text.  A reply under any other name does not reach the prompt. *)
Theorem decision_prompt_filled (segs : list segment) (question : string)
    (advisor_responses : dict advisor_reply)
    (claude_response grok_response deepseek_response : string) :
  Forall (fun seg => segment_ok seg = true) segs ->
  quiet question = true ->
  raw_or_placeholder advisor_responses "claude" = Some claude_response ->
  raw_or_placeholder advisor_responses "grok" = Some grok_response ->
  raw_or_placeholder advisor_responses "deepseek" = Some deepseek_response ->
  quiet claude_response = true ->
  quiet grok_response = true ->
  exists prompt,
    decision_prompt (render segs) question advisor_responses = Ok prompt /\
    prompt
      = render (fill "deepseek_response" deepseek_response
                 (fill "grok_response" grok_response
                   (fill "claude_response" claude_response
                     (fill "question" question segs)))) /\
    (Slot "claude_response" ∈ segs ->
       exists pre post, prompt = pre ++ claude_response ++ post) /\
    (Slot "grok_response" ∈ segs ->
       exists pre post, prompt = pre ++ grok_response ++ post) /\
    (Slot "deepseek_response" ∈ segs ->
       exists pre post, prompt = pre ++ deepseek_response ++ post) /\
    (forall name, dict_get advisor_responses name = None ->
       raw_or_placeholder advisor_responses name = Some placeholder) /\
    (forall name e, dict_get advisor_responses name = Some (failure_entry e) ->
       raw_or_placeholder advisor_responses name = Some ("Error: " ++ str_of_exn e)) /\
    (forall name reply, name <> "claude" -> name <> "grok" -> name <> "deepseek" ->
       decision_prompt (render segs) question (dict_set advisor_responses name reply)
       = Ok prompt).
Proof.
  intros Hok Hq Hclaude Hgrok Hdeepseek Hc Hg.
  assert (Hprompt : decision_prompt (render segs) question advisor_responses
    = Ok (render (fill "deepseek_response" deepseek_response
                   (fill "grok_response" grok_response
                     (fill "claude_response" claude_response
                       (fill "question" question segs)))))).
  { unfold decision_prompt, get_decision_prompt.
    rewrite Hclaude, Hgrok, Hdeepseek. cbn [replace_value mbind result_bind].
    change "{question}" with (slot "question").
    change "{claude_response}" with (slot "claude_response").
    change "{grok_response}" with (slot "grok_response").
    change "{deepseek_response}" with (slot "deepseek_response").
    rewrite (replace_render "question" question segs eq_refl Hok).
    pose proof (fill_ok "question" question segs Hq Hok) as Hok1.
    rewrite (replace_render "claude_response" claude_response _ eq_refl Hok1).
    pose proof (fill_ok "claude_response" claude_response _ Hc Hok1) as Hok2.
    rewrite (replace_render "grok_response" grok_response _ eq_refl Hok2).
    pose proof (fill_ok "grok_response" grok_response _ Hg Hok2) as Hok3.
    rewrite (replace_render "deepseek_response" deepseek_response _ eq_refl Hok3).
    reflexivity. }
  eexists. split; [exact Hprompt|]. split; [reflexivity|].
  split; [|split; [|split; [|split; [|split]]]].
  - intros Hin. apply render_embeds.
    do 2 apply fill_keeps_lit. apply fill_fills.
    apply fill_keeps_slot; [discriminate | exact Hin].
  - intros Hin. apply render_embeds.
    apply fill_keeps_lit. apply fill_fills.
    do 2 (apply fill_keeps_slot; [discriminate|]). exact Hin.
  - intros Hin. apply render_embeds. apply fill_fills.
    do 3 (apply fill_keeps_slot; [discriminate|]). exact Hin.
  - intros name Hget. unfold raw_or_placeholder. rewrite Hget. reflexivity.
  - intros name e Hget. unfold raw_or_placeholder. rewrite Hget. reflexivity.
  - intros name reply H1 H2 H3. rewrite <- Hprompt.
    unfold decision_prompt, raw_or_placeholder.
    rewrite !dict_get_set_other by assumption. reflexivity.
Qed.

(** Claude answered, grok failed, deepseek has no entry. *)
Lemma decision_prompt_filled_witness :
  decision_prompt (render example_template) "q"
    [("claude", replied (dq "{'Respuesta': 'a'}"));
     ("grok", failure_entry (Exception "timeout"))]
  = Ok (dq "Pregunta: q | Claude: {'Respuesta': 'a'} | Grok: Error: timeout | DeepSeek: Error al obtener respuesta |").
Proof.
  destruct (decision_prompt_filled example_template "q"
              [("claude", replied (dq "{'Respuesta': 'a'}"));
               ("grok", failure_entry (Exception "timeout"))]
              (dq "{'Respuesta': 'a'}") "Error: timeout" placeholder)
    as (prompt & Hprompt & -> & _).
  - repeat constructor.
  - reflexivity.
  - reflexivity.
  - reflexivity.
  - reflexivity.
  - reflexivity.
  - reflexivity.
  - rewrite Hprompt. reflexivity.
Defined.

(** C6 as stated fails for an advisor under another name, whose reply is
    not in the prompt at all, and for a failed advisor, which is
    represented by its error text and not by the placeholder. *)
Lemma decision_prompt_other_advisors :
  decision_prompt (render example_template) "q" [("gemini", replied "zzz")]
  = Ok "Pregunta: q | Claude: Error al obtener respuesta | Grok: Error al obtener respuesta | DeepSeek: Error al obtener respuesta |"
  /\ (fun prompt => contains prompt "zzz")
       <$> decision_prompt (render example_template) "q" [("gemini", replied "zzz")]
     = Ok false
  /\ decision_prompt (render example_template) "q"
       [("claude", failure_entry (Exception "timeout"))]
     = Ok "Pregunta: q | Claude: Error: timeout | Grok: Error al obtener respuesta | DeepSeek: Error al obtener respuesta |".
Proof. vm_compute. repeat split. Qed.

(** ** The comparison with the correct answer *)

Lemma lower_char_idempotent (c : ascii) : lower_char (lower_char c) = lower_char c.
Proof.
  destruct c as [[] [] [] [] [] [] [] []]; reflexivity.
Qed.

Lemma lower_idempotent (s : string) : lower (lower s) = lower s.
Proof.
  induction s as [|c s IH]; simpl; [reflexivity|].
  rewrite lower_char_idempotent, IH. reflexivity.
Qed.

(** For a question that has a correct answer, the decision is correct
    exactly when the two answers are equal up to letter case, and an empty
    parsed answer is never correct. *)
Lemma decision_is_correct_spec (final_answer respuesta_correcta : string) :
  decision_is_correct final_answer respuesta_correcta
    = String.eqb (lower final_answer) (lower respuesta_correcta) /\
  (respuesta_correcta <> "" -> decision_is_correct "" respuesta_correcta = false) /\
  (respuesta_correcta <> "" ->
   decision_is_correct final_answer respuesta_correcta
     = es_correcta respuesta_correcta final_answer).
Proof.
  unfold decision_is_correct, es_correcta. rewrite lower_idempotent.
  split; [reflexivity|]. split.
  - intros Hne. destruct respuesta_correcta; [congruence | reflexivity].
  - intros Hne. destruct respuesta_correcta as [|c s]; [congruence|].
    destruct final_answer as [|a f]; reflexivity.
Qed.

Example decision_is_correct_examples :
  decision_is_correct "c" "c" = true /\ decision_is_correct "c" "C" = true /\
  decision_is_correct "" "c" = false /\ decision_is_correct "b" "c" = false.
Proof. repeat split. Qed.

(** C5.  For a question with a correct answer, which is a letter and so
    not empty, and every reply of the decision backend: whenever the
    arbiter returns a decision, its [is_correct] is the equality of its
    parsed answer and the correct answer up to letter case; it is false
    when the parsed answer is empty; and it is what the guarded comparison
    of [extract_final_answers] gives. *)
Theorem decision_is_correct_of_arbiter (decision_template : string)
    (decision_model : backend) (image_path question respuesta_correcta : string)
    (advisor_responses : dict advisor_reply) (d : decision) :
  respuesta_correcta <> "" ->
  _query_decision_model decision_template decision_model image_path question
    respuesta_correcta advisor_responses = Ok d ->
  is_correct d = String.eqb (lower (final_answer d)) (lower respuesta_correcta) /\
  (final_answer d = "" -> is_correct d = false) /\
  is_correct d = es_correcta respuesta_correcta (final_answer d).
Proof.
  intros Hne Hrun. unfold _query_decision_model in Hrun.
  destruct (decision_prompt decision_template question advisor_responses) as [prompt|e];
    [|discriminate Hrun].
  cbn [mbind result_bind] in Hrun.
  destruct (decision_model image_path prompt) as [data|e]; [|discriminate Hrun].
  cbn [mbind result_bind] in Hrun.
  destruct (_parse_response_value (rd_raw_response data)) as [parsed|e];
    [|discriminate Hrun].
  cbn [mbind result_bind] in Hrun. injection Hrun as <-.
  cbn [is_correct final_answer]. unfold decision_is_correct, es_correcta.
  rewrite lower_idempotent.
  assert (Hlow : lower respuesta_correcta <> "").
  { intros H. apply Hne, lower_empty, H. }
  split; [reflexivity|]. split.
  - intros ->. cbn [lower]. destruct (lower respuesta_correcta); [congruence | reflexivity].
  - destruct (String.eqb_spec (lower respuesta_correcta) "") as [H|_]; [congruence|].
    cbn [negb andb].
    destruct (String.eqb_spec (fst parsed) "") as [->|_]; [|reflexivity].
    cbn [negb lower]. destruct (lower respuesta_correcta); [congruence | reflexivity].
Qed.

(** The correct answer c: a decision backend that answers C is correct, one
    whose reply holds no letter is not. *)
Lemma decision_is_correct_of_arbiter_witness :
  (exists d,
     _query_decision_model "{question}"
       (fun _ _ => Ok {| rd_raw_response := Some (dq "{'Respuesta': 'C'}");
                         rd_processing_time := 1; rd_error := None |})
       "img.jpg" "q" "c" [] = Ok d /\
     final_answer d = "c" /\ is_correct d = true) /\
  (exists d,
     _query_decision_model "{question}"
       (fun _ _ => Ok {| rd_raw_response := Some "???"; rd_processing_time := 1;
                         rd_error := None |})
       "img.jpg" "q" "c" [] = Ok d /\
     final_answer d = "" /\ is_correct d = false).
Proof.
  split.
  - eexists. split; [reflexivity|]. split; [reflexivity|].
    refine (eq_trans (proj1 (decision_is_correct_of_arbiter "{question}"
              (fun _ _ => Ok {| rd_raw_response := Some (dq "{'Respuesta': 'C'}");
                                rd_processing_time := 1; rd_error := None |})
              "img.jpg" "q" "c" [] _ _ eq_refl)) _).
    + discriminate.
    + reflexivity.
  - eexists. split; [reflexivity|]. split; [reflexivity|].
    refine (proj1 (proj2 (decision_is_correct_of_arbiter "{question}"
              (fun _ _ => Ok {| rd_raw_response := Some "???";
                                rd_processing_time := 1; rd_error := None |})
              "img.jpg" "q" "c" [] _ _ eq_refl)) _).
    + discriminate.
    + reflexivity.
Defined.

(** ** The normal form of a decoded answer *)

(** An answer of more than one character that starts, once trimmed and
    lower-cased, with one of the four letters is cut to that letter; any
    other answer is kept whole. *)
Lemma normalise_spec (answer : string) :
  match lower (strip answer) with
  | String c (String d rest) =>
      normalise answer = if char_in c "abcd" then String c "" else String c (String d rest)
  | short => normalise answer = short
  end.
Proof.
  unfold normalise. destruct (lower (strip answer)) as [|c [|d rest]]; reflexivity.
Qed.

Example normalise_examples :
  normalise " B) la vena " = "b" /\ normalise "A" = "a" /\
  normalise "(b)" = "(b)" /\ normalise "e" = "e".
Proof. repeat split. Qed.

(** ** An error marker or an empty reply *)

(** An empty reply, or one that starts with the error marker, has no
    answer and no justification. *)
Theorem parse_response_error_or_empty (response : string) :
  response = "" \/ startswith response "Error:" = true ->
  _parse_response response = Ok ("", JString "").
Proof.
  intros [->|H]; [reflexivity|].
  unfold _parse_response. rewrite H, orb_true_r. reflexivity.
Qed.

Lemma parse_response_error_or_empty_witness :
  _parse_response "" = Ok ("", JString "") /\
  _parse_response "Error: timeout" = Ok ("", JString "").
Proof.
  split.
  - apply parse_response_error_or_empty. left. reflexivity.
  - apply parse_response_error_or_empty. right. reflexivity.
Defined.

(** ** One question from end to end *)

(** Three advisors answering a, b, a, a decision of a and a correct answer
    of a: the decision is correct, the question falls in the bucket of
    partial agreement, and three models count as correct, the two agreeing
    advisors and the decision. *)
Theorem end_to_end_scenario :
  exists r,
    scenario = Ok (Some r) /\
    map (fun item => (fst item, parsed_answer (snd item))) (advisors r)
      = [("claude", "a"); ("grok", "b"); ("deepseek", "a")] /\
    final_answer (r_decision r) = "a" /\
    is_correct (r_decision r) = true /\
    consensus_of r = Ok Acuerdo_parcial /\
    _get_difficult_questions [r] 10
      = [{| dq_question_id := 7; correct_models := 3; total_models := 4 |}].
Proof.
  eexists. split; [vm_compute; reflexivity|]. vm_compute. repeat split.
Qed.

(** ** Without a structured answer the answer is a letter or empty *)

Lemma orelse_some {A} (x y : option A) (v : A) :
  orelse x y = Some v -> x = Some v \/ y = Some v.
Proof.
  destruct x; simpl; intros H; [left | right]; exact H.
Qed.

(** A match runs its continuation, with the group changed as [caps] says. *)
Lemma go_caps {A} (r : regex) :
  forall i s cap (k : nat -> string -> string -> option A) x,
    go r i s cap k = Some x ->
    exists i' s' cap', k i' s' cap' = Some x /\ caps r cap cap'.
Proof.
  induction r as [|c|p|r1 IH1 r2 IH2|r1 IH1 r2 IH2|r IH|p|p|r IH| |];
    intros i s cap k x H; cbn [go] in H.
  - exists i, s, cap. split; [exact H | reflexivity].
  - destruct s as [|a s]; [discriminate H|].
    destruct (Ascii.eqb a c); [|discriminate H].
    exists (S i), s, cap. split; [exact H | reflexivity].
  - destruct s as [|a s]; [discriminate H|].
    destruct (p a); [|discriminate H].
    exists (S i), s, cap. split; [exact H | reflexivity].
  - apply IH1 in H as (i1 & s1 & c1 & H & Hc1).
    apply IH2 in H as (i2 & s2 & c2 & H & Hc2).
    exists i2, s2, c2. split; [exact H|]. exists c1. split; assumption.
  - apply orelse_some in H as [H|H].
    + apply IH1 in H as (i1 & s1 & c1 & H & Hc). exists i1, s1, c1. split; [exact H | left; exact Hc].
    + apply IH2 in H as (i1 & s1 & c1 & H & Hc). exists i1, s1, c1. split; [exact H | right; exact Hc].
  - apply orelse_some in H as [H|H].
    + apply IH in H as (i1 & s1 & c1 & H & Hc). exists i1, s1, c1. split; [exact H | left; exact Hc].
    + exists i, s, cap. split; [exact H | right; reflexivity].
  - revert i H. induction s as [|a s IHs]; intros i H.
    + exists i, EmptyString, cap. split; [exact H | reflexivity].
    + destruct (p a).
      * apply orelse_some in H as [H|H]; [apply (IHs (S i)), H|].
        exists i, (String a s), cap. split; [exact H | reflexivity].
      * exists i, (String a s), cap. split; [exact H | reflexivity].
  - revert i H. induction s as [|a s IHs]; intros i H.
    + apply orelse_some in H as [H|H]; [|discriminate H].
      exists i, EmptyString, cap. split; [exact H | reflexivity].
    + apply orelse_some in H as [H|H].
      * exists i, (String a s), cap. split; [exact H | reflexivity].
      * destruct (p a); [apply (IHs (S i)), H | discriminate H].
  - assert (Hex : exists i' s' cap', k i' s' cap' = Some x).
    { apply IH in H as (i1 & s1 & c1 & H & _). eauto. }
    destruct r; try (destruct Hex as (i1 & s1 & c1 & Hk); exists i1, s1, c1;
                     split; [exact Hk | exact I]).
    clear Hex. cbn [go] in H. destruct s as [|a s]; [discriminate H|].
    destruct (p a) eqn:Hp; [|discriminate H].
    replace (S i - i)%nat with 1%nat in H by lia.
    exists (S i), s, (String a ""). split.
    + rewrite <- H. f_equal. simpl. destruct s; reflexivity.
    + exists a. split; [exact Hp | reflexivity].
  - destruct (i =? 0)%nat; [|discriminate H].
    exists i, s, cap. split; [exact H | reflexivity].
  - destruct s as [|a [|b s]]; try discriminate H.
    + exists i, EmptyString, cap. split; [exact H | reflexivity].
    + destruct (Ascii.eqb a (ascii_of_nat 10)); [|discriminate H].
      exists i, (String a ""), cap. split; [exact H | reflexivity].
Qed.

Lemma search_caps (r : regex) (s : string) :
  forall i g, search_from r i s = Some g -> caps r "" g.
Proof.
  induction s as [|a s IH]; intros i g H; cbn [search_from] in H;
    apply orelse_some in H as [H|H].
  - apply go_caps in H as (_ & _ & c & [= <-] & Hc). exact Hc.
  - discriminate H.
  - apply go_caps in H as (_ & _ & c & [= <-] & Hc). exact Hc.
  - apply (IH (S i)), H.
Qed.

Lemma caps_lit (s : string) : forall cap cap', caps (lit s) cap cap' -> cap' = cap.
Proof.
  induction s as [|c s IH]; intros cap cap' H; [exact H|].
  destruct H as (mid & -> & H). apply IH, H.
Qed.

Lemma caps_alt_lit (labels : list string) :
  forall cap cap', caps (alt (map lit labels)) cap cap' -> cap' = cap.
Proof.
  induction labels as [|l labels IH]; intros cap cap' H; [exact H|].
  destruct labels as [|l' labels].
  - apply (caps_lit l), H.
  - destruct H as [H|H]; [apply (caps_lit l), H | apply IH, H].
Qed.

Lemma caps_opt_quote (cap cap' : string) : caps (Opt quote) cap cap' -> cap' = cap.
Proof. intros [H|H]; exact H. Qed.

Lemma caps_labelled (labels : list string) (cap g : string) :
  caps (labelled labels) cap g -> one_letter g.
Proof.
  intros (m1 & _ & m2 & _ & m3 & _ & m4 & _ & m5 & Hl & m6 & Hq & ->).
  apply caps_opt_quote in Hq as ->. exact Hl.
Qed.

Lemma caps_quoted (labels : list string) (cap g : string) :
  caps (quoted labels) cap g -> one_letter g.
Proof.
  intros (m1 & _ & m2 & _ & m3 & _ & m4 & _ & m5 & _ & m6 & _ & m7 & Hl & m8 & -> & ->).
  exact Hl.
Qed.

Lemma caps_phrase (phrases : list string) (cap g : string) :
  caps (phrase phrases) cap g -> one_letter g.
Proof.
  intros (m1 & _ & m2 & _ & m3 & _ & m4 & Hl & m5 & Hq & ->).
  apply caps_opt_quote in Hq as ->. exact Hl.
Qed.

Lemma first_match_one_letter (s g : string) :
  first_match patterns s = Some g -> one_letter g.
Proof.
  unfold patterns. cbn [first_match]. unfold search.
  repeat match goal with
         | |- match search_from ?p 0 s with _ => _ end = _ -> _ =>
             let H := fresh "H" in
             destruct (search_from p 0 s) eqn:H;
             [intros [= <-]; apply search_caps in H;
              first [apply caps_labelled in H | apply caps_quoted in H
                    | apply caps_phrase in H]; exact H |]
         end.
  discriminate.
Qed.

Lemma a_to_d_letters (c : ascii) :
  is_a_to_d c = true ->
  String c "" = "a" \/ String c "" = "b" \/ String c "" = "c" \/ String c "" = "d".
Proof.
  destruct c as [[] [] [] [] [] [] [] []]; intros H; try discriminate H; tauto.
Qed.

Lemma abcd_letters (c : ascii) :
  char_in c "abcd" = true ->
  String c "" = "a" \/ String c "" = "b" \/ String c "" = "c" \/ String c "" = "d".
Proof.
  destruct c as [[] [] [] [] [] [] [] []]; intros H; try discriminate H; tauto.
Qed.

Lemma first_abcd_letter (s : string) (c : ascii) :
  first_abcd s = Some c -> char_in c "abcd" = true.
Proof.
  induction s as [|a s IH]; [discriminate|]. cbn [first_abcd].
  destruct (char_in a "abcd") eqn:Ha; [intros [= <-]; exact Ha | exact IH].
Qed.

Lemma parse_text_canonical (response : string) :
  canonical_or_empty (fst (parse_text response)).
Proof.
  unfold parse_text, canonical_or_empty.
  destruct (first_match patterns (lower response)) as [g|] eqn:Hm.
  - apply first_match_one_letter in Hm as (c & Hc & ->). right.
    apply a_to_d_letters, Hc.
  - destruct (first_abcd (lower response)) as [c|] eqn:Hs; [|left; reflexivity].
    right. apply abcd_letters, (first_abcd_letter _ _ Hs).
Qed.

(** On a value that is not an object the loop over the keys raises or
    leaves the initial value. *)
Lemma first_key_not_object (keys : list string) (data x0 v : json) :
  (forall members, data <> JObject members) ->
  first_key keys data x0 = Ok v -> v = x0.
Proof.
  intros Hdata. induction keys as [|key keys IH]; simpl; [intros [= <-]; reflexivity|].
  destruct data as [| | | | |items|members]; simpl; try discriminate.
  - destruct (contains s key); [discriminate | exact IH].
  - destruct (existsb (fun v0 => is_str v0 key) items); [discriminate | exact IH].
  - exfalso. apply (Hdata members). reflexivity.
Qed.

(** Whenever the extractor returns and the reply holds no structured
    answer, the answer is one of the four letters or empty. *)
Theorem parse_response_canonical (response answer : string) (justification : json) :
  _parse_response response = Ok (answer, justification) ->
  structured_answer response = None ->
  canonical_or_empty answer.
Proof.
  intros Hok Hnone.
  destruct (String.eqb response "" || startswith response "Error:") eqn:Hlive.
  { unfold _parse_response in Hok. rewrite Hlive in Hok.
    injection Hok as <- _. left. reflexivity. }
  unfold _parse_response in Hok. rewrite Hlive in Hok.
  unfold structured_answer in Hnone.
  assert (Htext : forall p, Ok (parse_text response) = Ok p -> canonical_or_empty (fst p)).
  { intros p [= <-]. apply parse_text_canonical. }
  destruct (loads (clean_response response)) as [data|];
    [|apply (Htext _ Hok)].
  destruct (first_key answer_keys data (JString "")) as [a|e] eqn:Ha; [|discriminate Hok].
  destruct (first_key justification_keys data (JString "")) as [j|e] eqn:Hj;
    [|discriminate Hok].
  cbn [mbind result_bind] in Hok.
  assert (Hobj : (exists members, data = JObject members) \/
                 (forall members, data <> JObject members)).
  { destruct data; try (right; intros members; discriminate). left. eexists. reflexivity. }
  destruct Hobj as [[members ->]|Hnot].
  - rewrite first_key_object in Ha.
    destruct (first_present answer_keys members) as [[| | | |[|c s]| |]|];
      injection Ha as <-;
      first [discriminate Hnone | exact (Htext _ Hok)].
  - apply (first_key_not_object _ _ _ _ Hnot) in Ha as ->. apply (Htext _ Hok).
Qed.

(** A reply of prose, and a reply whose object has no answer key. *)
Lemma parse_response_canonical_witness :
  canonical_or_empty "d" /\ canonical_or_empty "c".
Proof.
  split.
  - apply (parse_response_canonical "option d" "d" (JString "")); reflexivity.
  - apply (parse_response_canonical (dq "{'opcion': 'a'}") "c" (JString "")); reflexivity.
Defined.

(** ** The question processor as a whole *)

Lemma decision_prompt_none (decision_template question name : string)
    (advisor_responses : dict advisor_reply) :
  name = "claude" \/ name = "grok" \/ name = "deepseek" ->
  raw_or_placeholder advisor_responses name = None ->
  decision_prompt decision_template question advisor_responses
  = Raise (TypeError "replace() argument 2 must be str, not None").
Proof.
  intros Hname Hnone. unfold decision_prompt, get_decision_prompt.
  destruct Hname as [-> | [-> | ->]]; rewrite Hnone.
  - reflexivity.
  - destruct (raw_or_placeholder advisor_responses "claude"); reflexivity.
  - destruct (raw_or_placeholder advisor_responses "claude");
      destruct (raw_or_placeholder advisor_responses "grok"); reflexivity.
Qed.

(** For a row whose cells are texts.  A question whose image is not valid
    gives no record.  For a valid image, at least one advisor, a synthesis
    prompt that is built, and a decision backend whose reply the extractor
    accepts, the question gives a record: it carries the question's
    identity and its lower-cased correct answer, one entry for every
    configured advisor, whatever the order of completion and whichever
    advisors failed, and a decision whose answer is the parsed reply and
    which is correct exactly when that answer equals the correct answer up
    to letter case.  When the prompt is not built the question raises what
    building it raised, and no record is returned: that is so when the
    entry of claude, grok or deepseek holds [None] as its raw text, the
    content of a provider's message that has none. *)
Theorem process_question_result
    (advisor_template decision_template image_base_path : string)
    (path_join : string -> string -> string) (image_ok : string -> bool)
    (advisors_ completed : dict backend) (decision_model : backend) (row : question) :
  let image_path := path_join image_base_path (ruta row) in
  let replies := fold_left (collect advisor_template image_path (pregunta row)) completed [] in
  let run_it :=
    process_question advisor_template decision_template image_base_path path_join
      image_ok advisors_ completed decision_model row in
  (image_ok image_path = false -> run_it = Ok None) /\
  (forall prompt data parsed,
     image_ok image_path = true ->
     advisors_ <> [] -> NoDup (dict_keys advisors_) -> completed ≡ₚ advisors_ ->
     decision_prompt decision_template (pregunta row) replies = Ok prompt ->
     decision_model image_path prompt = Ok data ->
     _parse_response_value (rd_raw_response data) = Ok parsed ->
     exists r,
       run_it = Ok (Some r) /\
       r_question_id r = question_id row /\
       correct_answer r = lower (respuesta_correcta row) /\
       dict_keys (advisors r) ≡ₚ dict_keys advisors_ /\
       (forall name advisor, (name, advisor) ∈ advisors_ ->
          dict_get (advisors r) name
            = Some (reply_of advisor_template image_path (pregunta row) advisor)) /\
       d_raw_response (r_decision r) = rd_raw_response data /\
       final_answer (r_decision r) = fst parsed /\
       is_correct (r_decision r)
         = String.eqb (lower (fst parsed)) (lower (respuesta_correcta row))) /\
  (forall e,
     image_ok image_path = true -> advisors_ <> [] ->
     decision_prompt decision_template (pregunta row) replies = Raise e ->
     run_it = Raise e) /\
  (forall name,
     image_ok image_path = true -> advisors_ <> [] ->
     name = "claude" \/ name = "grok" \/ name = "deepseek" ->
     raw_or_placeholder replies name = None ->
     run_it = Raise (TypeError "replace() argument 2 must be str, not None")).
Proof.
  intros image_path replies run_it. subst run_it. unfold process_question.
  fold image_path.
  assert (Hraise : forall e,
            image_ok image_path = true -> advisors_ <> [] ->
            decision_prompt decision_template (pregunta row) replies = Raise e ->
            (if negb (image_ok image_path) then Ok None
             else
               advisor_responses ←
                 _query_advisors_parallel advisor_template advisors_ completed
                   image_path (pregunta row);
               decision ←
                 _query_decision_model decision_template decision_model
                   image_path (pregunta row) (respuesta_correcta row) advisor_responses;
               Ok (Some {| r_question_id := question_id row;
                           correct_answer := lower (respuesta_correcta row);
                           advisors := advisor_responses;
                           r_decision := decision |})) = Raise e).
  { intros e -> Hne Hprompt. simpl negb. cbv iota.
    unfold _query_advisors_parallel.
    destruct advisors_ as [|a0 advisors_]; [congruence|].
    fold replies. cbn [mbind result_bind].
    unfold _query_decision_model. rewrite Hprompt. reflexivity. }
  split; [|split; [|split]].
  - intros ->. reflexivity.
  - intros prompt data parsed -> Hne Hnd Hperm Hprompt Hdata Hparsed. simpl negb. cbv iota.
    assert (Hkeys : dict_keys completed ≡ₚ dict_keys advisors_).
    { unfold dict_keys. apply Permutation_map, Hperm. }
    assert (Hreplies : replies
              = map (fun task => (fst task,
                                  reply_of advisor_template image_path (pregunta row)
                                           (snd task))) completed).
    { subst replies. rewrite fold_collect.
      - reflexivity.
      - rewrite Hkeys. exact Hnd.
      - intros k _ Hk. apply elem_of_nil in Hk. exact Hk. }
    unfold _query_advisors_parallel.
    destruct advisors_ as [|a0 advisors_]; [congruence|].
    fold replies. cbn [mbind result_bind].
    unfold _query_decision_model. rewrite Hprompt. cbn [mbind result_bind].
    rewrite Hdata. cbn [mbind result_bind].
    rewrite Hparsed. cbn [mbind result_bind].
    eexists. split; [reflexivity|]. cbn [r_question_id correct_answer advisors r_decision
      d_raw_response final_answer is_correct].
    split; [reflexivity|]. split; [reflexivity|]. split.
    { rewrite Hreplies. unfold dict_keys in *. rewrite map_map. exact Hkeys. }
    split.
    { intros name advisor Hin. rewrite Hreplies.
      rewrite (dict_get_map (reply_of advisor_template image_path (pregunta row))).
      rewrite (elem_dict_get completed name advisor).
      - reflexivity.
      - rewrite Hkeys. exact Hnd.
      - rewrite Hperm. exact Hin. }
    split; [reflexivity|]. split; [reflexivity|].
    unfold decision_is_correct. rewrite lower_idempotent. reflexivity.
  - exact Hraise.
  - intros name Hvalid Hne Hname Hnone. apply (Hraise _ Hvalid Hne).
    apply (decision_prompt_none _ _ name); assumption.
Qed.

(** The scenario of three advisors answering a, b, a and a decision of a. *)
Lemma process_question_result_witness :
  exists r,
    scenario = Ok (Some r) /\
    parsed_answer <$> dict_get (advisors r) "grok" = Some "b" /\
    final_answer (r_decision r) = "a" /\
    is_correct (r_decision r) = true.
Proof.
  destruct (process_question_result "{question}" (render example_template) "img"
              (fun base name => base ++ "/" ++ name) (fun _ => true)
              scenario_advisors scenario_advisors (says "a") scenario_question)
    as (_ & Hrun & _).
  destruct (Hrun (dq "Pregunta: q | Claude: {'Respuesta': 'a', 'Justificacion': 'x'} | Grok: {'Respuesta': 'b', 'Justificacion': 'x'} | DeepSeek: {'Respuesta': 'a', 'Justificacion': 'x'} |")
                 {| rd_raw_response := Some (dq "{'Respuesta': 'a', 'Justificacion': 'x'}");
                    rd_processing_time := 1; rd_error := None |}
                 ("a", JString "x"))
    as (r & Hr & _ & _ & _ & Hget & _ & Hfinal & Hcorrect).
  - reflexivity.
  - discriminate.
  - unfold scenario_advisors, dict_keys. simpl.
    repeat (apply NoDup_cons; split;
            [rewrite ?elem_of_cons, elem_of_nil; intuition discriminate|]).
    apply NoDup_nil. exact I.
  - reflexivity.
  - reflexivity.
  - reflexivity.
  - reflexivity.
  - exists r. split; [exact Hr|]. split.
    + rewrite (Hget "grok" (says "b")); [reflexivity|].
      unfold scenario_advisors. rewrite !elem_of_cons. tauto.
    + split; [exact Hfinal | exact Hcorrect].
Defined.

(** ** A decision model that fails *)

Lemma parse_response_error_text (text : string) :
  _parse_response ("Error: " ++ text) = Ok ("", JString "").
Proof.
  unfold _parse_response.
  change ("Error: " ++ text) with ("Error:" ++ String " " text) at 2.
  rewrite startswith_app, orb_true_r. reflexivity.
Qed.

(** When the image is valid and can be read, the synthesis prompt is built,
    but the call of the decision model raises, inside
    [DecisionModel.query_model], the question is recorded all the same: the
    decision carries the error text as its raw reply, is marked as failed
    and has the empty answer, and it counts as correct exactly when the
    question's correct answer is empty. *)
Theorem decision_failure_is_recorded
    (advisor_template decision_template image_base_path : string)
    (path_join : string -> string -> string) (image_ok : string -> bool)
    (advisors_ completed : dict backend)
    (encode_image : string -> result string) (is_openai : bool)
    (openai_call : string -> string -> result (option string))
    (make_advisor : result backend)
    (elapsed : Q) (row : question) (image_b64 prompt : string) (e : exn) :
  let image_path := path_join image_base_path (ruta row) in
  let replies := fold_left (collect advisor_template image_path (pregunta row)) completed [] in
  let decision_model :=
    DecisionModel.query_model encode_image is_openai openai_call make_advisor elapsed in
  image_ok image_path = true ->
  advisors_ <> [] ->
  encode_image image_path = Ok image_b64 ->
  decision_prompt decision_template (pregunta row) replies = Ok prompt ->
  DecisionModel.attempt is_openai openai_call make_advisor elapsed image_b64 image_path
    prompt = Raise e ->
  exists r,
    process_question advisor_template decision_template image_base_path path_join
      image_ok advisors_ completed decision_model row = Ok (Some r) /\
    advisors r = replies /\
    d_raw_response (r_decision r) = Some ("Error: " ++ str_of_exn e) /\
    final_answer (r_decision r) = "" /\
    d_error (r_decision r) = true /\
    (is_correct (r_decision r) = true <-> respuesta_correcta row = "").
Proof.
  intros image_path replies decision_model Hvalid Hne Himage Hprompt Hraise.
  unfold process_question. fold image_path. rewrite Hvalid. simpl negb. cbv iota.
  unfold _query_advisors_parallel.
  destruct advisors_ as [|a0 advisors_]; [congruence|].
  fold replies. cbn [mbind result_bind].
  unfold _query_decision_model. rewrite Hprompt. cbn [mbind result_bind].
  unfold decision_model, DecisionModel.query_model.
  rewrite Himage. cbn [mbind result_bind]. rewrite Hraise.
  cbn [mbind result_bind rd_raw_response rd_error rd_processing_time
       _parse_response_value].
  rewrite parse_response_error_text. cbn [mbind result_bind].
  eexists. split; [reflexivity|].
  cbn [advisors r_decision d_raw_response final_answer d_error is_correct fst default].
  split; [reflexivity|]. split; [reflexivity|]. split; [reflexivity|]. split; [reflexivity|].
  unfold decision_is_correct. rewrite lower_idempotent. cbn [lower].
  split.
  - intros H. destruct (lower (respuesta_correcta row)) eqn:Hl; [|discriminate H].
    apply lower_empty, Hl.
  - intros ->. reflexivity.
Qed.

(** A decision model of the provider openai whose call times out, on a
    question whose correct answer is c: recorded, and not correct. *)
Lemma decision_failure_is_recorded_witness :
  exists r,
    process_question "{question}" (render example_template) "img"
      (fun base name => base ++ "/" ++ name) (fun _ => true)
      scenario_advisors scenario_advisors
      (DecisionModel.query_model (fun _ => Ok "b64") true
         (fun _ _ => Raise (Exception "timeout")) (Raise (Exception "unused")) 2)
      {| question_id := 8; pregunta := "q"; respuesta_correcta := "c"; ruta := "f.jpg" |}
    = Ok (Some r) /\
    d_raw_response (r_decision r) = Some "Error: timeout" /\
    final_answer (r_decision r) = "" /\
    is_correct (r_decision r) = false.
Proof.
  destruct (decision_failure_is_recorded "{question}" (render example_template) "img"
              (fun base name => base ++ "/" ++ name) (fun _ => true)
              scenario_advisors scenario_advisors
              (fun _ => Ok "b64") true
              (fun _ _ => Raise (Exception "timeout")) (Raise (Exception "unused")) 2
              {| question_id := 8; pregunta := "q"; respuesta_correcta := "c";
                 ruta := "f.jpg" |}
              "b64"
              (dq "Pregunta: q | Claude: {'Respuesta': 'a', 'Justificacion': 'x'} | Grok: {'Respuesta': 'b', 'Justificacion': 'x'} | DeepSeek: {'Respuesta': 'a', 'Justificacion': 'x'} |")
              (Exception "timeout"))
    as (r & Hr & _ & Hraw & Hfinal & _ & Hcorrect).
  - reflexivity.
  - discriminate.
  - reflexivity.
  - reflexivity.
  - reflexivity.
  - exists r. split; [exact Hr|]. split; [exact Hraw|]. split; [exact Hfinal|].
    destruct (is_correct (r_decision r)); [|reflexivity].
    destruct Hcorrect as [Hcorrect _]. discriminate (Hcorrect eq_refl).
Defined.

(** When the image is valid but cannot be read, the decision model raises
    what reading it raised, outside its [try], and so does the processing
    of the question, whatever the advisors returned: once the synthesis
    prompt is built the question raises that exception, and it raises in
    every case. *)
Theorem unreadable_image_ends_question
    (advisor_template decision_template image_base_path : string)
    (path_join : string -> string -> string) (image_ok : string -> bool)
    (advisors_ completed : dict backend)
    (encode_image : string -> result string) (is_openai : bool)
    (openai_call : string -> string -> result (option string))
    (make_advisor : result backend)
    (elapsed : Q) (row : question) (e : exn) :
  let image_path := path_join image_base_path (ruta row) in
  let replies := fold_left (collect advisor_template image_path (pregunta row)) completed [] in
  let run_it :=
    process_question advisor_template decision_template image_base_path path_join
      image_ok advisors_ completed
      (DecisionModel.query_model encode_image is_openai openai_call make_advisor elapsed)
      row in
  image_ok image_path = true ->
  advisors_ <> [] ->
  encode_image image_path = Raise e ->
  (forall prompt,
     decision_prompt decision_template (pregunta row) replies = Ok prompt ->
     run_it = Raise e) /\
  exists e', run_it = Raise e'.
Proof.
  intros image_path replies run_it Hvalid Hne Himage. subst run_it.
  unfold process_question. fold image_path. rewrite Hvalid. simpl negb. cbv iota.
  unfold _query_advisors_parallel.
  destruct advisors_ as [|a0 advisors_]; [congruence|].
  fold replies. cbn [mbind result_bind].
  unfold _query_decision_model, DecisionModel.query_model.
  destruct (decision_prompt decision_template (pregunta row) replies) as [prompt|e'].
  - cbn [mbind result_bind]. rewrite Himage. split; [reflexivity|].
    exists e. reflexivity.
  - split; [discriminate|]. exists e'. reflexivity.
Qed.

(** Three advisors, of which one cannot read the image either and has its
    failure entry, and a decision model that cannot read it. *)
Lemma unreadable_image_ends_question_witness :
  process_question "{question}" (render example_template) "img"
    (fun base name => base ++ "/" ++ name) (fun _ => true)
    three_advisors three_advisors
    (DecisionModel.query_model (fun _ => Raise (Exception "no such file")) true
       (fun _ _ => Ok (Some "a")) (Raise (Exception "unused")) 2)
    scenario_question
  = Raise (Exception "no such file").
Proof.
  destruct (unreadable_image_ends_question "{question}" (render example_template) "img"
              (fun base name => base ++ "/" ++ name) (fun _ => true)
              three_advisors three_advisors
              (fun _ => Raise (Exception "no such file")) true
              (fun _ _ => Ok (Some "a")) (Raise (Exception "unused")) 2 scenario_question
              (Exception "no such file"))
    as [H _].
  - reflexivity.
  - discriminate.
  - reflexivity.
  - apply (H (dq "Pregunta: q | Claude: {'Respuesta': 'a'} | Grok: Error: timeout | DeepSeek: Error: no such file |")).
    reflexivity.
Defined.

(** ** The running statistics *)

Lemma dict_get_set_same {V} (d : dict V) (k : string) (v : V) :
  dict_get (dict_set d k v) k = Some v.
Proof.
  induction d as [|[k0 v0] d IH]; simpl.
  - rewrite String.eqb_refl. reflexivity.
  - destruct (String.eqb_spec k0 k) as [->|Hk0]; simpl.
    + rewrite String.eqb_refl. reflexivity.
    + destruct (String.eqb_spec k0 k); [congruence | exact IH].
Qed.

(** One update changes the entry of its name and no other. *)
Lemma get_update_stat (ms : dict model_stat) (n name : string) (hit : bool) (time : Q) :
  let s := default no_stat (dict_get ms name) in
  let s' := default no_stat (dict_get (update_stat ms n hit time) name) in
  stat_total s' = (stat_total s + if String.eqb name n then 1 else 0)%nat /\
  stat_correct s' = (stat_correct s + if String.eqb name n && hit then 1 else 0)%nat.
Proof.
  unfold update_stat. destruct (String.eqb_spec name n) as [->|Hne].
  - rewrite dict_get_set_same. simpl. destruct hit; split; lia.
  - rewrite dict_get_set_other by congruence. simpl. split; lia.
Qed.

Lemma get_update_advisors (result : Result) (name : string)
    (items : dict advisor_reply) :
  forall ms : dict model_stat,
    let ms' :=
      fold_left
        (fun ms item => update_stat ms (fst item) (advisor_hit result (snd item))
                                    (processing_time (snd item)))
        items ms in
    stat_total (default no_stat (dict_get ms' name))
    = (stat_total (default no_stat (dict_get ms name)) + freq name (dict_keys items))%nat /\
    stat_correct (default no_stat (dict_get ms' name))
    = (stat_correct (default no_stat (dict_get ms name))
       + length (List.filter
                   (fun item => String.eqb name (fst item) && advisor_hit result (snd item))
                   items))%nat.
Proof.
  induction items as [|[n a] items IH]; intros ms; cbn [fold_left].
  - unfold freq. simpl. split; lia.
  - destruct (IH (update_stat ms n (advisor_hit result a) (processing_time a)))
      as [Ht Hc].
    cbn [fst snd] in *. cbv zeta in Ht, Hc. cbv zeta. rewrite Ht, Hc.
    destruct (get_update_stat ms n name (advisor_hit result a) (processing_time a))
      as [Ht1 Hc1].
    cbv zeta in Ht1, Hc1. rewrite Ht1, Hc1.
    unfold dict_keys. cbn [map fst List.filter snd]. rewrite freq_cons.
    destruct (String.eqb name n); cbn [andb].
    + destruct (advisor_hit result a); cbn [length]; split; lia.
    + split; lia.
Qed.

Lemma decided_right_cons (r : Result) (rs : list Result) :
  decided_right (r :: rs)
  = ((if is_correct (r_decision r) then 1 else 0) + decided_right rs)%nat.
Proof.
  unfold decided_right. cbn [List.filter].
  destruct (is_correct (r_decision r)); reflexivity.
Qed.

Lemma log_result_from (rs : list Result) :
  forall lg0 : logger,
    let lg := fold_left log_result rs lg0 in
    results lg = (results lg0 ++ rs)%list /\
    total_questions (stats lg) = (total_questions (stats lg0) + length rs)%nat /\
    correct_answers (stats lg) = (correct_answers (stats lg0) + decided_right rs)%nat /\
    forall name,
      stat_total (stat_of lg name)
      = (stat_total (stat_of lg0 name) + asked name rs
         + if String.eqb name "decision" then length rs else 0)%nat /\
      stat_correct (stat_of lg name)
      = (stat_correct (stat_of lg0 name) + answered_right name rs
         + if String.eqb name "decision" then decided_right rs else 0)%nat.
Proof.
  induction rs as [|r rs IH]; intros lg0; cbn [fold_left].
  - cbv zeta. rewrite app_nil_r. unfold asked, answered_right, decided_right. simpl.
    split; [reflexivity|]. split; [lia|]. split; [lia|].
    intros name. destruct (String.eqb name "decision"); split; lia.
  - destruct (IH (log_result lg0 r)) as (Hres & Htot & Hcor & Hstat).
    cbv zeta in *. rewrite Hres, Htot, Hcor, decided_right_cons.
    split; [unfold log_result; cbn [results]; rewrite <- app_assoc; reflexivity|].
    split.
    { unfold log_result. cbn [stats total_questions length]. lia. }
    split.
    { unfold log_result. cbn [stats correct_answers].
      destruct (is_correct (r_decision r)); lia. }
    intros name. destruct (Hstat name) as [Ht Hc]. rewrite Ht, Hc.
    change (asked name (r :: rs))
      with (freq name (dict_keys (advisors r)) + asked name rs)%nat.
    change (answered_right name (r :: rs))
      with (length (List.filter
                      (fun item => String.eqb name (fst item) && advisor_hit r (snd item))
                      (advisors r)) + answered_right name rs)%nat.
    unfold stat_of at 1 3. unfold log_result. cbn [stats model_stats].
    match goal with
    | |- context [update_stat ?ms "decision" ?hit ?time] =>
        destruct (get_update_stat ms "decision" name hit time) as [Ht1 Hc1]
    end.
    cbv zeta in Ht1, Hc1. rewrite Ht1, Hc1.
    destruct (get_update_advisors r name (advisors r) (model_stats (stats lg0)))
      as [Ht2 Hc2].
    cbv zeta in Ht2, Hc2. rewrite Ht2, Hc2. unfold stat_of. cbn [length].
    destruct (String.eqb name "decision"); cbn [andb];
      destruct (is_correct (r_decision r)); split; lia.
Qed.

Lemma answered_le_asked (name : string) (rs : list Result) :
  (answered_right name rs <= asked name rs)%nat.
Proof.
  unfold answered_right, asked. induction rs as [|r rs IH]; simpl; [lia|].
  assert (length (List.filter
                    (fun item => String.eqb name (fst item) && advisor_hit r (snd item))
                    (advisors r))
          <= freq name (dict_keys (advisors r)))%nat; [|lia].
  unfold freq, dict_keys. induction (advisors r) as [|[n a] l IHl]; simpl; [lia|].
  destruct (String.eqb name n); simpl; [destruct (advisor_hit r a); simpl; lia | lia].
Qed.

Lemma decided_right_le (rs : list Result) : (decided_right rs <= length rs)%nat.
Proof.
  unfold decided_right. induction rs as [|r rs IH]; simpl; [lia|].
  destruct (is_correct (r_decision r)); simpl; lia.
Qed.

(** After any sequence of results has been logged, the logger holds the
    results in the order logged; the number of questions is their number
    and the number of correct answers that of the correct decisions.  The
    entry of a name counts the results in which an advisor of that name
    took part and those in which its answer equals the correct one up to
    letter case, and never more correct answers than answers.  The entry
    under the name decision counts every result as well, so an advisor
    configured under that name shares its entry with the decision model. *)
Theorem log_result_statistics (rs : list Result) :
  let lg := fold_left log_result rs new_logger in
  results lg = rs /\
  total_questions (stats lg) = length rs /\
  correct_answers (stats lg) = decided_right rs /\
  forall name,
    stat_total (stat_of lg name)
    = (asked name rs + if String.eqb name "decision" then length rs else 0)%nat /\
    stat_correct (stat_of lg name)
    = (answered_right name rs
       + if String.eqb name "decision" then decided_right rs else 0)%nat /\
    (stat_correct (stat_of lg name) <= stat_total (stat_of lg name))%nat.
Proof.
  destruct (log_result_from rs new_logger) as (Hres & Htot & Hcor & Hstat).
  cbv zeta in *. split; [exact Hres|]. split; [exact Htot|]. split; [exact Hcor|].
  intros name. destruct (Hstat name) as [Ht Hc]. rewrite Ht, Hc.
  change (stat_total (stat_of new_logger name)) with 0%nat.
  change (stat_correct (stat_of new_logger name)) with 0%nat.
  split; [reflexivity|]. split; [reflexivity|].
  pose proof (answered_le_asked name rs). pose proof (decided_right_le rs).
  destruct (String.eqb name "decision"); lia.
Qed.

(** Two results, with an advisor configured under the name decision in the
    second: its entry holds three answers for two questions. *)
Example log_result_shared_entry :
  let lg :=
    fold_left log_result
      [outcome 1 [("claude", "a"); ("grok", "b")] "a" true;
       outcome 2 [("claude", "B"); ("decision", "b")] "b" false] new_logger in
  map (fun item => (fst item, stat_correct (snd item), stat_total (snd item)))
      (model_stats (stats lg))
  = [("claude", 2, 2); ("grok", 0, 1); ("decision", 2, 3)]%nat.
Proof. reflexivity. Qed.

(** ** The loop of a run *)

Lemma run_loop_returns (process : question -> result (option Result))
    (rows : list question) :
  forall lg : logger,
    Forall (fun row => exists o, process row = Ok o) rows ->
    run_loop process lg rows = Ok (fold_left log_result (processed process rows) lg).
Proof.
  induction rows as [|row rows IH]; intros lg Hall; [reflexivity|].
  apply Forall_cons in Hall as [[o Ho] Hall]. cbn [run_loop processed].
  rewrite Ho. cbn [mbind result_bind]. rewrite IH by exact Hall.
  destruct o; reflexivity.
Qed.

(** When the processing of every selected question returns, a run returns
    a logger that holds the results of the questions that gave one, in the
    order of the data set, and counts as many questions as it holds
    results: a question whose image is not valid is not counted at all. *)
Theorem run_records_in_order (process : question -> result (option Result))
    (df : list question) (sample_size resume_from : option Z) :
  let rows := select_questions df sample_size resume_from in
  Forall (fun row => exists o, process row = Ok o) rows ->
  exists lg,
    run process df sample_size resume_from = Ok lg /\
    results lg = processed process rows /\
    total_questions (stats lg) = length (results lg) /\
    correct_answers (stats lg) = decided_right (results lg) /\
    (length (results lg) <= length rows)%nat.
Proof.
  intros rows Hall. unfold run. fold rows. rewrite run_loop_returns by exact Hall.
  eexists. split; [reflexivity|].
  destruct (log_result_from (processed process rows) new_logger) as (Hres & Htot & Hcor & _).
  cbv zeta in *. rewrite Hres, Htot, Hcor. cbn [new_logger results stats total_questions
    correct_answers app]. split; [reflexivity|]. split; [reflexivity|].
  split; [reflexivity|].
  clear. induction rows as [|row rows IH]; simpl; [lia|].
  destruct (process row) as [[r|]|e]; simpl; lia.
Qed.

(** Three questions, of which the second has no valid image. *)
Lemma run_records_in_order_witness :
  exists lg,
    run (fun row => if (question_id row =? 2)%Z then Ok None
                    else Ok (Some (outcome (question_id row) [] "a" true)))
        (numbered [1; 2; 3]%Z) None None = Ok lg /\
    map r_question_id (results lg) = [1; 3]%Z /\
    total_questions (stats lg) = 2%nat.
Proof.
  destruct (run_records_in_order
              (fun row => if (question_id row =? 2)%Z then Ok None
                          else Ok (Some (outcome (question_id row) [] "a" true)))
              (numbered [1; 2; 3]%Z) None None)
    as (lg & Hrun & Hres & Htot & _).
  - repeat constructor; eexists; reflexivity.
  - exists lg. split; [exact Hrun|]. rewrite Htot, Hres. split; reflexivity.
Defined.



(** ** The most difficult questions *)

Lemma insert_by_correct_perm (q : difficulty) (sorted : list difficulty) :
  insert_by_correct q sorted ≡ₚ q :: sorted.
Proof.
  induction sorted as [|q' sorted IH]; cbn [insert_by_correct]; [reflexivity|].
  destruct (correct_models q <=? correct_models q')%nat; [reflexivity|].
  rewrite IH. apply perm_swap.
Qed.

Lemma sort_by_correct_perm (qs : list difficulty) : sort_by_correct qs ≡ₚ qs.
Proof.
  induction qs as [|q qs IH]; [reflexivity|].
  unfold sort_by_correct. cbn [fold_right]. fold (sort_by_correct qs).
  rewrite insert_by_correct_perm, IH. reflexivity.
Qed.

Lemma insert_by_correct_sorted (q : difficulty) (sorted : list difficulty) :
  StronglySorted easier_or_equal sorted ->
  StronglySorted easier_or_equal (insert_by_correct q sorted).
Proof.
  induction 1 as [|q' sorted Hs IH Hall]; cbn [insert_by_correct].
  - constructor; constructor.
  - destruct (Nat.leb_spec (correct_models q) (correct_models q')) as [Hle|Hgt].
    + constructor; [constructor; assumption|].
      constructor; [exact Hle|].
      revert Hall. apply List.Forall_impl. unfold easier_or_equal. intros; lia.
    + constructor; [exact IH|].
      rewrite insert_by_correct_perm. constructor; [|exact Hall].
      unfold easier_or_equal. lia.
Qed.

Lemma sort_by_correct_sorted (qs : list difficulty) :
  StronglySorted easier_or_equal (sort_by_correct qs).
Proof.
  induction qs as [|q qs IH]; [constructor|].
  unfold sort_by_correct. cbn [fold_right]. apply insert_by_correct_sorted, IH.
Qed.

(** The entries of equal count keep their order: the sort is stable. *)
Lemma insert_by_correct_stable (k : nat) (q : difficulty) (sorted : list difficulty) :
  with_correct k (insert_by_correct q sorted) = with_correct k (q :: sorted).
Proof.
  unfold with_correct.
  induction sorted as [|q' sorted IH]; cbn [insert_by_correct]; [reflexivity|].
  destruct (Nat.leb_spec (correct_models q) (correct_models q')) as [Hle|Hgt];
    [reflexivity|].
  cbn [List.filter] in *. rewrite IH.
  destruct (Nat.eqb_spec (correct_models q) k) as [Hq|Hq];
    destruct (Nat.eqb_spec (correct_models q') k) as [Hq'|Hq']; try reflexivity.
  lia.
Qed.

Lemma sort_by_correct_stable (k : nat) (qs : list difficulty) :
  with_correct k (sort_by_correct qs) = with_correct k qs.
Proof.
  induction qs as [|q qs IH]; [reflexivity|].
  unfold sort_by_correct. cbn [fold_right]. fold (sort_by_correct qs).
  rewrite insert_by_correct_stable. unfold with_correct in *. cbn [List.filter].
  rewrite IH. reflexivity.
Qed.

Lemma filter_firstn {A} (p : A -> bool) (l : list A) :
  forall n, exists m, List.filter p (firstn n l) = firstn m (List.filter p l).
Proof.
  induction l as [|a l IH]; intros n.
  - exists 0%nat. destruct n; reflexivity.
  - destruct n as [|n]; [exists 0%nat; reflexivity|].
    destruct (IH n) as [m Hm]. cbn [firstn List.filter].
    destruct (p a); [exists (S m); cbn [firstn]; rewrite Hm; reflexivity|].
    exists m. exact Hm.
Qed.

Lemma sorted_app_le (l1 l2 : list difficulty) :
  StronglySorted easier_or_equal (l1 ++ l2)%list ->
  forall q q', q ∈ l1 -> q' ∈ l2 -> easier_or_equal q q'.
Proof.
  induction l1 as [|a l1 IH]; intros Hs q q' Hq Hq'.
  - apply elem_of_nil in Hq. contradiction.
  - cbn [app] in Hs. apply StronglySorted_inv in Hs as [Hs Hall].
    apply elem_of_cons in Hq as [->|Hq]; [|apply (IH Hs q q' Hq Hq')].
    rewrite List.Forall_forall in Hall. apply Hall.
    apply in_or_app. right. apply list_elem_of_In, Hq'.
Qed.

Lemma sorted_app_left (l1 l2 : list difficulty) :
  StronglySorted easier_or_equal (l1 ++ l2)%list -> StronglySorted easier_or_equal l1.
Proof.
  induction l1 as [|a l1 IH]; intros Hs; [constructor|].
  cbn [app] in Hs. apply StronglySorted_inv in Hs as [Hs Hall].
  constructor; [apply IH, Hs|].
  rewrite List.Forall_forall in *. intros x Hx. apply Hall, in_or_app. left. exact Hx.
Qed.

Lemma difficulty_of_bound (r : Result) :
  (correct_models (difficulty_of r) <= total_models (difficulty_of r))%nat.
Proof.
  unfold difficulty_of. cbn [correct_models total_models].
  assert (length (List.filter
                    (fun advisor_data =>
                       String.eqb (lower (parsed_answer advisor_data))
                                  (lower (correct_answer r)))
                    (dict_values (advisors r))) <= length (advisors r))%nat.
  { unfold dict_values. rewrite <- (length_map snd (advisors r)).
    apply List.filter_length_le. }
  destruct (is_correct (r_decision r)); lia.
Qed.

(** The list of difficult questions is, for any results and any limit,
    the [limit] questions with the fewest correct models, or all of them
    when there are fewer: its entries are entries of the results, in
    ascending order of the number of correct models, none of them with
    more correct models than an entry left out; questions with the same
    number of correct models keep the order in which they were recorded;
    and no entry has more correct models than it has models. *)
Theorem difficult_questions_hardest_first (results : list Result) (limit : nat) :
  let all := map difficulty_of results in
  let hardest := _get_difficult_questions results limit in
  length hardest = Nat.min limit (length results) /\
  StronglySorted easier_or_equal hardest /\
  (exists rest,
     (hardest ++ rest)%list ≡ₚ all /\
     forall q q', q ∈ hardest -> q' ∈ rest -> easier_or_equal q q') /\
  (forall k, exists n, with_correct k hardest = firstn n (with_correct k all)) /\
  (forall q, q ∈ hardest -> (correct_models q <= total_models q)%nat).
Proof.
  intros all hardest. subst hardest. unfold _get_difficult_questions. fold all.
  pose proof (sort_by_correct_sorted all) as Hsorted.
  pose proof (sort_by_correct_perm all) as Hperm.
  rewrite <- (firstn_skipn limit (sort_by_correct all)) in Hsorted.
  split.
  { rewrite length_firstn, (Permutation_length Hperm). unfold all.
    rewrite length_map. reflexivity. }
  split; [apply (sorted_app_left _ _ Hsorted)|].
  split.
  { exists (skipn limit (sort_by_correct all)). split.
    - rewrite firstn_skipn. exact Hperm.
    - apply sorted_app_le, Hsorted. }
  split.
  { intros k. unfold with_correct at 1.
    destruct (filter_firstn (fun q => (correct_models q =? k)%nat)
                (sort_by_correct all) limit) as [m Hm].
    exists m. rewrite Hm. fold (with_correct k (sort_by_correct all)).
    rewrite sort_by_correct_stable. reflexivity. }
  intros q Hq.
  assert (Hin : q ∈ all).
  { rewrite <- Hperm, <- (firstn_skipn limit (sort_by_correct all)).
    apply elem_of_app. left. exact Hq. }
  unfold all in Hin. apply list_elem_of_fmap in Hin as (r & -> & _).
  apply difficulty_of_bound.
Qed.

(** Four results with 2, 0, 2 and 1 correct models, and a limit of three. *)
Example difficult_questions_example :
  map (fun q => (dq_question_id q, correct_models q))
      (_get_difficult_questions
         [outcome 1 [("claude", "a")] "a" true; outcome 2 [("claude", "b")] "a" false;
          outcome 3 [("claude", "a")] "a" true; outcome 4 [("claude", "a")] "a" false] 3)
  = [(2%Z, 0%nat); (4%Z, 1%nat); (1%Z, 2%nat)].
Proof. reflexivity. Qed.

(** ** The consensus report over a run *)

Lemma bucket_record_level (st : consensus_stats) (level l : consensus_level) (hit : bool) :
  bucket (record_level st level hit) l
  = if level_eqb level l then bump (bucket st l) hit else bucket st l.
Proof. destruct level, l; reflexivity. Qed.

Lemma in_level_cons (l : consensus_level) (r : Result) (rs : list Result) :
  in_level l (r :: rs)
  = if level_eqb (bucket_of (max_freq (advisor_answers r))) l
    then r :: in_level l rs else in_level l rs.
Proof. reflexivity. Qed.

Lemma analyze_from_counts (rs : list Result) :
  forall st0 : consensus_stats,
    Forall (fun r => advisors r <> []) rs ->
    exists st,
      analyze_from st0 rs = Ok st /\
      forall l,
        count (bucket st l) = (count (bucket st0 l) + length (in_level l rs))%nat /\
        correct (bucket st l)
        = (correct (bucket st0 l) + decided_right (in_level l rs))%nat.
Proof.
  induction rs as [|r rs IH]; intros st0 Hall.
  - exists st0. split; [reflexivity|]. intros l. unfold decided_right. simpl. lia.
  - apply Forall_cons in Hall as [Hr Hall]. cbn [analyze_from].
    rewrite (consensus_of_max_freq r Hr). cbn [mbind result_bind].
    destruct (IH (record_level st0 (bucket_of (max_freq (advisor_answers r)))
                               (is_correct (r_decision r))) Hall)
      as (st & Hst & Hcounts).
    exists st. split; [exact Hst|]. intros l. destruct (Hcounts l) as [Hc Hk].
    rewrite Hc, Hk, bucket_record_level, in_level_cons.
    destruct (level_eqb (bucket_of (max_freq (advisor_answers r))) l).
    + rewrite decided_right_cons. unfold bump. cbn [count correct length].
      destruct (is_correct (r_decision r)); lia.
    + lia.
Qed.

Lemma in_level_partition (rs : list Result) :
  (length (in_level Acuerdo_total rs) + length (in_level Acuerdo_parcial rs)
   + length (in_level Sin_acuerdo rs) = length rs)%nat.
Proof.
  induction rs as [|r rs IH]; [reflexivity|]. rewrite !in_level_cons.
  destruct (bucket_of (max_freq (advisor_answers r))); cbn [level_eqb length]; lia.
Qed.

(** When every recorded result has at least one advisor, the consensus
    report is produced: each result is counted in exactly one bucket, the
    bucket of the largest number of its advisors that share a lower-cased
    answer, so the three counts add up to the number of results; a bucket
    counts as correct the results in it whose decision was correct, never
    more than it holds. *)
Theorem analyze_consensus_counts (rs : list Result) :
  Forall (fun r => advisors r <> []) rs ->
  exists st,
    _analyze_consensus rs = Ok st /\
    (forall l,
       count (bucket st l) = length (in_level l rs) /\
       correct (bucket st l) = decided_right (in_level l rs) /\
       (correct (bucket st l) <= count (bucket st l))%nat) /\
    (count (total st) + count (parcial st) + count (sin_acuerdo st) = length rs)%nat.
Proof.
  intros Hall. unfold _analyze_consensus.
  destruct (analyze_from_counts rs
              {| total := {| count := 0; correct := 0 |};
                 parcial := {| count := 0; correct := 0 |};
                 sin_acuerdo := {| count := 0; correct := 0 |} |} Hall)
    as (st & Hst & Hcounts).
  exists st. split; [exact Hst|].
  assert (Hl : forall l,
             count (bucket st l) = length (in_level l rs) /\
             correct (bucket st l) = decided_right (in_level l rs)).
  { intros l. destruct (Hcounts l) as [Hc Hk]. rewrite Hc, Hk.
    destruct l; split; reflexivity. }
  split.
  - intros l. destruct (Hl l) as [Hc Hk]. rewrite Hc, Hk.
    split; [reflexivity|]. split; [reflexivity|]. apply decided_right_le.
  - destruct (Hl Acuerdo_total) as [H1 _], (Hl Acuerdo_parcial) as [H2 _],
      (Hl Sin_acuerdo) as [H3 _].
    cbn [bucket] in H1, H2, H3. rewrite H1, H2, H3. apply in_level_partition.
Qed.

(** Four results: all three advisors agree, two agree, none agree, and a
    result of four advisors that all agree, which counts as no agreement. *)
Lemma analyze_consensus_counts_witness :
  exists st,
    _analyze_consensus
      [outcome 1 [("claude", "a"); ("grok", "a"); ("deepseek", "A")] "a" true;
       outcome 2 [("claude", "a"); ("grok", "b"); ("deepseek", "a")] "a" false;
       outcome 3 [("claude", "a"); ("grok", "b"); ("deepseek", "c")] "a" true;
       outcome 4 [("claude", "a"); ("grok", "a"); ("deepseek", "a"); ("gemini", "a")]
               "a" true] = Ok st /\
    (count (total st), count (parcial st), count (sin_acuerdo st)) = (1, 1, 2)%nat /\
    (correct (total st), correct (parcial st), correct (sin_acuerdo st)) = (1, 0, 2)%nat.
Proof.
  destruct (analyze_consensus_counts
      [outcome 1 [("claude", "a"); ("grok", "a"); ("deepseek", "A")] "a" true;
       outcome 2 [("claude", "a"); ("grok", "b"); ("deepseek", "a")] "a" false;
       outcome 3 [("claude", "a"); ("grok", "b"); ("deepseek", "c")] "a" true;
       outcome 4 [("claude", "a"); ("grok", "a"); ("deepseek", "a"); ("gemini", "a")]
               "a" true])
    as (st & Hst & Hl & _).
  - repeat constructor; discriminate.
  - exists st. split; [exact Hst|].
    destruct (Hl Acuerdo_total) as (H1 & K1 & _), (Hl Acuerdo_parcial) as (H2 & K2 & _),
      (Hl Sin_acuerdo) as (H3 & K3 & _).
    cbn [bucket] in *. rewrite H1, H2, H3, K1, K2, K3. split; reflexivity.
Defined.

(** A recorded result without advisors makes the consensus report raise:
    its most common answer does not exist.  No report is produced,
    whatever the other results are. *)
Theorem analyze_consensus_needs_advisors (rs : list Result) :
  Exists (fun r => advisors r = []) rs ->
  _analyze_consensus rs = Raise (IndexError "list index out of range").
Proof.
  unfold _analyze_consensus. generalize
    {| total := {| count := 0; correct := 0 |};
       parcial := {| count := 0; correct := 0 |};
       sin_acuerdo := {| count := 0; correct := 0 |} |} as st0.
  induction rs as [|r rs IH]; intros st0 Hex.
  - apply Exists_nil in Hex. contradiction.
  - cbn [analyze_from]. destruct (advisors r) as [|a l] eqn:Ha.
    + unfold consensus_of, advisor_answers. rewrite Ha. reflexivity.
    + apply Exists_cons in Hex as [Hr|Hex]; [congruence|].
      rewrite (consensus_of_max_freq r) by congruence. cbn [mbind result_bind].
      apply IH, Hex.
Qed.

Lemma analyze_consensus_needs_advisors_witness :
  _analyze_consensus
    [outcome 1 [("claude", "a"); ("grok", "a")] "a" true; outcome 2 [] "a" true]
  = Raise (IndexError "list index out of range").
Proof.
  apply analyze_consensus_needs_advisors. right. left. reflexivity.
Defined.

(** ** The answer extractor of the post-processing *)

Lemma caps_said (labels : list string) (cap g : string) :
  caps (seq [alt (map lit labels); spaces; Opt quote; letter; Opt quote]) cap g ->
  one_letter g.
Proof.
  intros (m1 & _ & m2 & _ & m3 & _ & m4 & Hl & m5 & Hq & ->).
  apply caps_opt_quote in Hq as ->. exact Hl.
Qed.

Lemma caps_leading (cap g : string) :
  caps (seq [Bol; Opt quote; letter; Opt quote]) cap g -> one_letter g.
Proof.
  intros (m1 & _ & m2 & _ & m3 & Hl & m4 & Hq & ->).
  apply caps_opt_quote in Hq as ->. exact Hl.
Qed.

Lemma first_match_text_one_letter (s g : string) :
  first_match text_patterns s = Some g -> one_letter g.
Proof.
  unfold text_patterns. cbn [first_match]. unfold search.
  repeat match goal with
         | |- match search_from ?p 0 s with _ => _ end = _ -> _ =>
             let H := fresh "H" in
             destruct (search_from p 0 s) eqn:H;
             [intros [= <-]; apply search_caps in H;
              first [apply caps_labelled in H | apply caps_quoted in H
                    | apply caps_said in H | apply caps_leading in H]; exact H |]
         end.
  discriminate.
Qed.

Lemma extract_answer_canonical (text : string) :
  canonical_or_empty (extract_answer_from_text text).
Proof.
  unfold extract_answer_from_text, canonical_or_empty.
  destruct (first_match text_patterns (lower text)) as [g|] eqn:Hm.
  - apply first_match_text_one_letter in Hm as (c & Hc & ->). right.
    apply a_to_d_letters, Hc.
  - destruct (first_abcd (lower text)) as [c|] eqn:Hs; [|left; reflexivity].
    right. apply abcd_letters, (first_abcd_letter _ _ Hs).
Qed.

Lemma scan_data_keys_canonical (key : string) (items : dict json) (a : string) :
  scan_data_keys key items = Some a -> canonical_or_empty a.
Proof.
  induction items as [|[data_key answer] items IH]; cbn [scan_data_keys];
    [discriminate|].
  destruct (contains (lower data_key) (lower key)); [|exact IH].
  destruct answer as [| | | |[|c s]| |]; try exact IH.
  destruct (char_in (lower_char c) "abcd") eqn:Hc; intros [= <-].
  - right. apply abcd_letters, Hc.
  - apply extract_answer_canonical.
Qed.

Lemma scan_possible_keys_canonical (keys : list string) (items : dict json) (a : string) :
  scan_possible_keys keys items = Some a -> canonical_or_empty a.
Proof.
  induction keys as [|key keys IH]; cbn [scan_possible_keys]; [discriminate|].
  destruct (scan_data_keys key items) as [a'|] eqn:Hk; [|exact IH].
  intros [= <-]. apply (scan_data_keys_canonical _ _ _ Hk).
Qed.

(** Whatever the text and however the object is written back to text, an
    answer of [parse_json_response] is one of the four letters or empty;
    and the function raises exactly on a text that decodes to a value that
    is not an object, for which it raises the error of the missing method
    [keys]. *)
Theorem parse_json_response_outcome (json_dumps : json -> string) (response : string) :
  (forall a, parse_json_response json_dumps response = Ok a -> canonical_or_empty a) /\
  (forall e, parse_json_response json_dumps response = Raise e ->
     exists data,
       loads response = Some data /\
       (forall items, data <> JObject items) /\
       e = AttributeError ("'" ++ type_name data ++ "' object has no attribute 'keys'")) /\
  (forall data, loads response = Some data -> (forall items, data <> JObject items) ->
     parse_json_response json_dumps response
     = Raise (AttributeError ("'" ++ type_name data ++ "' object has no attribute 'keys'"))).
Proof.
  unfold parse_json_response.
  destruct (loads response) as [data|].
  - destruct data as [| | | | | |items];
      try (split; [discriminate|]; split;
           [intros e [= <-]; eexists; split; [reflexivity|];
            split; [intros ?; discriminate | reflexivity]
           |intros data [= <-] _; reflexivity]).
    split; [|split].
    + intros a. destruct (scan_possible_keys possible_keys items) as [a'|] eqn:Hk.
      * intros [= <-]. apply (scan_possible_keys_canonical _ _ _ Hk).
      * intros [= <-]. apply extract_answer_canonical.
    + intros e. destruct (scan_possible_keys possible_keys items); discriminate.
    + intros data [= <-] Hnot. exfalso. apply (Hnot items). reflexivity.
  - split; [|split].
    + intros a [= <-]. apply extract_answer_canonical.
    + discriminate.
    + discriminate.
Qed.

(** A long answer under an answer key, of which the first character
    decides; a text that is a number; a text that is a list. *)
Example parse_json_response_examples :
  parse_json_response (fun _ => "") (dq "{'Respuesta': 'Creo que es la B'}") = Ok "c" /\
  parse_json_response (fun _ => "") "42"
  = Raise (AttributeError "'int' object has no attribute 'keys'") /\
  parse_json_response (fun _ => "") (dq "['a']")
  = Raise (AttributeError "'list' object has no attribute 'keys'").
Proof. vm_compute. split; [|split]; reflexivity. Qed.

(** ** The last pattern of the post-processing *)

Lemma is_a_to_d_abcd (c : ascii) : is_a_to_d c = char_in c "abcd".
Proof. destruct c as [[] [] [] [] [] [] [] []]; reflexivity. Qed.

Lemma quote_not_letter (c : ascii) : is_quote c = true -> char_in c "abcd" = false.
Proof. destruct c as [[] [] [] [] [] [] [] []]; intros H; try discriminate H; reflexivity. Qed.

(** Where the pattern matches, the scan finds the same letter. *)
Lemma leading_letter_at_start (tail : regex) (s g : string) :
  no_group tail ->
  match_at (leading_letter tail) 0 s = Some g ->
  exists c, first_abcd s = Some c /\ g = String c "".
Proof.
  intros Htail. unfold match_at, leading_letter. cbn [go Nat.eqb].
  intros H. apply orelse_some in H as [H|H].
  - unfold quote in H. cbn [go] in H.
    destruct s as [|a s]; [discriminate H|].
    destruct (is_quote a) eqn:Ha; [|discriminate H].
    unfold letter in H. cbn [go] in H.
    destruct s as [|b s]; [discriminate H|].
    destruct (is_a_to_d b) eqn:Hb; [|discriminate H].
    apply go_caps in H as (i' & s' & cap' & [= <-] & Hcap).
    apply Htail in Hcap as ->.
    exists b. cbn [first_abcd]. rewrite (quote_not_letter a Ha), <- is_a_to_d_abcd, Hb.
    split; [reflexivity|]. simpl. destruct s; reflexivity.
  - unfold letter in H. cbn [go] in H.
    destruct s as [|a s]; [discriminate H|].
    destruct (is_a_to_d a) eqn:Ha; [|discriminate H].
    apply go_caps in H as (i' & s' & cap' & [= <-] & Hcap).
    apply Htail in Hcap as ->.
    exists a. cbn [first_abcd]. rewrite <- is_a_to_d_abcd, Ha.
    split; [reflexivity|]. simpl. destruct s; reflexivity.
Qed.

Lemma leading_letter_later (tail : regex) (s : string) :
  forall i, search_from (leading_letter tail) (S i) s = None.
Proof.
  induction s as [|a s IH]; intros i; cbn [search_from].
  - reflexivity.
  - rewrite IH. reflexivity.
Qed.

Lemma search_leading_letter (tail : regex) (s g : string) :
  no_group tail ->
  search (leading_letter tail) s = Some g ->
  exists c, first_abcd s = Some c /\ g = String c "".
Proof.
  intros Htail. unfold search. destruct s as [|a s]; cbn [search_from]; intros H.
  - apply orelse_some in H as [H|H]; [|discriminate H].
    apply (leading_letter_at_start tail _ _ Htail H).
  - rewrite leading_letter_later in H.
    apply orelse_some in H as [H|H]; [|discriminate H].
    apply (leading_letter_at_start tail _ _ Htail H).
Qed.

Lemma first_match_app (ps : list regex) (p : regex) (s : string) :
  first_match (ps ++ [p])%list s
  = match first_match ps s with
    | Some g => Some g
    | None => search p s
    end.
Proof.
  induction ps as [|p' ps IH]; cbn [app first_match].
  - destruct (search p s); reflexivity.
  - destruct (search p' s); [reflexivity | exact IH].
Qed.

Lemma answer_by_leading_letter (ps : list regex) (tail : regex) (text : string) :
  no_group tail ->
  answer_by (ps ++ [leading_letter tail])%list text = answer_by ps text.
Proof.
  intros Htail. unfold answer_by. rewrite first_match_app.
  destruct (first_match ps (lower text)) as [g|]; [reflexivity|].
  destruct (search (leading_letter tail) (lower text)) as [g|] eqn:Hs; [|reflexivity].
  apply (search_leading_letter tail _ _ Htail) in Hs as (c & -> & ->). reflexivity.
Qed.

(** The last of the seven patterns, the letter at the start of the text,
    never decides: the answer is that of the first six patterns followed by
    the scan for the first letter.  The same holds however the pattern goes
    on after the letter, as long as what follows has no group. *)
Theorem extract_answer_last_pattern_idle (text : string) :
  extract_answer_from_text text = answer_by (firstn 6 text_patterns) text /\
  forall tail, no_group tail ->
    answer_by (firstn 6 text_patterns ++ [leading_letter tail])%list text
    = extract_answer_from_text text.
Proof.
  assert (H : forall tail, no_group tail ->
            answer_by (firstn 6 text_patterns ++ [leading_letter tail])%list text
            = answer_by (firstn 6 text_patterns) text).
  { intros tail Htail. apply answer_by_leading_letter, Htail. }
  assert (Hown : extract_answer_from_text text = answer_by (firstn 6 text_patterns) text).
  { rewrite <- (H (Seq (Opt quote) Eps)).
    - reflexivity.
    - intros cap cap' (m & Hq & ->). apply caps_opt_quote in Hq. exact Hq. }
  split; [exact Hown|]. intros tail Htail. rewrite Hown. apply H, Htail.
Qed.

(** The pattern with an end of text after the closing quote. *)
Example extract_answer_anchored :
  answer_by (firstn 6 text_patterns ++ [leading_letter (Seq (Opt quote) (Seq Eol Eps))])%list
            "B y no la A"
  = extract_answer_from_text "B y no la A".
Proof. vm_compute. reflexivity. Qed.

(** ** The prompt of an advisor *)

(** For a template whose literal parts open no slot, the prompt of an
    advisor is the template with every question slot filled by the
    question, whatever the question holds; every other slot is left as it
    is written.  A template without the slot gives the same prompt for
    every question. *)
Theorem advisor_prompt_filled (segs : list segment) (question : string) :
  Forall (fun seg => segment_ok seg = true) segs ->
  get_advisor_prompt (render segs) question = render (fill "question" question segs) /\
  (Slot "question" ∈ segs ->
     exists pre post, get_advisor_prompt (render segs) question = pre ++ question ++ post) /\
  (Slot "question" ∉ segs -> get_advisor_prompt (render segs) question = render segs).
Proof.
  intros Hok.
  assert (Hprompt : get_advisor_prompt (render segs) question
                    = render (fill "question" question segs)).
  { unfold get_advisor_prompt. change "{question}" with (slot "question").
    apply replace_render; [reflexivity | exact Hok]. }
  split; [exact Hprompt|]. rewrite Hprompt. split.
  - intros Hin. apply render_embeds, fill_fills, Hin.
  - intros Hnot. f_equal. clear Hprompt Hok.
    induction segs as [|seg segs IH]; [reflexivity|].
    apply not_elem_of_cons in Hnot as [Hseg Hnot].
    cbn [fill map]. fold (fill "question" question segs). rewrite (IH Hnot).
    destruct seg as [text|n]; [reflexivity|].
    destruct (String.eqb_spec n "question") as [->|_]; [congruence | reflexivity].
Qed.

Lemma advisor_prompt_filled_witness :
  get_advisor_prompt "Responda en JSON. Pregunta: {question} Imagen: {image}" "{x}"
  = "Responda en JSON. Pregunta: {x} Imagen: {image}".
Proof.
  destruct (advisor_prompt_filled
              [Lit "Responda en JSON. Pregunta: "; Slot "question"; Lit " Imagen: ";
               Slot "image"] "{x}") as [Hprompt _].
  - repeat constructor.
  - exact Hprompt.
Defined.

(** ** Slots inside the question and the replies *)

Lemma render_single (seg : segment) : render [seg] = render_segment seg.
Proof.
  cbn [render fold_right]. induction (render_segment seg) as [|c s IH]; [reflexivity|].
  cbn [append]. rewrite IH. reflexivity.
Qed.

Lemma render_splice (name : string) (inner segs : list segment) :
  render (fill name (render inner) segs) = render (splice name inner segs).
Proof.
  induction segs as [|seg segs IH]; [reflexivity|].
  cbn [fill map splice flat_map]. fold (fill name (render inner) segs).
  fold (splice name inner segs). rewrite render_cons, render_app, IH.
  destruct seg as [text|n]; [rewrite render_single; reflexivity|].
  destruct (String.eqb n name); [reflexivity|].
  rewrite render_single. reflexivity.
Qed.

Lemma splice_ok (name : string) (inner segs : list segment) :
  Forall (fun seg => segment_ok seg = true) inner ->
  Forall (fun seg => segment_ok seg = true) segs ->
  Forall (fun seg => segment_ok seg = true) (splice name inner segs).
Proof.
  intros Hinner Hok. induction Hok as [|seg segs Hseg Hok IH]; [constructor|].
  cbn [splice flat_map]. apply Forall_app. split; [|exact IH].
  destruct seg as [text|n]; [repeat constructor; exact Hseg|].
  destruct (String.eqb n name); [exact Hinner | repeat constructor; exact Hseg].
Qed.

(** The four replacements are made one after the other, so a slot name
    written in the question, or in the reply of an earlier advisor, is
    filled as if the template had it: for a question and replies of claude
    and grok given by their parts, the prompt is the template with the
    parts of the question in place of the question slot, then those of
    claude's reply in place of every claude slot, then those of grok's,
    and at last deepseek's reply in place of every deepseek slot. *)
Theorem decision_prompt_nested_slots (segs question_parts claude_parts grok_parts : list segment)
    (advisor_responses : dict advisor_reply) (deepseek_response : string) :
  Forall (fun seg => segment_ok seg = true) segs ->
  Forall (fun seg => segment_ok seg = true) question_parts ->
  Forall (fun seg => segment_ok seg = true) claude_parts ->
  Forall (fun seg => segment_ok seg = true) grok_parts ->
  raw_or_placeholder advisor_responses "claude" = Some (render claude_parts) ->
  raw_or_placeholder advisor_responses "grok" = Some (render grok_parts) ->
  raw_or_placeholder advisor_responses "deepseek" = Some deepseek_response ->
  decision_prompt (render segs) (render question_parts) advisor_responses
  = Ok (render (fill "deepseek_response" deepseek_response
                 (splice "grok_response" grok_parts
                   (splice "claude_response" claude_parts
                     (splice "question" question_parts segs))))).
Proof.
  intros Hok Hq Hc Hg Hclaude Hgrok Hdeepseek.
  unfold decision_prompt, get_decision_prompt. rewrite Hclaude, Hgrok, Hdeepseek.
  cbn [replace_value mbind result_bind].
  change "{question}" with (slot "question").
  change "{claude_response}" with (slot "claude_response").
  change "{grok_response}" with (slot "grok_response").
  change "{deepseek_response}" with (slot "deepseek_response").
  rewrite (replace_render "question" _ segs eq_refl Hok), render_splice.
  pose proof (splice_ok "question" _ _ Hq Hok) as Hok1.
  rewrite (replace_render "claude_response" _ _ eq_refl Hok1), render_splice.
  pose proof (splice_ok "claude_response" _ _ Hc Hok1) as Hok2.
  rewrite (replace_render "grok_response" _ _ eq_refl Hok2), render_splice.
  pose proof (splice_ok "grok_response" _ _ Hg Hok2) as Hok3.
  rewrite (replace_render "deepseek_response" _ _ eq_refl Hok3). reflexivity.
Qed.

(** A question that names the slot of grok, and a reply of claude that
    names the slot of deepseek. *)
Lemma decision_prompt_nested_slots_witness :
  decision_prompt (render example_template) "q {grok_response}"
    [("claude", replied "a {deepseek_response}"); ("grok", replied "b");
     ("deepseek", replied "c")]
  = Ok "Pregunta: q b | Claude: a c | Grok: b | DeepSeek: c |".
Proof.
  refine (eq_trans
            (decision_prompt_nested_slots example_template
               [Lit "q "; Slot "grok_response"] [Lit "a "; Slot "deepseek_response"]
               [Lit "b"]
               [("claude", replied "a {deepseek_response}"); ("grok", replied "b");
                ("deepseek", replied "c")] "c" _ _ _ _ _ _ _) _).
  - repeat constructor.
  - repeat constructor.
  - repeat constructor.
  - repeat constructor.
  - reflexivity.
  - reflexivity.
  - reflexivity.
  - reflexivity.
Defined.

(** ** The image check *)

(** With the default limit of 4.5 megabytes an image is valid exactly when
    the file exists and holds at most 4718592 bytes; and the size that
    [check_image_size] reports for a file that exists is its number of
    bytes over 1048576. *)
Theorem is_valid_image_default (exists_ : string -> bool) (getsize : string -> Z)
    (image_path : string) :
  (is_valid_image exists_ getsize image_path default_max_size_mb = true
   <-> exists_ image_path = true /\ (getsize image_path <= 4718592)%Z) /\
  (exists_ image_path = true ->
   (snd (check_image_size exists_ getsize image_path default_max_size_mb)
      * inject_Z 1048576 == inject_Z (getsize image_path))%Q) /\
  (exists_ image_path = false ->
   check_image_size exists_ getsize image_path default_max_size_mb = (false, 0%Q)).
Proof.
  unfold is_valid_image, check_image_size.
  change (1024 * 1024)%Z with 1048576%Z.
  destruct (exists_ image_path); cbn [negb fst snd].
  - split; [|split; [|discriminate]].
    + rewrite Qle_bool_iff. unfold default_max_size_mb, Qle, Qdiv, Qmult, Qinv, inject_Z.
      cbn. split; [intros H; split; [reflexivity | lia] | intros [_ H]; lia].
    + intros _. unfold Qeq, Qdiv, Qmult, Qinv, inject_Z. cbn. lia.
  - split; [|split; [discriminate | reflexivity]].
    split; [discriminate | intros [H _]; discriminate H].
Qed.

Example is_valid_image_examples :
  is_valid_image (fun _ => true) (fun _ => 4718592%Z) "f.jpg" default_max_size_mb = true /\
  is_valid_image (fun _ => true) (fun _ => 4718593%Z) "f.jpg" default_max_size_mb = false /\
  is_valid_image (fun _ => false) (fun _ => 1%Z) "f.jpg" default_max_size_mb = false.
Proof. vm_compute. split; [|split]; reflexivity. Qed.

(** ** A negative sample size *)

Lemma filter_sublist {A} (p : A -> bool) (l : list A) : sublist (List.filter p l) l.
Proof.
  induction l as [|a l IH]; cbn [List.filter]; [constructor|].
  destruct (p a); [apply sublist_skip | apply sublist_cons]; exact IH.
Qed.

Lemma firstn_sublist {A} (n : nat) (l : list A) : sublist (firstn n l) l.
Proof. apply sublist_take. Qed.

(** Whatever the sample size and the resume point, the questions of a run
    are questions of the data set, each at most once and in the order of
    the data set, and with a resume point all of them have an identity of
    at least that point.  A negative sample size leaves out the last
    questions of the data set, as many as its absolute value, and all of
    them when the data set has no more than that. *)
Theorem select_questions_sublist (df : list question) (sample_size resume_from : option Z) :
  sublist (select_questions df sample_size resume_from) df /\
  (forall r q, resume_from = Some r ->
     q ∈ select_questions df sample_size resume_from -> (r <= question_id q)%Z) /\
  (forall n, sample_size = Some n -> (n < 0)%Z ->
     select_questions df sample_size None
     = firstn (length df - Z.to_nat (- n)) df).
Proof.
  split; [|split].
  - unfold select_questions.
    assert (Hs : sublist
              match sample_size with
              | Some n =>
                  if negb (n =? 0)%Z && (n <? Z.of_nat (length df))%Z
                  then iloc_to n df else df
              | None => df
              end df).
    { destruct sample_size as [n|]; [|reflexivity].
      destruct (negb (n =? 0)%Z && (n <? Z.of_nat (length df))%Z); [|reflexivity].
      unfold iloc_to. destruct (0 <=? n)%Z; apply firstn_sublist. }
    destruct resume_from as [r|]; [|exact Hs].
    etransitivity; [apply filter_sublist | exact Hs].
  - intros r q -> Hq. unfold select_questions in Hq.
    apply list_elem_of_In, filter_In in Hq as [_ Hq]. lia.
  - intros n -> Hn. unfold select_questions.
    destruct (Z.eqb_spec n 0) as [->|_]; [lia|].
    destruct (Z.ltb_spec n (Z.of_nat (length df))) as [_|Hge]; [|lia].
    cbn [negb andb]. unfold iloc_to.
    destruct (Z.leb_spec 0 n) as [Hpos|_]; [lia|].
    f_equal. lia.
Qed.

(** Five questions and a sample size of minus two; of minus seven. *)
Example select_questions_negative_sample :
  select_questions (numbered [1; 2; 3; 4; 5]%Z) (Some (-2)%Z) None = numbered [1; 2; 3]%Z /\
  select_questions (numbered [1; 2; 3; 4; 5]%Z) (Some (-7)%Z) None = [].
Proof. split; reflexivity. Qed.

(** ** The analysis by category *)

Lemma char_in_count (c : ascii) (s : string) :
  char_in c s = false <-> count_char c s = 0%nat.
Proof.
  induction s as [|a s IH]; [split; reflexivity|].
  rewrite char_in_cons. cbn [count_char].
  destruct (Ascii.eqb a c); cbn [orb]; [split; [discriminate | lia]|].
  rewrite IH. reflexivity.
Qed.

Lemma count_char_app (c : ascii) (s t : string) :
  count_char c (s ++ t) = (count_char c s + count_char c t)%nat.
Proof.
  induction s as [|a s IH]; cbn [append count_char]; [reflexivity|].
  rewrite IH. lia.
Qed.

Lemma split_length (sep : ascii) (s : string) :
  length (split sep s) = S (count_char sep s).
Proof.
  induction s as [|a s IH]; [reflexivity|]. cbn [split count_char].
  destruct (Ascii.eqb a sep); cbn [length]; [rewrite IH; lia|].
  destruct (split sep s) as [|p ps]; [discriminate IH|]. cbn [length] in *. lia.
Qed.

Lemma split_clean (sep : ascii) (s : string) :
  char_in sep s = false -> split sep s = [s].
Proof.
  induction s as [|a s IH]; [reflexivity|]. rewrite char_in_cons. cbn [split].
  destruct (Ascii.eqb a sep); cbn [orb]; [discriminate|].
  intros H. rewrite (IH H). reflexivity.
Qed.

Lemma split_app (sep : ascii) (a b : string) :
  char_in sep a = false -> split sep (a ++ String sep b) = a :: split sep b.
Proof.
  induction a as [|c a IH]; cbn [append split].
  - intros _. rewrite Ascii.eqb_refl. reflexivity.
  - rewrite char_in_cons. destruct (Ascii.eqb c sep); cbn [orb]; [discriminate|].
    intros H. rewrite (IH H). reflexivity.
Qed.

(** A key is taken apart into its two categories when neither holds the
    separator, and into more than two parts otherwise. *)
Lemma split_joined (sep : ascii) (c1 c2 : string) :
  char_in sep c1 = false -> char_in sep c2 = false ->
  split sep (c1 ++ String sep c2) = [c1; c2].
Proof.
  intros H1 H2. rewrite (split_app sep c1 c2 H1), (split_clean sep c2 H2). reflexivity.
Qed.

Lemma split_joined_length (sep : ascii) (c1 c2 : string) :
  length (split sep (c1 ++ String sep c2))
  = (2 + count_char sep c1 + count_char sep c2)%nat.
Proof.
  rewrite split_length, count_char_app. cbn [count_char].
  rewrite Ascii.eqb_refl. lia.
Qed.

Lemma keys_dict_set {V} (d : dict V) (k : string) (v : V) :
  NoDup (dict_keys d) ->
  NoDup (dict_keys (dict_set d k v)) /\
  forall k', k' ∈ dict_keys (dict_set d k v) <-> k' = k \/ k' ∈ dict_keys d.
Proof.
  unfold dict_keys. induction d as [|[k0 v0] d IH]; simpl; intros Hnd.
  - split; [apply NoDup_singleton|].
    intros k'. rewrite list_elem_of_singleton, elem_of_nil. tauto.
  - apply NoDup_cons in Hnd as [Hk Hnd].
    destruct (String.eqb_spec k0 k) as [->|Hne]; simpl.
    + split; [apply NoDup_cons; split; assumption|].
      intros k'. rewrite elem_of_cons. tauto.
    + destruct (IH Hnd) as [IH1 IH2]. split.
      * apply NoDup_cons. split; [|exact IH1]. rewrite IH2. intros [->|Hin]; tauto.
      * intros k'. rewrite !elem_of_cons, IH2. tauto.
Qed.

Lemma keys_add_category (st : dict category_stat) (k : string) (hit : bool) :
  NoDup (dict_keys st) ->
  NoDup (dict_keys (add_category st k hit)) /\
  forall k', k' ∈ dict_keys (add_category st k hit) <-> k' = k \/ k' ∈ dict_keys st.
Proof. unfold add_category. apply keys_dict_set. Qed.

Lemma get_add_category (st : dict category_stat) (k k' : string) (hit : bool) :
  let zero := {| cs_total := 0; cs_correct := 0 |} in
  let s := default zero (dict_get st k') in
  let s' := default zero (dict_get (add_category st k hit) k') in
  cs_total s' = (cs_total s + if String.eqb k k' then 1 else 0)%nat /\
  cs_correct s' = (cs_correct s + if String.eqb k k' && hit then 1 else 0)%nat.
Proof.
  unfold add_category. destruct (String.eqb_spec k k') as [->|Hne].
  - rewrite dict_get_set_same. simpl. destruct hit; split; lia.
  - rewrite dict_get_set_other by congruence. simpl. split; lia.
Qed.

Lemma sum_add_category (st : dict category_stat) (k : string) (hit : bool) :
  list_sum (map (fun item => cs_total (snd item)) (add_category st k hit))
  = S (list_sum (map (fun item => cs_total (snd item)) st)).
Proof.
  unfold add_category. induction st as [|[k0 s0] st IH]; [reflexivity|].
  cbn [dict_get dict_set]. destruct (String.eqb k0 k).
  - simpl. lia.
  - simpl in *. rewrite IH. lia.
Qed.

Lemma category_stats_from (results : list categorized) :
  forall st0 : dict category_stat,
    let zero := {| cs_total := 0; cs_correct := 0 |} in
    let st :=
      fold_left
        (fun stats result =>
           add_category stats (category_1 result ++ "/" ++ category_2 result)
                        (is_correct (r_decision (cat_result result))))
        results st0 in
    NoDup (dict_keys st0) ->
    NoDup (dict_keys st) /\
    (forall k, k ∈ dict_keys st <->
               k ∈ dict_keys st0 \/ exists x, x ∈ results /\ category_key x = k) /\
    (forall k,
       let here := List.filter (fun x => String.eqb (category_key x) k) results in
       cs_total (default zero (dict_get st k))
       = (cs_total (default zero (dict_get st0 k)) + length here)%nat /\
       cs_correct (default zero (dict_get st k))
       = (cs_correct (default zero (dict_get st0 k)) + right_in here)%nat) /\
    list_sum (map (fun item => cs_total (snd item)) st)
    = (list_sum (map (fun item => cs_total (snd item)) st0) + length results)%nat.
Proof.
  induction results as [|x results IH]; intros st0 zero st Hnd; subst st zero; cbn [fold_left].
  - split; [exact Hnd|]. split.
    { intros k. split; [tauto|]. intros [H|(x & Hx & _)]; [exact H|].
      apply elem_of_nil in Hx. contradiction. }
    split; [|cbn [length]; lia].
    intros k. unfold right_in. cbn. split; lia.
  - fold (category_key x).
    destruct (keys_add_category st0 (category_key x)
                (is_correct (r_decision (cat_result x))) Hnd) as [Hnd1 Hkeys1].
    destruct (IH _ Hnd1) as (Hnd2 & Hkeys2 & Hget2 & Hsum2). cbv zeta in *.
    split; [exact Hnd2|]. split; [|split].
    + intros k. rewrite Hkeys2, Hkeys1. split.
      * intros [[->|H]|(y & Hy & Hk)].
        -- right. exists x. split; [left | reflexivity].
        -- left. exact H.
        -- right. exists y. split; [right; exact Hy | exact Hk].
      * intros [H|(y & Hy & Hk)]; [left; right; exact H|].
        apply elem_of_cons in Hy as [->|Hy]; [left; left; symmetry; exact Hk|].
        right. exists y. split; assumption.
    + intros k. destruct (Hget2 k) as [Ht Hc]. rewrite Ht, Hc.
      destruct (get_add_category st0 (category_key x) k
                  (is_correct (r_decision (cat_result x)))) as [Ht1 Hc1].
      cbv zeta in Ht1, Hc1. rewrite Ht1, Hc1. cbn [List.filter].
      unfold right_in.
      destruct (String.eqb (category_key x) k); cbn [andb List.filter length].
      * destruct (is_correct (r_decision (cat_result x))); cbn [length]; split; lia.
      * split; lia.
    + rewrite Hsum2, sum_add_category. cbn [length]. lia.
Qed.

Lemma category_stats_spec (results : list categorized) :
  let st := category_stats results in
  NoDup (dict_keys st) /\
  (forall k, k ∈ dict_keys st <-> exists x, x ∈ results /\ category_key x = k) /\
  (forall k,
     let here := List.filter (fun x => String.eqb (category_key x) k) results in
     cs_total (default {| cs_total := 0; cs_correct := 0 |} (dict_get st k)) = length here /\
     cs_correct (default {| cs_total := 0; cs_correct := 0 |} (dict_get st k))
     = right_in here) /\
  list_sum (map (fun item => cs_total (snd item)) st) = length results.
Proof.
  destruct (category_stats_from results [] (NoDup_nil_2 (A:=string)))
    as (Hnd & Hkeys & Hget & Hsum).
  cbv zeta in *. fold (category_stats results) in Hnd, Hkeys, Hget, Hsum.
  split; [exact Hnd|]. split; [|split].
  - intros k. rewrite Hkeys. split; [|tauto].
    intros [H|H]; [apply elem_of_nil in H; contradiction | exact H].
  - intros k. destruct (Hget k) as [Ht Hc]. rewrite Ht, Hc. split; reflexivity.
  - rewrite Hsum. reflexivity.
Qed.

Lemma category_analysis_unfold (results : list categorized) :
  results <> [] ->
  _generate_category_analysis results
  = (rows ← category_rows (category_stats results); Ok (Some rows)).
Proof. destruct results; [congruence | reflexivity]. Qed.

(** The rows of keys that all come apart in two. *)
Lemma category_rows_ok (st : dict category_stat) :
  (forall k, k ∈ dict_keys st ->
     exists c1 c2, k = c1 ++ "/" ++ c2 /\
                   char_in "/" c1 = false /\ char_in "/" c2 = false) ->
  exists rows,
    category_rows st = Ok rows /\
    Forall2 (fun item row =>
               fst item = categoria_1 row ++ "/" ++ categoria_2 row /\
               char_in "/" (categoria_1 row) = false /\
               char_in "/" (categoria_2 row) = false /\
               row_total row = cs_total (snd item) /\
               correctas row = cs_correct (snd item)) st rows.
Proof.
  unfold dict_keys. induction st as [|[k s] st IH]; intros Hkeys.
  - exists []. split; [reflexivity | constructor].
  - destruct IH as (rows & Hrows & Hall).
    { intros k' Hk'. apply Hkeys. right. exact Hk'. }
    destruct (Hkeys k) as (c1 & c2 & -> & H1 & H2); [left|].
    cbn [category_rows]. change ("/" ++ c2) with (String "/" c2).
    rewrite (split_joined "/" c1 c2 H1 H2), Hrows. cbn [mbind result_bind].
    eexists. split; [reflexivity|]. constructor; [|exact Hall].
    cbn [fst snd categoria_1 categoria_2 row_total correctas]. tauto.
Qed.

Lemma category_rows_parts (st : dict category_stat) (rows : list category_row) :
  category_rows st = Ok rows ->
  forall k, k ∈ dict_keys st -> length (split "/" k) = 2%nat.
Proof.
  unfold dict_keys. revert rows.
  induction st as [|[k s] st IH]; intros rows Hrows k' Hk'.
  - apply elem_of_nil in Hk'. contradiction.
  - cbn [category_rows] in Hrows.
    destruct (split "/" k) as [|p1 [|p2 [|p3 ps]]] eqn:Hk; try discriminate Hrows.
    destruct (category_rows st) as [rows'|e] eqn:Hst; [|discriminate Hrows].
    apply elem_of_cons in Hk' as [->|Hk'].
    + cbn [fst]. rewrite Hk. reflexivity.
    + apply (IH rows' eq_refl k' Hk').
Qed.

Lemma category_rows_error (st : dict category_stat) (e : exn) :
  category_rows st = Raise e -> exists msg, e = ValueError msg.
Proof.
  induction st as [|[k s] st IH]; [discriminate|]. cbn [category_rows].
  destruct (split "/" k) as [|p1 [|p2 [|p3 ps]]];
    try (intros [= <-]; eexists; reflexivity).
  destruct (category_rows st) as [rows'|e'] eqn:Hst; [discriminate|].
  intros [= <-]. apply IH. reflexivity.
Qed.

Lemma category_key_pair (x : categorized) (c1 c2 : string) :
  no_slash x = true -> char_in "/" c1 = false -> char_in "/" c2 = false ->
  String.eqb (category_key x) (c1 ++ "/" ++ c2)
  = String.eqb (category_1 x) c1 && String.eqb (category_2 x) c2.
Proof.
  unfold no_slash, category_key. intros Hx H1 H2.
  apply andb_true_iff in Hx as [Hx1 Hx2].
  apply negb_true_iff in Hx1, Hx2.
  destruct (String.eqb_spec (category_1 x) c1) as [->|Hne1].
  - destruct (String.eqb_spec (category_2 x) c2) as [->|Hne2].
    + apply String.eqb_refl.
    + apply String.eqb_neq. intros Heq. apply Hne2.
      apply (f_equal (split "/")) in Heq.
      change ("/" ++ category_2 x) with (String "/" (category_2 x)) in Heq.
      change ("/" ++ c2) with (String "/" c2) in Heq.
      rewrite !split_joined in Heq by assumption. congruence.
  - apply String.eqb_neq. intros Heq. apply Hne1.
    apply (f_equal (split "/")) in Heq.
    change ("/" ++ category_2 x) with (String "/" (category_2 x)) in Heq.
    change ("/" ++ c2) with (String "/" c2) in Heq.
    rewrite !split_joined in Heq by assumption. congruence.
Qed.

(** When no category of the results holds a slash, the analysis gives a
    table with one row for every pair of categories that occurs, in the
    order in which the pairs first occur: a row counts the results of its
    pair and those of them whose decision was correct, so the totals of the
    rows add up to the number of results. *)
Theorem category_analysis_table (results : list categorized) :
  results <> [] ->
  Forall (fun x => no_slash x = true) results ->
  exists rows,
    _generate_category_analysis results = Ok (Some rows) /\
    NoDup (map (fun row => (categoria_1 row, categoria_2 row)) rows) /\
    (forall x, x ∈ results ->
       exists row, row ∈ rows /\
         categoria_1 row = category_1 x /\ categoria_2 row = category_2 x) /\
    (forall row, row ∈ rows ->
       let here := in_category (categoria_1 row) (categoria_2 row) results in
       here <> [] /\ row_total row = length here /\ correctas row = right_in here) /\
    list_sum (map row_total rows) = length results.
Proof.
  intros Hne Hclean. rewrite (category_analysis_unfold results Hne).
  destruct (category_stats_spec results) as (Hnd & Hkeys & Hget & Hsum). cbv zeta in *.
  set (st := category_stats results) in *.
  rewrite Forall_forall in Hclean.
  assert (Hkey_clean : forall k, k ∈ dict_keys st ->
            exists c1 c2, k = c1 ++ "/" ++ c2 /\
                          char_in "/" c1 = false /\ char_in "/" c2 = false).
  { intros k Hk. apply Hkeys in Hk as (x & Hx & <-).
    exists (category_1 x), (category_2 x). split; [reflexivity|].
    specialize (Hclean x Hx). unfold no_slash in Hclean.
    apply andb_true_iff in Hclean as [H1 H2].
    apply negb_true_iff in H1, H2. split; assumption. }
  destruct (category_rows_ok st Hkey_clean) as (rows & Hrows & Hall).
  rewrite Hrows. cbn [mbind result_bind]. exists rows. split; [reflexivity|].
  assert (Hmap : map (fun row => categoria_1 row ++ "/" ++ categoria_2 row) rows
                 = dict_keys st).
  { unfold dict_keys. clear -Hall. induction Hall as [|item row st rows Hi _ IH];
      [reflexivity|]. cbn [map]. rewrite IH. destruct Hi as [-> _]. reflexivity. }
  assert (Hrow : forall row, row ∈ rows ->
            exists item, item ∈ st /\
              fst item = categoria_1 row ++ "/" ++ categoria_2 row /\
              char_in "/" (categoria_1 row) = false /\
              char_in "/" (categoria_2 row) = false /\
              row_total row = cs_total (snd item) /\
              correctas row = cs_correct (snd item)).
  { clear -Hall. induction Hall as [|item row st rows Hi _ IH]; intros r Hr.
    - apply elem_of_nil in Hr. contradiction.
    - apply elem_of_cons in Hr as [->|Hr].
      + exists item. split; [left | exact Hi].
      + destruct (IH r Hr) as (it & Hit & H). exists it. split; [right; exact Hit | exact H]. }
  split; [|split; [|split]].
  - apply (NoDup_fmap_1 (fun p : string * string => fst p ++ "/" ++ snd p)).
    change (NoDup (map (fun p : string * string => fst p ++ "/" ++ snd p)
                       (map (fun row => (categoria_1 row, categoria_2 row)) rows))).
    rewrite map_map. cbn [fst snd]. rewrite Hmap. exact Hnd.
  - intros x Hx.
    assert (Hk : category_key x ∈ dict_keys st).
    { apply Hkeys. exists x. split; [exact Hx | reflexivity]. }
    rewrite <- Hmap in Hk. apply list_elem_of_fmap in Hk as (row & Hk & Hrow_in).
    exists row. split; [exact Hrow_in|].
    destruct (Hrow row Hrow_in) as (_ & _ & _ & H1 & H2 & _).
    pose proof (category_key_pair x _ _ (Hclean x Hx) H1 H2) as Hpair.
    rewrite <- Hk, String.eqb_refl in Hpair. symmetry in Hpair.
    apply andb_true_iff in Hpair as [E1 E2].
    apply String.eqb_eq in E1, E2. split; congruence.
  - intros row Hrow_in. cbv zeta.
    destruct (Hrow row Hrow_in) as ([k s] & Hitem & Hk & H1 & H2 & Ht & Hc).
    cbn [fst snd] in *.
    destruct (Hget k) as [Htot Hcor].
    rewrite (elem_dict_get st k s Hnd Hitem) in Htot, Hcor.
    simpl default in Htot, Hcor.
    assert (Hsame : List.filter (fun x => String.eqb (category_key x) k) results
                    = in_category (categoria_1 row) (categoria_2 row) results).
    { unfold in_category. apply List.filter_ext_in. intros x Hx. rewrite Hk.
      apply category_key_pair; [|exact H1 | exact H2].
      apply Hclean, list_elem_of_In, Hx. }
    rewrite Hsame in Htot, Hcor. rewrite Ht, Hc, Htot, Hcor.
    split; [|split; reflexivity].
    assert (Hin : k ∈ dict_keys st).
    { apply (list_elem_of_fmap_2 fst) in Hitem. exact Hitem. }
    apply Hkeys in Hin as (x & Hx & Hkx).
    intros Hnil.
    assert (Hxin : x ∈ in_category (categoria_1 row) (categoria_2 row) results).
    { rewrite <- Hsame. apply list_elem_of_In, filter_In. split.
      - apply list_elem_of_In, Hx.
      - rewrite Hkx. apply String.eqb_refl. }
    rewrite Hnil in Hxin. apply elem_of_nil in Hxin. contradiction.
  - rewrite <- Hsum. clear -Hall.
    induction Hall as [|item row st rows Hi _ IH]; [reflexivity|].
    destruct Hi as (_ & _ & _ & Ht & _). simpl in *. rewrite IH, Ht. reflexivity.
Qed.

(** Three results in two pairs of categories. *)
Lemma category_analysis_table_witness :
  exists rows,
    _generate_category_analysis
      [in_categories "Anatomia" "Abdomen" true; in_categories "Anatomia" "Torax" false;
       in_categories "Anatomia" "Abdomen" false] = Ok (Some rows) /\
    map (fun row => (categoria_1 row, categoria_2 row, row_total row, correctas row)) rows
    = [("Anatomia", "Abdomen", 2%nat, 1%nat); ("Anatomia", "Torax", 1%nat, 0%nat)].
Proof.
  destruct (category_analysis_table
      [in_categories "Anatomia" "Abdomen" true; in_categories "Anatomia" "Torax" false;
       in_categories "Anatomia" "Abdomen" false]) as (rows & Hrows & _).
  - discriminate.
  - repeat constructor.
  - exists rows. split; [exact Hrows|].
    assert (H : Ok (Some rows)
                = _generate_category_analysis
                    [in_categories "Anatomia" "Abdomen" true;
                     in_categories "Anatomia" "Torax" false;
                     in_categories "Anatomia" "Abdomen" false]).
    { symmetry. exact Hrows. }
    vm_compute in H. injection H as ->. reflexivity.
Defined.

(** A category that holds a slash makes the analysis raise: the key of its
    results comes apart in more than two parts, and no table is written,
    whatever the other results are. *)
Theorem category_analysis_slash (results : list categorized) :
  Exists (fun x => no_slash x = false) results ->
  exists msg, _generate_category_analysis results = Raise (ValueError msg).
Proof.
  intros Hex.
  assert (Hne : results <> []).
  { intros ->. apply Exists_nil in Hex. contradiction. }
  rewrite (category_analysis_unfold results Hne).
  destruct (category_stats_spec results) as (_ & Hkeys & _). cbv zeta in *.
  set (st := category_stats results) in *.
  apply Exists_exists in Hex as (x & Hx & Hslash).
  assert (Hk : category_key x ∈ dict_keys st).
  { apply Hkeys. exists x. split; [exact Hx | reflexivity]. }
  destruct (category_rows st) as [rows|e] eqn:Hrows.
  - exfalso. pose proof (category_rows_parts st rows Hrows _ Hk) as Hlen.
    unfold category_key in Hlen.
    change ("/" ++ category_2 x) with (String "/" (category_2 x)) in Hlen.
    rewrite split_joined_length in Hlen.
    assert (H1 : count_char "/" (category_1 x) = 0%nat) by lia.
    assert (H2 : count_char "/" (category_2 x) = 0%nat) by lia.
    apply char_in_count in H1, H2. unfold no_slash in Hslash.
    rewrite H1, H2 in Hslash. discriminate Hslash.
  - destruct (category_rows_error st e Hrows) as [msg ->].
    exists msg. reflexivity.
Qed.

Lemma category_analysis_slash_witness :
  _generate_category_analysis
    [in_categories "Anatomia" "Abdomen" true; in_categories "Anatomia" "Cabeza/Cuello" true]
  = Raise (ValueError "too many values to unpack (expected 2)").
Proof.
  destruct (category_analysis_slash
    [in_categories "Anatomia" "Abdomen" true; in_categories "Anatomia" "Cabeza/Cuello" true])
    as [msg Hmsg].
  - right. left. reflexivity.
  - rewrite Hmsg.
    assert (H : Raise (ValueError msg)
                = _generate_category_analysis
                    [in_categories "Anatomia" "Abdomen" true;
                     in_categories "Anatomia" "Cabeza/Cuello" true]).
    { symmetry. exact Hmsg. }
    vm_compute in H. injection H as ->. reflexivity.
Defined.

(** ** The statistics by category of the post-processing *)

Lemma split_parts_clean (sep : ascii) (s : string) :
  Forall (fun part => char_in sep part = false) (split sep s).
Proof.
  induction s as [|a s IH]; [repeat constructor|]. cbn [split].
  destruct (Ascii.eqb a sep) eqn:Ha; [constructor; [reflexivity | exact IH]|].
  destruct (split sep s) as [|p ps]; [repeat constructor; rewrite char_in_cons, Ha; reflexivity|].
  apply Forall_cons in IH as [Hp Hps]. constructor; [|exact Hps].
  rewrite char_in_cons, Ha, Hp. reflexivity.
Qed.

Lemma categoria_stats_from (results : list answered) :
  forall st0 : dict category_stat,
    let zero := {| cs_total := 0; cs_correct := 0 |} in
    let st :=
      fold_left
        (fun stats r =>
           add_category stats (a_categoria_1 r ++ "_" ++ a_categoria_2 r)
                        (a_es_correcta r))
        results st0 in
    (forall x, x ∈ results -> categoria_key x ∈ dict_keys st) /\
    (forall k, k ∈ dict_keys st0 -> k ∈ dict_keys st) /\
    (forall k,
       cs_total (default zero (dict_get st k))
       = (cs_total (default zero (dict_get st0 k))
          + length (List.filter (fun x => String.eqb (categoria_key x) k) results))%nat) /\
    list_sum (map (fun item => cs_total (snd item)) st)
    = (list_sum (map (fun item => cs_total (snd item)) st0) + length results)%nat.
Proof.
  induction results as [|x results IH]; intros st0 zero st; subst st zero; cbn [fold_left].
  - split.
    { intros x Hx. apply elem_of_nil in Hx. contradiction. }
    split; [tauto|]. split; [intros k; cbn; lia | cbn [length]; lia].
  - fold (categoria_key x).
    destruct (IH (add_category st0 (categoria_key x) (a_es_correcta x)))
      as (Hin & Hkeep & Hget & Hsum). cbv zeta in *.
    assert (Hstep : forall k, k = categoria_key x \/ k ∈ dict_keys st0 ->
                      k ∈ dict_keys (add_category st0 (categoria_key x) (a_es_correcta x))).
    { intros k Hk. unfold add_category, dict_keys. clear -Hk.
      induction st0 as [|[k0 s0] st0 IHs]; cbn [dict_get dict_set map fst].
      - destruct Hk as [->|Hk]; [left | apply elem_of_nil in Hk; contradiction].
      - destruct (String.eqb_spec k0 (categoria_key x)) as [->|Hne]; cbn [map fst].
        + destruct Hk as [->|Hk]; [left | exact Hk].
        + destruct Hk as [->|Hk].
          * right. apply IHs. left. reflexivity.
          * unfold dict_keys in Hk. cbn [map fst] in Hk.
            apply elem_of_cons in Hk as [->|Hk]; [left|].
            right. apply IHs. right. exact Hk. }
    split; [|split; [|split]].
    + intros y Hy. apply elem_of_cons in Hy as [->|Hy].
      * apply Hkeep, Hstep. left. reflexivity.
      * apply Hin, Hy.
    + intros k Hk. apply Hkeep, Hstep. right. exact Hk.
    + intros k. rewrite Hget.
      destruct (get_add_category st0 (categoria_key x) k (a_es_correcta x)) as [Ht _].
      cbv zeta in Ht. rewrite Ht. cbn [List.filter].
      destruct (String.eqb (categoria_key x) k); cbn [length]; lia.
    + rewrite Hsum, sum_add_category. cbn [length]. lia.
Qed.

(** The rows of the statistics count every processed line once.  A row is
    labelled by the first two parts of its key, so no label holds an
    underscore: the lines of a pair of categories without underscores have
    a row under their categories, and the lines of a category with an
    underscore are counted in a row under other names. *)
Theorem stats_data_labels (results : list answered) :
  let rows := stats_data results in
  list_sum (map row_total rows) = length results /\
  (forall row, row ∈ rows ->
     char_in "_" (categoria_1 row) = false /\ char_in "_" (categoria_2 row) = false) /\
  (forall x, x ∈ results ->
     char_in "_" (a_categoria_1 x) = false -> char_in "_" (a_categoria_2 x) = false ->
     exists row, row ∈ rows /\
       categoria_1 row = a_categoria_1 x /\ categoria_2 row = a_categoria_2 x) /\
  (forall x, x ∈ results ->
     exists row, row ∈ rows /\
       categoria_1 row = nth 0 (split "_" (categoria_key x)) "Unknown" /\
       categoria_2 row = nth 1 (split "_" (categoria_key x)) "Unknown").
Proof.
  intros rows. subst rows. unfold stats_data.
  destruct (categoria_stats_from results []) as (Hin & _ & _ & Hsum).
  cbv zeta in *. fold (categoria_stats results) in Hin, Hsum.
  assert (Hrow : forall x, x ∈ results ->
            exists row,
              row ∈ map (fun '(key, stats) =>
                           let cat_parts := split "_" key in
                           {| categoria_1 := nth 0 cat_parts "Unknown";
                              categoria_2 := nth 1 cat_parts "Unknown";
                              row_total := cs_total stats;
                              correctas := cs_correct stats;
                              precision := category_accuracy stats |})
                        (categoria_stats results) /\
              categoria_1 row = nth 0 (split "_" (categoria_key x)) "Unknown" /\
              categoria_2 row = nth 1 (split "_" (categoria_key x)) "Unknown").
  { intros x Hx. specialize (Hin x Hx). unfold dict_keys in Hin.
    apply list_elem_of_fmap in Hin as ([k s] & Hk & Hitem). cbn [fst] in Hk.
    eexists. split.
    - apply list_elem_of_fmap. exists (k, s). split; [reflexivity | exact Hitem].
    - cbv zeta. cbn [categoria_1 categoria_2]. rewrite Hk. split; reflexivity. }
  split; [|split; [|split]].
  - change (list_sum (map (fun item : string * category_stat => cs_total (snd item)) [])
            + length results)%nat with (length results) in Hsum.
    rewrite <- Hsum, map_map. f_equal. apply map_ext. intros [k s]. reflexivity.
  - intros row Hrow_in. apply list_elem_of_fmap in Hrow_in as ([k s] & -> & _).
    cbv zeta. cbn [categoria_1 categoria_2].
    pose proof (split_parts_clean "_" k) as Hparts.
    rewrite List.Forall_forall in Hparts.
    split.
    + destruct (nth_in_or_default 0 (split "_" k) "Unknown") as [H | ->];
        [apply Hparts, H | reflexivity].
    + destruct (nth_in_or_default 1 (split "_" k) "Unknown") as [H | ->];
        [apply Hparts, H | reflexivity].
  - intros x Hx H1 H2. destruct (Hrow x Hx) as (row & Hrow_in & E1 & E2).
    exists row. split; [exact Hrow_in|]. rewrite E1, E2. unfold categoria_key.
    change ("_" ++ a_categoria_2 x) with (String "_" (a_categoria_2 x)).
    rewrite (split_joined "_" _ _ H1 H2). split; reflexivity.
  - exact Hrow.
Qed.

(** Two lines of different categories that share a key: one row, under a
    pair of names that is the pair of neither. *)
Example stats_data_merged :
  map (fun row => (categoria_1 row, categoria_2 row, row_total row, correctas row))
      (stats_data
         [{| a_categoria_1 := "Anatomia_Topografica"; a_categoria_2 := "Abdomen";
             a_es_correcta := true |};
          {| a_categoria_1 := "Anatomia"; a_categoria_2 := "Topografica_Abdomen";
             a_es_correcta := false |}])
  = [("Anatomia", "Topografica", 2%nat, 1%nat)].
Proof. reflexivity. Qed.

(** ** A reply between code-fence markers *)

Lemma replace_from_skip (old new x rest : string) :
  replace_from old new (String.length x) (x ++ rest) = replace_from old new 0 rest.
Proof.
  induction x as [|c x IH]; [reflexivity | exact IH].
Qed.

Lemma replace_from_here (c : ascii) (old' new rest : string) :
  replace_from (String c old') new 0 (String c old' ++ rest)
  = new ++ replace_from (String c old') new 0 rest.
Proof.
  pose proof (startswith_app (String c old') rest) as Hs.
  change (String c old' ++ rest) with (String c (old' ++ rest)) in Hs |- *.
  cbn [replace_from]. rewrite Hs. f_equal.
  change (String.length (String c old') - 1)%nat with (String.length old' - 0)%nat.
  rewrite Nat.sub_0_r. apply replace_from_skip.
Qed.

Lemma replace_from_pass (t : ascii) (old' new s rest : string) :
  char_in t s = false ->
  replace_from (String t old') new 0 (s ++ rest)
  = s ++ replace_from (String t old') new 0 rest.
Proof.
  induction s as [|c s IH]; intros Hs; [reflexivity|].
  rewrite char_in_cons in Hs. apply orb_false_elim in Hs as [Hc Hs].
  change (String c s ++ rest) with (String c (s ++ rest)).
  cbn [replace_from]. rewrite startswith_cons, Ascii.eqb_sym, Hc. cbn [andb].
  rewrite (IH Hs). reflexivity.
Qed.

Lemma contains_pass (t : ascii) (p' s rest : string) :
  char_in t s = false ->
  contains (s ++ rest) (String t p') = contains rest (String t p').
Proof.
  induction s as [|c s IH]; intros Hs; [reflexivity|].
  rewrite char_in_cons in Hs. apply orb_false_elim in Hs as [Hc Hs].
  change (String c s ++ rest) with (String c (s ++ rest)).
  cbn [contains]. rewrite startswith_cons, Ascii.eqb_sym, Hc. cbn [andb orb].
  apply IH, Hs.
Qed.

Lemma contains_cons (a : ascii) (s p : string) :
  contains (String a s) p = startswith (String a s) p || contains s p.
Proof. reflexivity. Qed.

Lemma contains_prefix (p rest : string) : contains (p ++ rest) p = true.
Proof.
  destruct p as [|c p]; [destruct rest; reflexivity|].
  change (String c p ++ rest) with (String c (p ++ rest)).
  cbn [contains]. change (String c (p ++ rest)) with (String c p ++ rest).
  rewrite startswith_app. reflexivity.
Qed.

Lemma blank_no_tick (s : string) : blank s = true -> char_in "`" s = false.
Proof.
  induction s as [|c s IH]; [reflexivity|]. cbn [blank]. rewrite char_in_cons.
  intros H. apply andb_prop in H as [Hc Hs]. rewrite (IH Hs), orb_false_r.
  destruct (Ascii.eqb_spec c "`") as [->|_]; [discriminate Hc | reflexivity].
Qed.

Lemma lstrip_blank (ws : string) (c : ascii) (s : string) :
  blank ws = true -> is_space c = false -> lstrip (ws ++ String c s) = String c s.
Proof.
  intros Hws Hc. induction ws as [|a ws IH]; cbn [append lstrip].
  - rewrite Hc. reflexivity.
  - cbn [blank] in Hws. apply andb_prop in Hws as [Ha Hws]. rewrite Ha. apply IH, Hws.
Qed.

Lemma rstrip_blank (ws : string) : blank ws = true -> rstrip ws = "".
Proof.
  induction ws as [|a ws IH]; [reflexivity|]. cbn [blank rstrip].
  intros H. apply andb_prop in H as [Ha Hws]. rewrite (IH Hws), Ha. reflexivity.
Qed.

Lemma rstrip_closed (s : string) (c : ascii) (ws : string) :
  blank ws = true -> is_space c = false ->
  rstrip (s ++ String c ws) = s ++ String c "".
Proof.
  intros Hws Hc. induction s as [|a s IH]; cbn [append rstrip].
  - rewrite (rstrip_blank ws Hws), Hc. reflexivity.
  - rewrite IH. destruct s; reflexivity.
Qed.

Lemma strip_padded (ws1 inner ws2 : string) :
  blank ws1 = true -> blank ws2 = true ->
  strip (ws1 ++ ("{" ++ inner ++ "}") ++ ws2) = "{" ++ inner ++ "}".
Proof.
  intros H1 H2. unfold strip.
  change (("{" ++ inner ++ "}") ++ ws2) with (String "{" ((inner ++ "}") ++ ws2)).
  rewrite (lstrip_blank ws1 "{" _ H1 eq_refl).
  rewrite append_assoc. change ("}" ++ ws2) with (String "}" ws2).
  change (String "{" (inner ++ String "}" ws2)) with (("{" ++ inner) ++ String "}" ws2).
  rewrite (rstrip_closed _ "}" ws2 H2 eq_refl). rewrite append_assoc. reflexivity.
Qed.

Lemma char_in_append (c : ascii) (s t : string) :
  char_in c (s ++ t) = char_in c s || char_in c t.
Proof.
  induction s as [|a s IH]; [reflexivity|].
  change (String a s ++ t) with (String a (s ++ t)).
  rewrite !char_in_cons, IH, orb_assoc. reflexivity.
Qed.

Lemma padded_no_tick (ws1 inner ws2 : string) :
  blank ws1 = true -> blank ws2 = true -> char_in "`" inner = false ->
  char_in "`" (ws1 ++ ("{" ++ inner ++ "}") ++ ws2) = false.
Proof.
  intros H1 H2 Hi. rewrite !char_in_append, (blank_no_tick _ H1), (blank_no_tick _ H2), Hi.
  reflexivity.
Qed.

(** The first character after the opening marker is not the first of the
    tag. *)
Lemma padded_head (ws1 inner ws2 rest : string) :
  blank ws1 = true ->
  exists c tail,
    (ws1 ++ ("{" ++ inner ++ "}") ++ ws2) ++ rest = String c tail /\
    Ascii.eqb "j" c = false /\ Ascii.eqb "`" c = false.
Proof.
  intros H1. destruct ws1 as [|c ws1].
  - eexists "{"%char, _. split; [reflexivity|]. split; reflexivity.
  - exists c. eexists. split; [reflexivity|].
    cbn [blank] in H1. apply andb_prop in H1 as [Hc _].
    split; [destruct (Ascii.eqb_spec "j" c) as [<-|_] | destruct (Ascii.eqb_spec "`" c) as [<-|_]];
      first [discriminate Hc | reflexivity].
Qed.

Lemma clean_fenced (tagged : bool) (ws1 inner ws2 : string) :
  blank ws1 = true -> blank ws2 = true -> char_in "`" inner = false ->
  clean_response (fenced tagged ws1 ("{" ++ inner ++ "}") ws2) = "{" ++ inner ++ "}".
Proof.
  intros H1 H2 Hi. pose proof (padded_no_tick ws1 inner ws2 H1 H2 Hi) as Htick.
  pose proof (strip_padded ws1 inner ws2 H1 H2) as Hstrip.
  unfold fenced, clean_response.
  assert (Hshape : forall mark,
            mark ++ ws1 ++ ("{" ++ inner ++ "}") ++ ws2 ++ fence
            = mark ++ (ws1 ++ ("{" ++ inner ++ "}") ++ ws2) ++ fence).
  { intros mark. rewrite !append_assoc. reflexivity. }
  rewrite Hshape. set (s := ws1 ++ ("{" ++ inner ++ "}") ++ ws2) in *.
  destruct tagged.
  - rewrite contains_prefix. unfold replace, json_fence, fence.
    rewrite replace_from_here. cbn [append].
    rewrite (replace_from_pass "`" _ "" s _ Htick).
    change (replace_from "```json" "" 0 "```") with "```".
    rewrite (replace_from_pass "`" _ "" s _ Htick).
    change (replace_from "```" "" 0 "```") with "".
    assert (Hnil : s ++ "" = s).
    { clear. induction s as [|c s IH]; [reflexivity|]. cbn [append]. rewrite IH. reflexivity. }
    rewrite Hnil. exact Hstrip.
  - assert (Hno : contains (fence ++ s ++ fence) json_fence = false).
    { destruct (padded_head ws1 inner ws2 fence H1) as (c & tail & Hs & Hj & Ht).
      fold s in Hs. pose proof (contains_pass "`" "``json" s fence Htick) as Hpass.
      rewrite Hs in Hpass |- *. unfold fence, json_fence in *.
      change ("```" ++ String c tail)
        with (String "`" (String "`" (String "`" (String c tail)))).
      rewrite 3 contains_cons, Hpass, !startswith_cons, Hj, Ht. reflexivity. }
    rewrite Hno, contains_prefix. unfold replace, fence.
    rewrite replace_from_here. cbn [append].
    rewrite (replace_from_pass "`" _ "" s _ Htick).
    change (replace_from "```" "" 0 "```") with "".
    assert (Hnil : s ++ "" = s).
    { clear. induction s as [|c s IH]; [reflexivity|]. cbn [append]. rewrite IH. reflexivity. }
    rewrite Hnil. exact Hstrip.
Qed.

Lemma clean_bare (inner : string) :
  char_in "`" inner = false ->
  clean_response ("{" ++ inner ++ "}") = "{" ++ inner ++ "}".
Proof.
  intros Hi. unfold clean_response, json_fence, fence.
  assert (Htick : char_in "`" ("{" ++ inner ++ "}") = false).
  { rewrite !char_in_append, Hi. reflexivity. }
  assert (Hnil : ("{" ++ inner ++ "}") ++ "" = "{" ++ inner ++ "}").
  { generalize ("{" ++ inner ++ "}") as s.
    induction s as [|c s IH]; [reflexivity|]. cbn [append]. rewrite IH. reflexivity. }
  assert (Hno : forall p', contains ("{" ++ inner ++ "}") (String "`" p') = false).
  { intros p'. rewrite <- Hnil. rewrite (contains_pass "`" p' _ "" Htick). reflexivity. }
  rewrite !Hno. reflexivity.
Qed.

(** A reply that is an object between code-fence markers, tagged json or
    not, with white space around the object and no backquote inside it, is
    cleaned to the object itself; and when the object holds a structured
    answer, the extractor gives the answer it gives for the bare object. *)
Theorem fenced_reply_as_bare (tagged : bool) (ws1 inner ws2 : string) :
  blank ws1 = true -> blank ws2 = true -> char_in "`" inner = false ->
  let body := "{" ++ inner ++ "}" in
  clean_response (fenced tagged ws1 body ws2) = body /\
  forall value justification,
    structured_answer body = Some (value, justification) ->
    _parse_response (fenced tagged ws1 body ws2) = Ok (normalise value, justification) /\
    _parse_response body = Ok (normalise value, justification).
Proof.
  intros H1 H2 Hi body.
  pose proof (clean_fenced tagged ws1 inner ws2 H1 H2 Hi) as Hclean.
  pose proof (clean_bare inner Hi) as Hbare. fold body in Hclean, Hbare.
  split; [exact Hclean|]. intros value justification Hs.
  unfold structured_answer in Hs. rewrite Hbare in Hs.
  assert (Hlive : forall response,
            response <> "" -> startswith response "Error:" = false ->
            clean_response response = body ->
            _parse_response response = Ok (normalise value, justification)).
  { intros response Hne Herr Hc. rewrite (parse_response_live response Hne Herr), Hc.
    destruct (loads body) as [[| | | | | |members]|]; try discriminate Hs.
    rewrite !first_key_object.
    destruct (first_present answer_keys members) as [[| | | |[|c a]| |]|];
      try discriminate Hs.
    injection Hs as <- <-. reflexivity. }
  split.
  - apply Hlive; [| |exact Hclean]; unfold fenced, fence, json_fence; destruct tagged;
      first [discriminate | reflexivity].
  - apply Hlive; [discriminate | reflexivity | exact Hbare].
Qed.

(** A tagged reply as the models write it, and the same object bare. *)
Lemma fenced_reply_as_bare_witness :
  _parse_response
    (fenced true (String (ascii_of_nat 10) "")
            (dq "{'Respuesta': 'B', 'Justificacion': 'x'}")
            (String (ascii_of_nat 10) ""))
  = Ok ("b", JString "x").
Proof.
  destruct (fenced_reply_as_bare true (String (ascii_of_nat 10) "")
              (dq "'Respuesta': 'B', 'Justificacion': 'x'")
              (String (ascii_of_nat 10) "")) as [_ H].
  - reflexivity.
  - reflexivity.
  - reflexivity.
  - destruct (H "B" (JString "x")) as [Hfenced _].
    + reflexivity.
    + exact Hfenced.
Defined.

(** ** The table of models in the summary report *)

Lemma dict_set_keys_present {V} (d : dict V) (k : string) (v : V) :
  k ∈ dict_keys d -> dict_keys (dict_set d k v) = dict_keys d.
Proof.
  unfold dict_keys. induction d as [|[k0 v0] d IH]; cbn [map fst dict_set]; intros Hk.
  - apply elem_of_nil in Hk. contradiction.
  - destruct (String.eqb_spec k0 k) as [->|Hne]; [reflexivity|].
    cbn [map fst]. f_equal. apply IH.
    apply elem_of_cons in Hk as [->|Hk]; [congruence | exact Hk].
Qed.

Lemma Forall_dict_set {V} (P : V -> Prop) (d : dict V) (k : string) (v : V) :
  Forall (fun item => P (snd item)) d -> P v ->
  Forall (fun item => P (snd item)) (dict_set d k v).
Proof.
  intros Hd Hv. induction Hd as [|[k0 v0] d H0 Hd IH]; cbn [dict_set].
  - repeat constructor. exact Hv.
  - destruct (String.eqb k0 k); constructor; assumption.
Qed.

Lemma update_stat_sound (ms : dict model_stat) (name : string) (hit : bool) (time : Q) :
  Forall (fun item => sound_stat (snd item)) ms ->
  Forall (fun item => sound_stat (snd item)) (update_stat ms name hit time).
Proof.
  intros Hms. unfold update_stat. apply Forall_dict_set; [exact Hms|].
  assert (Hs : (stat_correct (default no_stat (dict_get ms name))
                <= stat_total (default no_stat (dict_get ms name)))%nat).
  { destruct (dict_get ms name) as [s|] eqn:Hget; [|cbn; lia].
    apply dict_get_elem in Hget. rewrite Forall_forall in Hms.
    destruct (Hms _ Hget) as [_ H]. exact H. }
  unfold sound_stat. cbn [stat_total stat_correct]. destruct hit; lia.
Qed.

Lemma update_advisors_sound (result : Result) (items : dict advisor_reply) :
  forall ms : dict model_stat,
    Forall (fun item => sound_stat (snd item)) ms ->
    Forall (fun item => sound_stat (snd item))
      (fold_left
         (fun ms item => update_stat ms (fst item) (advisor_hit result (snd item))
                                     (processing_time (snd item)))
         items ms).
Proof.
  induction items as [|item items IH]; intros ms Hms; [exact Hms|].
  cbn [fold_left]. apply IH, update_stat_sound, Hms.
Qed.

Lemma log_result_sound (rs : list Result) :
  forall lg : logger,
    Forall (fun item => sound_stat (snd item)) (model_stats (stats lg)) ->
    Forall (fun item => sound_stat (snd item))
           (model_stats (stats (fold_left log_result rs lg))).
Proof.
  induction rs as [|r rs IH]; intros lg Hlg; [exact Hlg|].
  cbn [fold_left]. apply IH. unfold log_result. cbn [stats model_stats].
  apply update_stat_sound, update_advisors_sound, Hlg.
Qed.

Lemma update_stat_keys_known (ms : dict model_stat) (name : string) (hit : bool)
    (time : Q) :
  name ∈ dict_keys ms -> dict_keys (update_stat ms name hit time) = dict_keys ms.
Proof. intros Hin. unfold update_stat. apply dict_set_keys_present, Hin. Qed.

Lemma update_stat_keys_new (ms : dict model_stat) (name : string) (hit : bool)
    (time : Q) :
  name ∉ dict_keys ms ->
  dict_keys (update_stat ms name hit time) = (dict_keys ms ++ [name])%list.
Proof.
  intros Hnot. unfold update_stat. rewrite (dict_set_fresh ms name _ Hnot).
  unfold dict_keys. rewrite map_app. reflexivity.
Qed.

(** The advisors of a result whose names are all known leave the names of
    the statistics as they are; those of a first result add theirs in
    their order. *)
Lemma update_advisors_keys_known (result : Result) (items : dict advisor_reply) :
  forall ms : dict model_stat,
    (forall name, name ∈ dict_keys items -> name ∈ dict_keys ms) ->
    dict_keys
      (fold_left
         (fun ms item => update_stat ms (fst item) (advisor_hit result (snd item))
                                     (processing_time (snd item)))
         items ms)
    = dict_keys ms.
Proof.
  induction items as [|[name a] items IH]; intros ms Hknown; [reflexivity|].
  cbn [fold_left fst snd].
  assert (Hname : name ∈ dict_keys ms) by (apply Hknown; left).
  assert (Hkeys : dict_keys (update_stat ms name (advisor_hit result a) (processing_time a))
                  = dict_keys ms).
  { apply update_stat_keys_known, Hname. }
  rewrite IH; [exact Hkeys|].
  intros n Hn. rewrite Hkeys. apply Hknown. right. exact Hn.
Qed.

Lemma update_advisors_keys_new (result : Result) (items : dict advisor_reply) :
  forall ms : dict model_stat,
    NoDup (dict_keys ms ++ dict_keys items)%list ->
    dict_keys
      (fold_left
         (fun ms item => update_stat ms (fst item) (advisor_hit result (snd item))
                                     (processing_time (snd item)))
         items ms)
    = (dict_keys ms ++ dict_keys items)%list.
Proof.
  induction items as [|[name a] items IH]; intros ms Hnd.
  - cbn. rewrite app_nil_r. reflexivity.
  - cbn [fold_left fst snd].
    change (dict_keys ((name, a) :: items)) with (name :: dict_keys items) in Hnd |- *.
    assert (Hnew : name ∉ dict_keys ms).
    { apply NoDup_app in Hnd as (_ & Hdisj & _). intros Hin.
      apply (Hdisj name Hin). left. }
    assert (Hkeys : dict_keys (update_stat ms name (advisor_hit result a) (processing_time a))
                    = (dict_keys ms ++ [name])%list).
    { apply update_stat_keys_new, Hnew. }
    rewrite IH; rewrite Hkeys, <- app_assoc; [reflexivity|exact Hnd].
Qed.

Lemma log_result_keys_known (rs : list Result) :
  forall lg : logger,
    "decision" ∈ dict_keys (model_stats (stats lg)) ->
    (forall r name, r ∈ rs -> name ∈ dict_keys (advisors r) ->
                    name ∈ dict_keys (model_stats (stats lg))) ->
    dict_keys (model_stats (stats (fold_left log_result rs lg)))
    = dict_keys (model_stats (stats lg)).
Proof.
  induction rs as [|r rs IH]; intros lg Hdec Hknown; [reflexivity|].
  cbn [fold_left].
  assert (Hstep : dict_keys (model_stats (stats (log_result lg r)))
                  = dict_keys (model_stats (stats lg))).
  { unfold log_result. cbn [stats model_stats].
    assert (Hadv : forall name, name ∈ dict_keys (advisors r) ->
                     name ∈ dict_keys (model_stats (stats lg))).
    { intros name Hname. apply (Hknown r name); [left | exact Hname]. }
    rewrite update_stat_keys_known; rewrite (update_advisors_keys_known r _ _ Hadv);
      [reflexivity | exact Hdec]. }
  rewrite IH; [exact Hstep | rewrite Hstep; exact Hdec|].
  intros r' name Hr' Hname. rewrite Hstep. apply (Hknown r' name); [right|]; assumption.
Qed.

(** The table of models of the summary report has a row for every name of
    the statistics: no model is left out, every row has answered at least
    once and has no more correct answers than answers.  When the results
    all have the same advisors, under distinct names of which none is
    decision, the rows are the advisors in the order of the first result
    and then the decision model, so the number of rows, which the report
    prints as the number of models of a difficult question, is the number
    of models of every question. *)
Theorem model_report_rows (rs : list Result) :
  let lg := fold_left log_result rs new_logger in
  let report := model_accuracy (stats lg) in
  dict_keys report = dict_keys (model_stats (stats lg)) /\
  (forall name m, (name, m) ∈ report ->
     (1 <= mr_total m)%nat /\ (mr_correct m <= mr_total m)%nat) /\
  (forall r0 rest names,
     rs = r0 :: rest -> NoDup names -> "decision" ∉ names ->
     (forall r, r ∈ rs -> dict_keys (advisors r) ≡ₚ names) ->
     dict_keys report = (dict_keys (advisors r0) ++ ["decision"])%list /\
     forall r, r ∈ rs -> length report = total_models (difficulty_of r)).
Proof.
  intros lg report.
  assert (Hsound : Forall (fun item => sound_stat (snd item)) (model_stats (stats lg))).
  { apply log_result_sound. constructor. }
  assert (Hall : report = map (fun item =>
                   (fst item,
                    {| mr_correct := stat_correct (snd item);
                       mr_total := stat_total (snd item);
                       mr_accuracy :=
                         (inject_Z (Z.of_nat (stat_correct (snd item)))
                          / inject_Z (Z.of_nat (stat_total (snd item)))) * 100;
                       mr_avg_time :=
                         stat_time (snd item) / inject_Z (Z.of_nat (stat_total (snd item)))
                    |})) (model_stats (stats lg))).
  { subst report. unfold model_accuracy.
    induction Hsound as [|[name s] ms [Hs _] _ IH]; [reflexivity|].
    cbn [flat_map map fst snd] in *. rewrite IH.
    destruct (Nat.ltb_spec 0 (stat_total s)); [reflexivity | lia]. }
  assert (Hkeys : dict_keys report = dict_keys (model_stats (stats lg))).
  { rewrite Hall. unfold dict_keys. rewrite map_map. reflexivity. }
  split; [exact Hkeys|]. split.
  - intros name m Hin. rewrite Hall in Hin.
    apply list_elem_of_fmap in Hin as ([n s] & [= -> ->] & Hs).
    rewrite Forall_forall in Hsound. apply (Hsound _ Hs).
  - intros r0 rest names -> Hnd Hdec Hsame.
    assert (Hfirst : dict_keys (model_stats (stats (log_result new_logger r0)))
                     = (dict_keys (advisors r0) ++ ["decision"])%list).
    { unfold log_result. cbn [stats model_stats new_logger].
      assert (Hr0 : dict_keys (advisors r0) ≡ₚ names) by (apply Hsame; left).
      assert (Hnew : NoDup (dict_keys (@nil (string * model_stat))
                            ++ dict_keys (advisors r0))%list).
      { change (NoDup (dict_keys (advisors r0))). rewrite Hr0. exact Hnd. }
      rewrite update_stat_keys_new;
        rewrite (update_advisors_keys_new r0 (advisors r0) [] Hnew);
        [reflexivity|].
      change (dict_keys [] ++ dict_keys (advisors r0))%list with (dict_keys (advisors r0)).
      rewrite Hr0. exact Hdec. }
    assert (Hrows : dict_keys report = (dict_keys (advisors r0) ++ ["decision"])%list).
    { rewrite Hkeys. subst lg. cbn [fold_left]. rewrite log_result_keys_known.
      - exact Hfirst.
      - rewrite Hfirst. apply elem_of_app. right. left.
      - intros r name Hr Hname. rewrite Hfirst. apply elem_of_app. left.
        rewrite (Hsame r0) by left. rewrite <- (Hsame r); [exact Hname | right; exact Hr]. }
    split; [exact Hrows|]. intros r Hr.
    assert (Hlen : length report = length (dict_keys report)).
    { unfold dict_keys. rewrite length_map. reflexivity. }
    rewrite Hlen, Hrows, length_app. unfold difficulty_of. cbn [total_models length].
    unfold dict_keys at 1. rewrite length_map.
    assert (Hperm : dict_keys (advisors r0) ≡ₚ dict_keys (advisors r)).
    { rewrite (Hsame r0) by left. rewrite (Hsame r Hr). reflexivity. }
    apply Permutation_length in Hperm. unfold dict_keys in Hperm.
    rewrite !length_map in Hperm. lia.
Qed.

(** Two results whose advisors completed in different orders: the rows
    follow the first.  With an advisor under the name decision there are
    two rows for the three models of a question. *)
Example model_report_rows_examples :
  dict_keys (model_accuracy (stats (fold_left log_result
     [outcome 1 [("grok", "a"); ("claude", "b")] "a" true;
      outcome 2 [("claude", "a"); ("grok", "a")] "a" true] new_logger)))
  = ["grok"; "claude"; "decision"] /\
  dict_keys (model_accuracy (stats (fold_left log_result
     [outcome 1 [("claude", "a"); ("decision", "b")] "a" true] new_logger)))
  = ["claude"; "decision"].
Proof. split; reflexivity. Qed.

(** ** The properties at concrete inputs *)

(** Two results whose advisors completed in different orders: the rows of
    the table of models follow the first. *)
Lemma model_report_rows_witness :
  dict_keys (model_accuracy (stats (fold_left log_result
     [outcome 1 [("grok", "a"); ("claude", "b")] "a" true;
      outcome 2 [("claude", "a"); ("grok", "a")] "a" true] new_logger)))
  = ["grok"; "claude"; "decision"].
Proof.
  destruct (model_report_rows
              [outcome 1 [("grok", "a"); ("claude", "b")] "a" true;
               outcome 2 [("claude", "a"); ("grok", "a")] "a" true]) as (_ & _ & H).
  destruct (H (outcome 1 [("grok", "a"); ("claude", "b")] "a" true)
              [outcome 2 [("claude", "a"); ("grok", "a")] "a" true]
              ["claude"; "grok"]) as [Hrows _].
  - reflexivity.
  - repeat (apply NoDup_cons; split;
            [rewrite ?elem_of_cons, elem_of_nil; intuition discriminate|]).
    apply NoDup_nil. exact I.
  - rewrite !elem_of_cons, elem_of_nil. intuition discriminate.
  - intros r Hr. apply elem_of_cons in Hr as [-> | Hr].
    + apply perm_swap.
    + apply list_elem_of_singleton in Hr as ->. reflexivity.
  - exact Hrows.
Defined.

(** Five questions and a sample size of minus two. *)
Lemma select_questions_sublist_witness :
  select_questions (numbered [1; 2; 3; 4; 5]%Z) (Some (-2)%Z) None = numbered [1; 2; 3]%Z.
Proof.
  destruct (select_questions_sublist (numbered [1; 2; 3; 4; 5]%Z) (Some (-2)%Z) None)
    as (_ & _ & H).
  rewrite (H (-2)%Z eq_refl); [reflexivity | lia].
Defined.

(** The last pattern with an end of text after the closing quote. *)
Lemma extract_answer_last_pattern_idle_witness :
  answer_by (firstn 6 text_patterns ++ [leading_letter (Seq (Opt quote) (Seq Eol Eps))])%list
            "B y no la A"
  = "b".
Proof.
  destruct (extract_answer_last_pattern_idle "B y no la A") as [_ H].
  rewrite (H (Seq (Opt quote) (Seq Eol Eps))).
  - reflexivity.
  - intros cap cap' (m & Hq & m' & -> & ->). apply caps_opt_quote in Hq. exact Hq.
Defined.

(** A line of categories without underscores has its row. *)
Lemma stats_data_labels_witness :
  exists row,
    row ∈ stats_data
            [{| a_categoria_1 := "Anatomia"; a_categoria_2 := "Abdomen";
                a_es_correcta := true |};
             {| a_categoria_1 := "Anatomia_Topografica"; a_categoria_2 := "Abdomen";
                a_es_correcta := false |}] /\
    categoria_1 row = "Anatomia" /\ categoria_2 row = "Abdomen".
Proof.
  destruct (stats_data_labels
              [{| a_categoria_1 := "Anatomia"; a_categoria_2 := "Abdomen";
                  a_es_correcta := true |};
               {| a_categoria_1 := "Anatomia_Topografica"; a_categoria_2 := "Abdomen";
                  a_es_correcta := false |}]) as (_ & _ & H & _).
  apply (H {| a_categoria_1 := "Anatomia"; a_categoria_2 := "Abdomen";
              a_es_correcta := true |}).
  - left.
  - reflexivity.
  - reflexivity.
Defined.

(** A long answer under an answer key: its first character decides. *)
Lemma parse_json_response_outcome_witness :
  canonical_or_empty "c".
Proof.
  destruct (parse_json_response_outcome (fun _ => "")
              (dq "{'Respuesta': 'Creo que es la B'}")) as (H & _).
  apply H. reflexivity.
Defined.

(** A file of the largest valid size. *)
Lemma is_valid_image_default_witness :
  is_valid_image (fun _ => true) (fun _ => 4718592%Z) "f.jpg" default_max_size_mb = true.
Proof.
  destruct (is_valid_image_default (fun _ => true) (fun _ => 4718592%Z) "f.jpg")
    as ([_ H] & _).
  apply H. split; [reflexivity | lia].
Defined.

(** ** Every answer is trimmed and in lower case *)

Lemma is_space_lower_char (c : ascii) : is_space (lower_char c) = is_space c.
Proof. destruct c as [[] [] [] [] [] [] [] []]; reflexivity. Qed.

Lemma lstrip_lower (s : string) : lstrip (lower s) = lower (lstrip s).
Proof.
  induction s as [|c s IH]; [reflexivity|]. cbn [lower lstrip].
  rewrite is_space_lower_char. destruct (is_space c); [exact IH | reflexivity].
Qed.

Lemma rstrip_lower (s : string) : rstrip (lower s) = lower (rstrip s).
Proof.
  induction s as [|c s IH]; [reflexivity|]. cbn [lower rstrip].
  rewrite IH, is_space_lower_char.
  destruct (rstrip s) as [|d r]; cbn [lower]; [destruct (is_space c)|]; reflexivity.
Qed.

Lemma rstrip_idempotent (s : string) : rstrip (rstrip s) = rstrip s.
Proof.
  induction s as [|c s IH]; [reflexivity|]. cbn [rstrip].
  destruct (rstrip s) as [|d r] eqn:Hr.
  - destruct (is_space c) eqn:Hc; [reflexivity|]. cbn [rstrip]. rewrite Hc. reflexivity.
  - cbn [rstrip]. cbn [rstrip] in IH. rewrite IH. reflexivity.
Qed.

Lemma rstrip_head (c : ascii) (s : string) :
  is_space c = false -> exists r, rstrip (String c s) = String c r.
Proof.
  intros Hc. cbn [rstrip]. destruct (rstrip s) as [|d r]; rewrite ?Hc; eexists; reflexivity.
Qed.

Lemma lstrip_cases (s : string) :
  lstrip s = "" \/ exists c s', lstrip s = String c s' /\ is_space c = false.
Proof.
  induction s as [|c s IH]; [left; reflexivity|]. cbn [lstrip].
  destruct (is_space c) eqn:Hc; [exact IH|]. right. exists c, s. split; [reflexivity | exact Hc].
Qed.

Lemma strip_idempotent (s : string) : strip (strip s) = strip s.
Proof.
  unfold strip. destruct (lstrip_cases s) as [-> | (c & s' & -> & Hc)]; [reflexivity|].
  destruct (rstrip_head c s' Hc) as [r Hr]. rewrite Hr. cbn [lstrip]. rewrite Hc, <- Hr.
  apply rstrip_idempotent.
Qed.

Lemma strip_lower (s : string) : strip (lower s) = lower (strip s).
Proof. unfold strip. rewrite lstrip_lower, rstrip_lower. reflexivity. Qed.

Lemma normalise_normal (answer : string) :
  lower (normalise answer) = normalise answer /\
  strip (normalise answer) = normalise answer.
Proof.
  assert (Hx : lower (lower (strip answer)) = lower (strip answer) /\
               strip (lower (strip answer)) = lower (strip answer)).
  { split; [apply lower_idempotent|]. rewrite strip_lower, strip_idempotent. reflexivity. }
  unfold normalise. destruct (lower (strip answer)) as [|c [|d rest]]; try exact Hx.
  destruct (char_in c "abcd") eqn:Hc; [|exact Hx].
  destruct (abcd_letters c Hc) as [H|[H|[H|H]]]; rewrite H; split; reflexivity.
Qed.

(** Whatever the reply, an answer the extractor returns is in lower case
    and has no white space at either end: lower-casing or trimming it
    again, as the statistics do, changes nothing. *)
Theorem parse_response_answer_normal (response answer : string) (justification : json) :
  _parse_response response = Ok (answer, justification) ->
  lower answer = answer /\ strip answer = answer.
Proof.
  intros Hok.
  assert (Hcanon : forall a, canonical_or_empty a -> lower a = a /\ strip a = a).
  { intros a [->|[->|[->|[->| ->]]]]; split; reflexivity. }
  assert (Htext : forall p, Ok (parse_text response) = Ok p ->
                            lower (fst p) = fst p /\ strip (fst p) = fst p).
  { intros p [= <-]. apply Hcanon, parse_text_canonical. }
  unfold _parse_response in Hok.
  destruct (String.eqb response "" || startswith response "Error:").
  { injection Hok as <- _. split; reflexivity. }
  destruct (loads (clean_response response)) as [data|]; [|exact (Htext _ Hok)].
  destruct (first_key answer_keys data (JString "")) as [a|e]; [|discriminate Hok].
  destruct (first_key justification_keys data (JString "")) as [j|e]; [|discriminate Hok].
  cbn [mbind result_bind] in Hok.
  destruct a as [| | | |[|c s]| |]; try exact (Htext _ Hok).
  injection Hok as <- _. apply normalise_normal.
Qed.

(** A long answer with capitals and white space around it. *)
Lemma parse_response_answer_normal_witness :
  lower "vena umbilical" = "vena umbilical" /\ strip "vena umbilical" = "vena umbilical".
Proof.
  apply (parse_response_answer_normal (dq "{'Respuesta': '  Vena Umbilical '}")
           "vena umbilical" (JString "")).
  reflexivity.
Defined.

(** ** A message without content *)

(** When the image is read and the provider's message has no content, the
    advisor's entry holds [None] as its raw text and the empty answer, and
    is not marked as failed.  Under the name claude, grok or deepseek such
    an entry keeps the synthesis prompt from being built: the replacement
    of its slot raises, whether or not the template has the slot. *)
Theorem none_content_reply (advisor_template : string)
    (encode_image : string -> result string)
    (provider : string -> string -> result (option string)) (elapsed : Q)
    (image_path question image_b64 : string) :
  encode_image image_path = Ok image_b64 ->
  provider image_b64 (get_advisor_prompt advisor_template question) = Ok None ->
  let reply := reply_of advisor_template image_path question
                 (query_model encode_image provider elapsed) in
  raw_response reply = None /\ parsed_answer reply = "" /\ error reply = false /\
  forall decision_template name (advisor_responses : dict advisor_reply),
    name = "claude" \/ name = "grok" \/ name = "deepseek" ->
    dict_get advisor_responses name = Some reply ->
    decision_prompt decision_template question advisor_responses
    = Raise (TypeError "replace() argument 2 must be str, not None").
Proof.
  intros Henc Hprov reply.
  assert (Hreply : reply = {| raw_response := None; parsed_answer := "";
                              reasoning := JString ""; processing_time := elapsed;
                              error := false |}).
  { subst reply. unfold reply_of, _query_advisor, query_model.
    rewrite Henc. cbn [mbind result_bind]. rewrite Hprov. reflexivity. }
  rewrite Hreply. split; [reflexivity|]. split; [reflexivity|]. split; [reflexivity|].
  intros decision_template name advisor_responses Hname Hget.
  apply (decision_prompt_none _ _ name); [exact Hname|].
  unfold raw_or_placeholder. rewrite Hget. reflexivity.
Qed.

(** Claude gives no content, grok answers: no prompt for the arbiter. *)
Lemma none_content_reply_witness :
  decision_prompt (render example_template) "q"
    [("claude", reply_of "{question}" "img.jpg" "q" silent);
     ("grok", reply_of "{question}" "img.jpg" "q" answering)]
  = Raise (TypeError "replace() argument 2 must be str, not None").
Proof.
  destruct (none_content_reply "{question}" (fun _ => Ok "b64") (fun _ _ => Ok None) 1
              "img.jpg" "q" "b64" eq_refl eq_refl) as (_ & _ & _ & H).
  apply (H (render example_template) "claude").
  - left. reflexivity.
  - reflexivity.
Defined.

(** The question of the scenario with an advisor claude that gives no
    content: it raises, and no record is returned. *)
Example none_content_ends_question :
  process_question "{question}" (render example_template) "img"
    (fun base name => base ++ "/" ++ name) (fun _ => true)
    [("claude", silent); ("grok", says "b")] [("grok", says "b"); ("claude", silent)]
    (says "a") scenario_question
  = Raise (TypeError "replace() argument 2 must be str, not None").
Proof. reflexivity. Qed.
